(** * NamedPipe: a shallow embedding of npipe::NamedPipe and its properties

    The development follows src/NamedPipe.cpp.  The operating system is an
    interface ([Posix]): the code is written once, in a small monad that
    threads the state of the world, records every call the code issues in a
    trace, and propagates C++ exceptions.  General theorems hold for every
    world; a concrete model of a FIFO kernel is used where a claim speaks
    about what travels through the pipe. *)

From Stdlib Require Import ZArith String List Lia Bool.
From Stdlib.Strings Require Import Byte.
From Stdlib Require DecimalString DecimalZ.
From stdpp Require Import base tactics option list numbers strings gmap.

Local Open Scope Z_scope.

(** ** Data *)

Abbreviation byte := Byte.byte.

(** std::filesystem::path, kept as its native string; [empty()] holds of
    the empty string only and [clear()] yields it. *)
Definition path := string.

Definition path_empty (p : path) : bool :=
  match p with
  | EmptyString => true
  | String _ _ => false
  end.

Definition path_clear (_ : path) : path := EmptyString.

(** The exception taxonomy: npipe::Exception with its three subclasses.
    [PipeException] keeps the error code and the context it was built from. *)
Inductive Exception : Type :=
| TimeoutException
| InterruptException
| PipeException (errorCode : Z) (context : string).

(** What a call of the code leaves visible outside of its own variables. *)
Inductive event : Type :=
| EvOpen (pipePath : path) (flags ret : Z)
| EvClose (fd ret : Z)
| EvPoll (fd events timeout ret revents : Z)
| EvRead (fd count readBytes : Z)
| EvWrite (fd : Z) (bytes : list byte) (ret : Z)
| EvMkfifo (pipePath : path) (mode ret : Z)
| EvRemove (pipePath : path) (errorCode : Z)
| EvSleep (ms : Z)
| EvCloseHandle (handle : Z) (ok : bool)
| EvCerr (msg : string) (code : option Z)
| EvStoreBreak (value : bool).

(** ** The monad: world state, trace of calls, exceptions, fuel *)

Inductive outcome (A : Type) : Type :=
| Returns (a : A)
| Throws (e : Exception)
| Diverges.
Arguments Returns {A} a.
Arguments Throws {A} e.
Arguments Diverges {A}.

Record run (W A : Type) : Type := Run {
  result : outcome A;
  world : W;
  trace : list event
}.
Arguments Run {W A} result world trace.
Arguments result {W A} r.
Arguments world {W A} r.
Arguments trace {W A} r.

Definition M (W A : Type) : Type := W -> run W A.

Definition ret {W A} (a : A) : M W A := fun w => Run (Returns a) w [].

Definition throw {W A} (e : Exception) : M W A := fun w => Run (Throws e) w [].

Definition diverge {W A} : M W A := fun w => Run Diverges w [].

Definition bind {W A B} (m : M W A) (k : A -> M W B) : M W B :=
  fun w =>
    let r := m w in
    match result r with
    | Returns a =>
        let r' := k a (world r) in
        Run (result r') (world r') (trace r ++ trace r')
    | Throws e => Run (Throws e) (world r) (trace r)
    | Diverges => Run Diverges (world r) (trace r)
    end.

(** Scope exit: [cleanup] runs after [body] whether it returned or threw
    (a destructor during stack unwinding); the outcome is the body's. *)
Definition finally {W A} (body : M W A) (cleanup : M W unit) : M W A :=
  fun w =>
    let r := body w in
    match result r with
    | Diverges => r
    | _ =>
        let c := cleanup (world r) in
        Run (result r) (world c) (trace r ++ trace c)
    end.

Declare Scope cpp_scope.
Delimit Scope cpp_scope with cpp.
Notation "'let*' x ':=' m 'in' k" := (bind m (fun x => k))
  (at level 10, x pattern, m at level 100, k at level 200) : cpp_scope.
Notation "m ';;;' k" := (bind m (fun _ => k))
  (at level 100, k at level 200, right associativity) : cpp_scope.
Local Open Scope cpp_scope.

(** std::cerr and the store into the atomic m_break, which other threads
    can observe. *)
Definition cerr {W} (msg : string) (code : option Z) : M W unit := fun w =>
  Run (Returns tt) w [EvCerr msg code].

Definition store_event {W} (value : bool) : M W unit := fun w =>
  Run (Returns tt) w [EvStoreBreak value].

(** ** The operating system as the code sees it *)

(** struct pollfd *)
Record pollfd : Type := Pollfd { pfd : Z; events : Z; revents : Z }.

(** What a call of std::filesystem::exists(path), the overload without an
    error_code, ends with: its answer, or the std::filesystem::filesystem_error
    it throws when the status of the path cannot be determined, with the
    code of that error.  The exception is not one of npipe::Exception. *)
Inductive fs_answer : Type :=
| Answer (found : bool)
| filesystem_error (code : Z).

(** The calls of <fcntl.h>, <unistd.h>, <poll.h>, <sys/stat.h>,
    std::filesystem and std::this_thread made by the POSIX backend, with the
    constants of the system headers those calls are given.  [errno] is the
    thread's errno.  [sys_poll] returns the count together with the revents
    it stored; [sys_read] returns the count together with the contents of
    the buffer it filled.  [fs_exists] is the throwing overload of
    std::filesystem::exists.  [concurrent_interrupt] tells whether another
    thread has stored true into the atomic m_break of the object a running
    read_blocking belongs to. *)
Class Posix (W : Type) : Type := {
  O_RDONLY : Z;
  O_WRONLY : Z;
  O_NONBLOCK : Z;
  POLLIN : Z;
  EAGAIN : Z;
  S_IRUSR : Z;
  S_IWUSR : Z;
  errno : W -> Z;
  sys_open : path -> Z -> W -> Z * W;
  sys_close : Z -> W -> Z * W;
  sys_poll : pollfd -> Z -> W -> (Z * Z) * W;
  sys_read : Z -> Z -> W -> (Z * list byte) * W;
  sys_write : Z -> list byte -> W -> Z * W;
  sys_mkfifo : path -> Z -> W -> Z * W;
  fs_remove : path -> W -> Z * W;
  fs_exists : path -> W -> fs_answer;
  sleep_for : Z -> W -> W;
  concurrent_interrupt : W -> bool
}.

Section Calls.
Context {W : Type} `{Posix W}.

Definition get_errno : M W Z := fun w => Run (Returns (errno w)) w [].

Definition call_open (pipePath : path) (flags : Z) : M W Z := fun w =>
  let r := sys_open pipePath flags w in
  Run (Returns r.1) r.2 [EvOpen pipePath flags r.1].

Definition call_close (fd : Z) : M W Z := fun w =>
  let r := sys_close fd w in
  Run (Returns r.1) r.2 [EvClose fd r.1].

Definition call_poll (pollData : pollfd) (timeout : Z) : M W (Z * pollfd) := fun w =>
  let r := sys_poll pollData timeout w in
  Run (Returns (r.1.1, Pollfd (pfd pollData) (events pollData) r.1.2)) r.2
      [EvPoll (pfd pollData) (events pollData) timeout r.1.1 r.1.2].

Definition call_read (fd count : Z) : M W (Z * list byte) := fun w =>
  let r := sys_read fd count w in
  Run (Returns r.1) r.2 [EvRead fd count r.1.1].

Definition call_write (fd : Z) (bytes : list byte) : M W Z := fun w =>
  let r := sys_write fd bytes w in
  Run (Returns r.1) r.2 [EvWrite fd bytes r.1].

Definition call_mkfifo (pipePath : path) (mode : Z) : M W Z := fun w =>
  let r := sys_mkfifo pipePath mode w in
  Run (Returns r.1) r.2 [EvMkfifo pipePath mode r.1].

Definition call_remove (pipePath : path) : M W Z := fun w =>
  let r := fs_remove pipePath w in
  Run (Returns r.1) r.2 [EvRemove pipePath r.1].

Definition call_sleep (ms : Z) : M W unit := fun w =>
  Run (Returns tt) (sleep_for ms w) [EvSleep ms].

End Calls.

(** ** The pipe object and the code of the POSIX backend *)

(** class NamedPipe: m_pipePath and the atomic m_break. *)
Record NamedPipe : Type := MkNamedPipe {
  m_pipePath : path;
  m_break : bool
}.

(** NamedPipe() = default: empty path, m_break = false. *)
Definition NamedPipe_default : NamedPipe := MkNamedPipe EmptyString false.

(** explicit NamedPipe(const std::filesystem::path &path) *)
Definition NamedPipe_of_path (p : path) : NamedPipe := MkNamedPipe p false.

Definition PIPE_WAIT_INTERVAL : Z := 1.
Definition PIPE_WRITE_WAIT_INTERVAL : Z := 1.
Definition PIPE_BUFFER_SIZE : Z := 256.

(** handle_t: FileHandleWrapper over int, closed by ::close, with the
    invalid handle -1 and the success code 0. *)
Definition invalid_handle : Z := -1.
Definition successCode : Z := 0.

Definition getPath (this : NamedPipe) : path := m_pipePath this.

(** operator bool *)
Definition isValid (this : NamedPipe) : bool := negb (path_empty (m_pipePath this)).

(** interrupt(): m_break.store(true) *)
Definition interrupt (this : NamedPipe) : NamedPipe :=
  MkNamedPipe (m_pipePath this) true.

(** NamedPipe(NamedPipe &&other): the new object takes the path, its
    m_break is the member's default; [other] keeps its m_break.  The pair is
    (new object, other afterwards). *)
Definition move_construct (other : NamedPipe) : NamedPipe * NamedPipe :=
  (MkNamedPipe (m_pipePath other) false,
   MkNamedPipe (path_clear (m_pipePath other)) (m_break other)).

(** operator=(NamedPipe &&other) for two distinct objects; the pair is
    (this afterwards, other afterwards). *)
Definition move_assign (this other : NamedPipe) : NamedPipe * NamedPipe :=
  (MkNamedPipe (m_pipePath other) (m_break this),
   MkNamedPipe (path_clear (m_pipePath other)) (m_break other)).

Section PosixBackend.
Context {W : Type} `{Posix W}.

(** ~FileHandleWrapper *)
Definition FileHandleWrapper_dtor (m_handle : Z) : M W unit :=
  if negb (m_handle =? invalid_handle) then
    let* r := call_close m_handle in
    if negb (r =? successCode) then cerr "Failed at closing guarded handle" None
    else ret tt
  else ret tt.

(** FileHandleWrapper::operator bool *)
Definition handle_valid (m_handle : Z) : bool := negb (m_handle =? invalid_handle).

Definition create (pipePath : path) : M W NamedPipe :=
  let* r := call_mkfifo pipePath (Z.lor S_IRUSR S_IWUSR) in
  if negb (r =? 0) then
    let* e := get_errno in throw (PipeException e "Create")
  else ret (NamedPipe_of_path pipePath).

(** The flags of the two opens. *)
Definition wr_flags : Z := Z.lor O_WRONLY O_NONBLOCK.
Definition rd_flags : Z := Z.lor O_RDONLY O_NONBLOCK.

(** The do-while loop of write; it returns its two variables, the handle
    (now valid) and what is left of the timeout.  [fuel] bounds the
    unfolding and is never exhausted when it is at least the number of
    attempts the timeout allows. *)
Fixpoint open_retry (fuel : nat) (pipePath : path) (timeout : Z) : M W (Z * Z) :=
  match fuel with
  | O => diverge
  | S fuel' =>
      let* handle := call_open pipePath wr_flags in
      if negb (handle_valid handle) then
        if timeout >? PIPE_WRITE_WAIT_INTERVAL then
          call_sleep PIPE_WRITE_WAIT_INTERVAL ;;;
          open_retry fuel' pipePath (timeout - PIPE_WRITE_WAIT_INTERVAL)
        else throw TimeoutException
      else ret (handle, timeout)
  end.

Definition attempts (timeout : Z) : nat := Z.to_nat (Z.max 1 timeout).

(** static write(pipePath, message, messageSize, timeout): [message] is
    the array the pointer refers to, so assert(message) holds.  The POSIX
    body casts its last parameter, waitUntilWritten, to void; it is left
    out. *)
Definition write (pipePath : path) (message : list byte) (messageSize : nat)
    (timeout : Z) : M W unit :=
  let* opened := open_retry (attempts timeout) pipePath timeout in
  let handle := opened.1 in
  finally
    (let* r := call_write handle (take messageSize message) in
     if r <? 0 then
       let* e := get_errno in throw (PipeException e "Write")
     else ret tt)
    (FileHandleWrapper_dtor handle).

(** the member overload *)
Definition write_member (this : NamedPipe) (message : list byte) (messageSize : nat)
    (timeout : Z) : M W unit :=
  write (m_pipePath this) message messageSize timeout.

(** exists(pipePath): the call of std::filesystem::exists and nothing
    else, so that what that call throws leaves exists as it is *)
Definition exists_ (pipePath : path) (w : W) : fs_answer :=
  fs_exists pipePath w.

(** m_break as the reading thread loads it *)
Definition load_break (this : NamedPipe) : M W bool :=
  fun w => Run (Returns (m_break this || concurrent_interrupt w)) w [].

(** The readiness loop of read_blocking; it returns what is left of the
    timeout. *)
Fixpoint wait_readable (fuel : nat) (this : NamedPipe) (pollData : pollfd)
    (timeout : Z) : M W Z :=
  match fuel with
  | O => diverge
  | S fuel' =>
      let* r := call_poll pollData PIPE_WAIT_INTERVAL in
      if negb (r.1 =? -1) && (Z.land (revents r.2) POLLIN =? 0) then
        let* interrupted := load_break this in
        if interrupted then throw InterruptException
        else if timeout >? PIPE_WAIT_INTERVAL then
          wait_readable fuel' this r.2 (timeout - PIPE_WAIT_INTERVAL)
        else throw TimeoutException
      else ret timeout
  end.

(** The read loop of read_blocking with the test that follows it. *)
Fixpoint drain (fuel : nat) (handle : Z) (message : list byte) : M W (list byte) :=
  match fuel with
  | O => diverge
  | S fuel' =>
      let* r := call_read handle PIPE_BUFFER_SIZE in
      let readBytes := r.1 in
      if readBytes >? 0 then
        drain fuel' handle (message ++ take (Z.to_nat readBytes) r.2)
      else
        let* e := get_errno in
        if (readBytes =? -1) && negb (e =? EAGAIN) then
          throw (PipeException e "Read")
        else ret message
  end.

(** read_blocking(timeout); [fuel] bounds the unfolding of the read
    loop, whose length is up to the other end of the pipe. *)
Definition read_blocking (fuel : nat) (this : NamedPipe) (timeout : Z) : M W (list byte) :=
  let* handle := call_open (m_pipePath this) rd_flags in
  finally
    (if handle =? -1 then
       let* e := get_errno in throw (PipeException e "Open")
     else
       wait_readable (attempts timeout) this (Pollfd handle POLLIN (-1)) timeout ;;;
       drain fuel handle [])
    (FileHandleWrapper_dtor handle).

(** destroy(); the result is the object afterwards. *)
Definition destroy (this : NamedPipe) : M W NamedPipe :=
  store_event true ;;;
  let this1 := MkNamedPipe (m_pipePath this) true in
  if negb (path_empty (m_pipePath this1)) then
    let* errorCode := call_remove (m_pipePath this1) in
    (if negb (errorCode =? 0) then
       cerr "Failed at deleting pipe-object: " (Some errorCode)
     else ret tt) ;;;
    ret (MkNamedPipe (path_clear (m_pipePath this1)) (m_break this1))
  else ret this1.

(** ~NamedPipe() *)
Definition NamedPipe_dtor (this : NamedPipe) : M W NamedPipe := destroy this.
End PosixBackend.

(** ** The moves and destroy of the Windows backend

    Only the members the two backends give different bodies and that touch
    nothing but the object: the move constructor, the move assignment and
    destroy, which closes the retained handle. *)
Module Windows.

Record NamedPipe : Type := MkNamedPipe {
  m_pipePath : path;
  m_break : bool;
  m_handle : Z
}.

Definition INVALID_HANDLE_VALUE : Z := -1.

Definition isValid (this : NamedPipe) : bool := negb (path_empty (m_pipePath this)).

Definition getPath (this : NamedPipe) : path := m_pipePath this.

(** NamedPipe(NamedPipe &&other); the pair is (new object, other afterwards). *)
Definition move_construct (other : NamedPipe) : NamedPipe * NamedPipe :=
  (MkNamedPipe (m_pipePath other) false (m_handle other),
   MkNamedPipe (path_clear (m_pipePath other)) (m_break other) INVALID_HANDLE_VALUE).

(** operator=(NamedPipe &&other) for two distinct objects; the pair is
    (this afterwards, other afterwards). *)
Definition move_assign (this other : NamedPipe) : NamedPipe * NamedPipe :=
  (MkNamedPipe (m_pipePath other) (m_break other) (m_handle other),
   MkNamedPipe (path_clear (m_pipePath other)) true INVALID_HANDLE_VALUE).

(** CloseHandle and GetLastError of <windows.h>. *)
Class Win32 (W : Type) : Type := {
  CloseHandle : Z -> W -> bool * W;
  GetLastError : W -> Z
}.

Section Destroy.
Context {W : Type} `{Win32 W}.

Definition call_CloseHandle (h : Z) : M W bool := fun w =>
  let r := CloseHandle h w in
  Run (Returns r.1) r.2 [EvCloseHandle h r.1].

Definition destroy (this : NamedPipe) : M W NamedPipe :=
  store_event true ;;;
  let this1 := MkNamedPipe (m_pipePath this) true (m_handle this) in
  if negb (path_empty (m_pipePath this1)) then
    let* ok := call_CloseHandle (m_handle this1) in
    (if negb ok then
       fun w => cerr "Failed at closing pipe handle: " (Some (GetLastError w)) w
     else ret tt) ;;;
    ret (MkNamedPipe (path_clear (m_pipePath this1)) (m_break this1) INVALID_HANDLE_VALUE)
  else ret this1.
End Destroy.
End Windows.

(** ** A kernel with FIFOs

    The environment the POSIX backend runs in when a claim is about the
    bytes that travel: a file system whose entries are FIFOs, a table of
    open file descriptors, and the rules of pipe(7), open(2), poll(2),
    read(2) and write(2) for descriptors opened with O_NONBLOCK.  The
    numeric constants are those of Linux.  The file system is one directory
    that can be written, and a path is the name of an entry of it: the
    kernel stands for a real one on names without a directory part, that
    are short enough for an entry and are not "." or "..", and the status
    of such a name can always be determined. *)
Module Kernel.

Definition ENOENT : Z := 2.
Definition ENXIO : Z := 6.
Definition EBADF : Z := 9.
Definition EAGAIN : Z := 11.
Definition EEXIST : Z := 17.
Definition EINVAL : Z := 22.
Definition EPIPE : Z := 32.
Definition O_RDONLY : Z := 0.
Definition O_WRONLY : Z := 1.
Definition O_ACCMODE : Z := 3.
Definition O_NONBLOCK : Z := 2048.
Definition POLLIN : Z := 1.
Definition POLLHUP : Z := 16.
Definition POLLNVAL : Z := 32.
Definition S_IRUSR : Z := 256.
Definition S_IWUSR : Z := 128.

(** One FIFO: the bytes written and not yet read, the number of open
    read and write ends, and how many write ends were ever opened. *)
Record fifo : Type := Fifo {
  content : list byte;
  readers : nat;
  writers : nat;
  w_counter : nat
}.

(** An open file description: the FIFO, the access mode, and the value
    of w_counter when it was opened. *)
Record file : Type := File {
  inode : nat;
  writable : bool;
  f_version : nat
}.

Record kernel : Type := MkKernel {
  names : gmap string nat;
  inodes : gmap nat fifo;
  fds : gmap Z file;
  next_fd : Z;
  next_inode : nat;
  k_errno : Z;
  capacity : Z;
  pipe_buf : Z
}.

(** The machine before any pipe exists; descriptors 0..2 are the
    standard streams. *)
Definition boot (capacity pipe_buf : Z) : kernel :=
  MkKernel ∅ ∅ ∅ 3 0 0 capacity pipe_buf.

Definition set_errno (e : Z) (k : kernel) : kernel :=
  MkKernel (names k) (inodes k) (fds k) (next_fd k) (next_inode k) e
           (capacity k) (pipe_buf k).

Definition set_inode (i : nat) (f : fifo) (k : kernel) : kernel :=
  MkKernel (names k) (<[i := f]> (inodes k)) (fds k) (next_fd k) (next_inode k)
           (k_errno k) (capacity k) (pipe_buf k).

Definition fail (e : Z) (k : kernel) : Z * kernel := (-1, set_errno e k).

Definition k_mkfifo (p : path) (mode : Z) (k : kernel) : Z * kernel :=
  match names k !! p with
  | Some _ => fail EEXIST k
  | None =>
      (0, MkKernel (<[p := next_inode k]> (names k))
                   (<[next_inode k := Fifo [] 0 0 0]> (inodes k))
                   (fds k) (next_fd k) (S (next_inode k)) (k_errno k)
                   (capacity k) (pipe_buf k))
  end.

Definition install (i : nat) (f : fifo) (d : file) (k : kernel) : Z * kernel :=
  (next_fd k,
   MkKernel (names k) (<[i := f]> (inodes k)) (<[next_fd k := d]> (fds k))
            (next_fd k + 1) (next_inode k) (k_errno k) (capacity k) (pipe_buf k)).

(** open(2) on a FIFO with O_NONBLOCK: the read end opens at once, the
    write end fails with ENXIO while no read end is open. *)
Definition k_open (p : path) (flags : Z) (k : kernel) : Z * kernel :=
  match names k !! p with
  | None => fail ENOENT k
  | Some i =>
      match inodes k !! i with
      | None => fail ENOENT k
      | Some f =>
          if Z.land flags O_ACCMODE =? O_RDONLY then
            install i (Fifo (content f) (S (readers f)) (writers f) (w_counter f))
                    (File i false (w_counter f)) k
          else if Z.land flags O_ACCMODE =? O_WRONLY then
            match readers f with
            | O => fail ENXIO k
            | S _ =>
                install i (Fifo (content f) (readers f) (S (writers f)) (S (w_counter f)))
                        (File i true (S (w_counter f))) k
            end
          else fail EINVAL k
      end
  end.

Definition k_close (fd : Z) (k : kernel) : Z * kernel :=
  match fds k !! fd with
  | None => fail EBADF k
  | Some d =>
      let inodes' :=
        match inodes k !! inode d with
        | None => inodes k
        | Some f =>
            <[inode d :=
                if writable d
                then Fifo (content f) (readers f) (pred (writers f)) (w_counter f)
                else Fifo (content f) (pred (readers f)) (writers f) (w_counter f)]>
              (inodes k)
        end in
      (0, MkKernel (names k) inodes' (delete fd (fds k)) (next_fd k) (next_inode k)
                   (k_errno k) (capacity k) (pipe_buf k))
  end.

(** poll(2) on one descriptor: POLLIN while bytes wait in the FIFO,
    POLLHUP once every writer that connected after the open has gone. *)
Definition k_revents (d : file) (f : fifo) (requested : Z) : Z :=
  if writable d then 0
  else
    Z.lor (match content f with
           | [] => 0
           | _ :: _ => Z.land requested POLLIN
           end)
          (match writers f with
           | O => if Nat.eqb (f_version d) (w_counter f) then 0 else POLLHUP
           | S _ => 0
           end).

Definition k_poll (pollData : pollfd) (timeout : Z) (k : kernel) : (Z * Z) * kernel :=
  let rev :=
    match fds k !! pfd pollData with
    | None => POLLNVAL
    | Some d =>
        match inodes k !! inode d with
        | None => POLLNVAL
        | Some f => k_revents d f (events pollData)
        end
    end in
  ((if rev =? 0 then 0 else 1, rev), k).

(** read(2): up to [count] bytes from the front; on an empty FIFO, 0
    when no write end is open and EAGAIN otherwise. *)
Definition k_read (fd count : Z) (k : kernel) : (Z * list byte) * kernel :=
  match fds k !! fd with
  | None => ((-1, []), set_errno EBADF k)
  | Some d =>
      match inodes k !! inode d with
      | None => ((-1, []), set_errno EBADF k)
      | Some f =>
          if writable d then ((-1, []), set_errno EBADF k)
          else
            match content f with
            | [] =>
                match writers f with
                | O => ((0, []), k)
                | S _ => ((-1, []), set_errno EAGAIN k)
                end
            | _ :: _ =>
                let got := take (Z.to_nat count) (content f) in
                ((Z.of_nat (length got), got),
                 set_inode (inode d)
                   (Fifo (drop (Z.to_nat count) (content f)) (readers f) (writers f)
                         (w_counter f)) k)
            end
      end
  end.

(** write(2) with O_NONBLOCK: up to PIPE_BUF bytes go in whole or not
    at all (EAGAIN); a longer request transfers what fits and returns that
    count, or fails with EAGAIN when the pipe is full. *)
Definition k_write (fd : Z) (bytes : list byte) (k : kernel) : Z * kernel :=
  match fds k !! fd with
  | None => fail EBADF k
  | Some d =>
      match inodes k !! inode d with
      | None => fail EBADF k
      | Some f =>
          if negb (writable d) then fail EBADF k
          else
            match readers f with
            | O => fail EPIPE k
            | S _ =>
                let n := Z.of_nat (length bytes) in
                let free := capacity k - Z.of_nat (length (content f)) in
                let accepted :=
                  if n <=? pipe_buf k
                  then (if n <=? free then Some n else None)
                  else (if free <=? 0 then None else Some (Z.min n free)) in
                match accepted with
                | None => fail EAGAIN k
                | Some m =>
                    (m,
                     set_inode (inode d)
                       (Fifo (content f ++ take (Z.to_nat m) bytes) (readers f)
                             (writers f) (w_counter f)) k)
                end
            end
      end
  end.

(** std::filesystem::remove(path, errorCode): unlinks the name; a path
    that does not exist is not an error.  Open descriptors keep the FIFO. *)
Definition k_remove (p : path) (k : kernel) : Z * kernel :=
  (0, MkKernel (delete p (names k)) (inodes k) (fds k) (next_fd k) (next_inode k)
               (k_errno k) (capacity k) (pipe_buf k)).

Definition k_exists (p : path) (k : kernel) : bool :=
  match names k !! p with
  | Some _ => true
  | None => false
  end.

(** The kernel alone: no other thread runs. *)
#[global] Instance kernel_posix : Posix kernel :=
  Build_Posix kernel O_RDONLY O_WRONLY O_NONBLOCK POLLIN EAGAIN S_IRUSR S_IWUSR
    k_errno k_open k_close k_poll k_read k_write k_mkfifo k_remove
    (fun p k => Answer (k_exists p k))
    (fun _ k => k) (fun _ => false).

End Kernel.

(** ** The reader and a signal

    The kernel together with a signal that reaches the reading thread
    while it waits in poll.  As signal(7) says, poll is never restarted
    after a handler has run: the poll the signal arrives in fails with -1,
    sets errno to EINTR and stores no revents. *)
Module Signals.
Import Kernel.

Definition EINTR : Z := 4.

(** [signal = Some n]: a signal arrives during the reader's poll number
    [n] from now (counted from 0). *)
Record process : Type := Process {
  kern : kernel;
  signal : option nat
}.

Definition on_kern {A} (f : kernel -> A * kernel) (s : process) : A * process :=
  let r := f (kern s) in
  (r.1, Process r.2 (signal s)).

Definition s_poll (pollData : pollfd) (timeout : Z) (s : process)
    : (Z * Z) * process :=
  match signal s with
  | Some O => ((-1, revents pollData), Process (set_errno EINTR (kern s)) None)
  | Some (S n) =>
      let r := k_poll pollData timeout (kern s) in
      (r.1, Process r.2 (Some n))
  | None => on_kern (k_poll pollData timeout) s
  end.

#[global] Instance process_posix : Posix process :=
  Build_Posix process O_RDONLY O_WRONLY O_NONBLOCK POLLIN EAGAIN S_IRUSR S_IWUSR
    (fun s => k_errno (kern s))
    (fun p flags => on_kern (k_open p flags))
    (fun fd => on_kern (k_close fd))
    s_poll
    (fun fd count => on_kern (k_read fd count))
    (fun fd bytes => on_kern (k_write fd bytes))
    (fun p mode => on_kern (k_mkfifo p mode))
    (fun p => on_kern (k_remove p))
    (fun p s => Answer (k_exists p (kern s)))
    (fun _ s => s)
    (fun _ => false).

End Signals.

(** ** The reader's world with a second thread

    The kernel together with what other threads do while the reader waits
    in poll: a writer that calls NamedPipe::write during one of the reader's
    polls, and a thread that calls interrupt() on the reader's object.  The
    writer runs the code of [write] itself, on the same kernel, with an errno
    of its own. *)
Module Threads.
Import Kernel.

(** A pending call write(pipePath, message, messageSize, timeout) that
    starts during the reader's poll number [delay] (counted from 0). *)
Record peer : Type := Peer {
  delay : nat;
  p_pipePath : path;
  p_message : list byte;
  p_messageSize : nat;
  p_timeout : Z
}.

(** [interrupter = Some n]: another thread calls interrupt() before the
    reader's [n]-th poll from now returns; [Some 0] stands for a call that
    has happened.  [writer_result] is what the writer's call ended with. *)
Record system : Type := System {
  kern : kernel;
  writer : option peer;
  writer_result : option (outcome unit);
  interrupter : option nat
}.

Definition run_writer (s : system) : system :=
  match writer s with
  | None => s
  | Some p =>
      match delay p with
      | O =>
          let r := write (p_pipePath p) (p_message p) (p_messageSize p) (p_timeout p)
                         (kern s) in
          System (set_errno (k_errno (kern s)) (world r)) None (Some (result r))
                 (interrupter s)
      | S d =>
          System (kern s)
                 (Some (Peer d (p_pipePath p) (p_message p) (p_messageSize p) (p_timeout p)))
                 (writer_result s) (interrupter s)
      end
  end.

Definition run_interrupter (s : system) : system :=
  System (kern s) (writer s) (writer_result s)
         (match interrupter s with
          | Some (S n) => Some n
          | other => other
          end).

(** What the other threads do while the reader sits in one poll. *)
Definition tick (s : system) : system := run_interrupter (run_writer s).

Definition on_kern {A} (f : kernel -> A * kernel) (s : system) : A * system :=
  let r := f (kern s) in
  (r.1, System r.2 (writer s) (writer_result s) (interrupter s)).

Definition interrupt_seen (s : system) : bool :=
  match interrupter s with
  | Some O => true
  | _ => false
  end.

#[global] Instance system_posix : Posix system :=
  Build_Posix system O_RDONLY O_WRONLY O_NONBLOCK POLLIN EAGAIN S_IRUSR S_IWUSR
    (fun s => k_errno (kern s))
    (fun p flags => on_kern (k_open p flags))
    (fun fd => on_kern (k_close fd))
    (fun pollData timeout s => on_kern (k_poll pollData timeout) (tick s))
    (fun fd count => on_kern (k_read fd count))
    (fun fd bytes => on_kern (k_write fd bytes))
    (fun p mode => on_kern (k_mkfifo p mode))
    (fun p => on_kern (k_remove p))
    (fun p s => Answer (k_exists p (kern s)))
    (fun _ s => s)
    interrupt_seen.

(** The reader alone on kernel [k]. *)
Definition alone (k : kernel) : system := System k None None None.

(** The reader on kernel [k] with a writer that sends [message] to
    [pipePath] during poll number [delay]. *)
Definition with_writer (k : kernel) (delay : nat) (pipePath : path)
    (message : list byte) (timeout : Z) : system :=
  System k (Some (Peer delay pipePath message (length message) timeout)) None None.

(** The reader on kernel [k] with interrupt() called before its [n]-th
    poll returns. *)
Definition with_interrupt (k : kernel) (n : nat) : system :=
  System k None None (Some n).

End Threads.

(** ** Reading traces *)

Definition is_open (e : event) : bool :=
  match e with EvOpen _ _ _ => true | _ => false end.

Definition is_poll (e : event) : bool :=
  match e with EvPoll _ _ _ _ _ => true | _ => false end.

Definition is_write (e : event) : bool :=
  match e with EvWrite _ _ _ => true | _ => false end.

Definition is_sleep (e : event) : bool :=
  match e with EvSleep _ => true | _ => false end.

(** A call into the operating system, as opposed to a store into the
    object or a line on std::cerr. *)
Definition is_os_action (e : event) : bool :=
  match e with
  | EvCerr _ _ | EvStoreBreak _ => false
  | _ => true
  end.

Fixpoint count (f : event -> bool) (tr : list event) : nat :=
  match tr with
  | [] => O
  | e :: tr' => if f e then S (count f tr') else count f tr'
  end.

(** [k] failed attempts of the open loop, each followed by its sleep. *)
Fixpoint retries (k : nat) (pipePath : path) (flags : Z) : list event :=
  match k with
  | O => []
  | S k' =>
      EvOpen pipePath flags (-1) :: EvSleep PIPE_WRITE_WAIT_INTERVAL
        :: retries k' pipePath flags
  end.

(** A poll of the readiness loop that lets the loop go on: it did not
    fail and did not report POLLIN. *)
Definition idle_poll (pollin : Z) (e : event) : Prop :=
  match e with
  | EvPoll _ _ timeout r rev =>
      timeout = PIPE_WAIT_INTERVAL /\ r <> -1 /\ Z.land rev pollin = 0
  | _ => False
  end.

(** ceil(timeout / interval) for a positive interval. *)
Definition ceil_div (timeout interval : Z) : Z := (timeout + interval - 1) / interval.

(** [interrupt()] called [n] times. *)
Fixpoint interrupt_times (n : nat) (this : NamedPipe) : NamedPipe :=
  match n with
  | O => this
  | S n' => interrupt (interrupt_times n' this)
  end.

(** ** The machines of the examples

    The pipe of tests/IO.cpp on a machine with the pipe sizes of Linux (64
    KiB of capacity, PIPE_BUF of 4096), and on one whose pipes hold a single
    page. *)
Module Scenario.
Import Kernel Threads.

Definition pipeName : path := "ioTestPipe".

Definition machine : kernel := boot 65536 4096.

Definition one_page : kernel := boot 4096 4096.

(** after NamedPipe::create(pipeName) *)
Definition created (k : kernel) : kernel := world (create pipeName k).

(** after a reader has opened the pipe as read_blocking does *)
Definition listening (k : kernel) : kernel :=
  world (call_open pipeName rd_flags (created k)).

(** the object create() returns *)
Definition ioTestPipe : NamedPipe := NamedPipe_of_path pipeName.

(** the three messages of tests/IO.cpp *)
Definition message1 : list byte := [Byte.x2a].
Definition message2 : list byte := [Byte.x2a; Byte.x00].
Definition message3 : list byte := [Byte.x00; Byte.x01; Byte.x02; Byte.xff; Byte.xfe].

(** a message one byte longer than a page *)
Definition long_message : list byte := repeat Byte.x07 4097.
End Scenario.


(** The bound on the iterations of a poll loop as C7 states it. *)
Definition stated_bound (timeout interval : Z) : nat := Z.to_nat (ceil_div timeout interval).

(** The bound the loops keep: one iteration at least. *)
Definition iteration_bound (timeout interval : Z) : nat :=
  Z.to_nat (Z.max 1 (ceil_div timeout interval)).

(** ** States of a pipe in the kernel *)

(** The FIFO at [p] exists, is empty and has no write end open: what
    create() leaves, and what a completed read leaves. *)
Definition fresh_pipe (k : Kernel.kernel) (p : path) : Prop :=
  exists i f,
    Kernel.names k !! p = Some i /\
    Kernel.inodes k !! i = Some f /\
    Kernel.content f = [] /\
    Kernel.writers f = O /\
    0 <= Kernel.next_fd k.

(** A reader holds [fd] on the empty FIFO [i] at [p], and no writer has
    connected since it opened. *)
Definition waiting (k : Kernel.kernel) (p : path) (fd : Z) (i rd wc : nat) : Prop :=
  Kernel.names k !! p = Some i /\
  Kernel.inodes k !! i = Some (Kernel.Fifo [] (S rd) O wc) /\
  Kernel.fds k !! fd = Some (Kernel.File i false wc) /\
  0 <= fd < Kernel.next_fd k.

(** The reader holds [fd] on FIFO [i], which holds [bytes]; the writer
    that put them there has closed its end. *)
Definition delivered (k : Kernel.kernel) (fd : Z) (i rd wc : nat) (bytes : list byte) : Prop :=
  Kernel.inodes k !! i = Some (Kernel.Fifo bytes (S rd) O (S wc)) /\
  Kernel.fds k !! fd = Some (Kernel.File i false wc).

(** ** Exception messages

    PipeException builds its message in the constructor; what() returns it.
    TimeoutException::what() is a literal.  InterruptException inherits
    std::exception::what(), whose text the implementation chooses. *)

(** the double quote, character 34 *)
Definition quote_char : Ascii.ascii :=
  Ascii.Ascii false true false false false true false false.

(** std::to_string on the error code *)
Definition to_string (errorCode : Z) : string :=
  DecimalString.NilZero.string_of_int (Z.to_int errorCode).

(** PipeException(errorCode, context): m_message *)
Definition PipeException_message (errorCode : Z) (context : string) : string :=
  ("Pipe action " ++ String quote_char context
     ++ String quote_char " returned error code " ++ to_string errorCode)%string.

Definition what (e : Exception) : option string :=
  match e with
  | TimeoutException => Some "TimeoutException"%string
  | InterruptException => None
  | PipeException errorCode context => Some (PipeException_message errorCode context)
  end.

(** ** More ways to read a trace *)

Definition is_close (e : event) : bool :=
  match e with EvClose _ _ => true | _ => false end.

Definition is_read (e : event) : bool :=
  match e with EvRead _ _ _ => true | _ => false end.

(** an open that returned a handle *)
Definition opened (e : event) : bool :=
  match e with EvOpen _ _ r => negb (r =? -1) | _ => false end.

(** the handles a trace opened and the handles it closed, in order *)
Fixpoint opened_handles (tr : list event) : list Z :=
  match tr with
  | [] => []
  | EvOpen _ _ r :: tr' => if r =? -1 then opened_handles tr' else r :: opened_handles tr'
  | _ :: tr' => opened_handles tr'
  end.

Fixpoint closed_handles (tr : list event) : list Z :=
  match tr with
  | [] => []
  | EvClose fd _ :: tr' => fd :: closed_handles tr'
  | _ :: tr' => closed_handles tr'
  end.

(** ** Names of entries

    A path that names an entry of the directory the kernel stands for: not
    empty, at most NAME_MAX characters, without a slash or a NUL, and
    neither "." nor "..". *)
Definition NAME_MAX : nat := 255.

Fixpoint has_char (c : Ascii.ascii) (s : string) : bool :=
  match s with
  | EmptyString => false
  | String a s' => if Ascii.eqb a c then true else has_char c s'
  end.

(** the slash, character 47 *)
Definition slash : Ascii.ascii := Ascii.Ascii true true true true false true false false.

Definition plain_name (p : path) : bool :=
  negb (path_empty p) && (String.length p <=? NAME_MAX)%nat
  && negb (has_char slash p) && negb (has_char Ascii.zero p)
  && negb (String.eqb p ".") && negb (String.eqb p "..").

(** What a call of the kernel leaves alone: the names of the file system
    and the sizes of its pipes; the counter this kernel takes its
    descriptor numbers from does not go down. *)
Definition same_namespace (k k' : Kernel.kernel) : Prop :=
  Kernel.names k' = Kernel.names k /\
  Kernel.capacity k' = Kernel.capacity k /\
  Kernel.pipe_buf k' = Kernel.pipe_buf k /\
  Kernel.next_fd k <= Kernel.next_fd k'.


(** whether a context label holds a double quote (none in the code does) *)
Fixpoint has_quote (s : string) : bool :=
  match s with
  | EmptyString => false
  | String c s' => if Ascii.eqb c quote_char then true else has_quote s'
  end.

(** FileHandleWrapper::operator=(FileHandleWrapper &&other): the pair is
    the handle of (this, other) afterwards.  The handle this held before is
    overwritten. *)
Definition FileHandleWrapper_move_assign (this_handle other_handle : Z) : Z * Z :=
  (other_handle, invalid_handle).

(** ** The input and output of the Windows backend

    waitOnAsyncIO, create, write, exists, disconnectAndReconnect and
    read_blocking of the PIPE_PLATFORM_WINDOWS half of NamedPipe.cpp, over
    the calls of <windows.h> they make.  The calls are an interface, as for
    POSIX; the monad is the same with the events of this interface.  The
    two assert() on the shape of the pipe name are those of a build without
    NDEBUG and are not part of the functions below. *)
Module WinIO.

(** codes of <winerror.h> *)
Definition ERROR_FILE_NOT_FOUND : Z := 2.
Definition ERROR_NO_MORE_FILES : Z := 18.
Definition ERROR_BROKEN_PIPE : Z := 109.
Definition ERROR_SEM_TIMEOUT : Z := 121.
Definition ERROR_NO_DATA : Z := 232.
Definition ERROR_PIPE_CONNECTED : Z := 535.
Definition ERROR_PIPE_LISTENING : Z := 536.
Definition ERROR_IO_INCOMPLETE : Z := 996.
Definition ERROR_IO_PENDING : Z := 997.
Definition INVALID_HANDLE_VALUE : Z := -1.

Inductive wevent : Type :=
| WaitNamedPipe_ev (name : string) (ms : Z) (ok : bool)
| CreateNamedPipe_ev (name : string) (handle : Z)
| CreateFile_ev (name : string) (handle : Z)
| WriteFile_ev (handle : Z) (bytes : list byte) (ok : bool)
| ReadFile_ev (handle count : Z) (ok : bool) (readBytes : Z)
| GetOverlappedResult_ev (handle : Z) (wait ok : bool) (transferred : Z)
| ConnectNamedPipe_ev (handle : Z) (ok : bool)
| DisconnectNamedPipe_ev (handle : Z) (ok : bool)
| CreateEvent_ev (handle : Z)
| CloseHandle_ev (handle : Z) (ok : bool)
| FindFirstFile_ev (pattern : string) (handle : Z)
| FindNextFile_ev (handle : Z) (ok : bool)
| FindClose_ev (handle : Z)
| Sleep_ev (ms : Z)
| Cerr_ev (msg : string).

Record wrun (W A : Type) : Type := WRun {
wresult : outcome A;
wworld : W;
wtrace : list wevent
}.
Arguments WRun {W A} wresult wworld wtrace.
Arguments wresult {W A} w.
Arguments wworld {W A} w.
Arguments wtrace {W A} w.

Definition WM (W A : Type) : Type := W -> wrun W A.

Definition wret {W A} (a : A) : WM W A := fun w => WRun (Returns a) w [].

Definition wthrow {W A} (e : Exception) : WM W A := fun w => WRun (Throws e) w [].

Definition wdiverge {W A} : WM W A := fun w => WRun Diverges w [].

Definition wbind {W A B} (m : WM W A) (k : A -> WM W B) : WM W B :=
fun w =>
  let r := m w in
  match wresult r with
  | Returns a =>
      let r' := k a (wworld r) in
      WRun (wresult r') (wworld r') (wtrace r ++ wtrace r')
  | Throws e => WRun (Throws e) (wworld r) (wtrace r)
  | Diverges => WRun Diverges (wworld r) (wtrace r)
  end.

(** scope exit, as [finally] *)
Definition wfinally {W A} (body : WM W A) (cleanup : WM W unit) : WM W A :=
fun w =>
  let r := body w in
  match wresult r with
  | Diverges => r
  | _ =>
      let c := cleanup (wworld r) in
      WRun (wresult r) (wworld c) (wtrace r ++ wtrace c)
  end.

Declare Scope win_scope.
Delimit Scope win_scope with win.
Notation "'let*' x ':=' m 'in' k" := (wbind m (fun x => k))
(at level 10, x pattern, m at level 100, k at level 200) : win_scope.
Notation "m ';;;' k" := (wbind m (fun _ => k))
(at level 100, k at level 200, right associativity) : win_scope.

(** The calls of <windows.h>, <filesystem> and <thread> the backend makes.
  A read returns its success, the count and what the buffer holds;
  GetOverlappedResult likewise for the operation it completes.
  [parent_path] and [path_append] are those of std::filesystem::path for
  Windows names. *)
Class Api (W : Type) : Type := {
GetLastError : W -> Z;
WaitNamedPipe : string -> Z -> W -> bool * W;
CreateNamedPipe : string -> W -> Z * W;
CreateFile : string -> W -> Z * W;
WriteFile : Z -> list byte -> W -> bool * W;
ReadFile : Z -> Z -> W -> (bool * Z * list byte) * W;
GetOverlappedResult : Z -> bool -> W -> (bool * Z * list byte) * W;
ConnectNamedPipe : Z -> W -> bool * W;
DisconnectNamedPipe : Z -> W -> bool * W;
CreateEvent : W -> Z * W;
CloseHandle : Z -> W -> bool * W;
FindFirstFileA : string -> W -> (Z * string) * W;
FindNextFileA : Z -> W -> (bool * string) * W;
FindClose : Z -> W -> W;
sleep_for : Z -> W -> W;
parent_path : path -> path;
path_append : path -> path -> path
}.

(** "\\.\pipe" and "\\.\pipe\" as the C++ literals spell them out *)
Definition pipe_directory : string := "\\.\pipe".
Definition pipe_prefix : string := "\\.\pipe\".
Definition pipe_pattern : string := "\\.\pipe\*".
Definition backslash : Ascii.ascii :=
Ascii.Ascii false false true true true false true false.

(** std::string::find(c, pos) as a test: is there a [c] at index [pos] or
  later *)
Fixpoint found_from (c : Ascii.ascii) (pos : nat) (s : string) : bool :=
match s with
| EmptyString => false
| String a s' =>
    match pos with
    | O => if Ascii.eqb a c then true else found_from c O s'
    | S pos' => found_from c pos' s'
    end
end.

(** The test at the head of exists: true when the name cannot be a pipe. *)
Definition not_a_pipe_name (pipeName : string) : bool :=
(String.length pipeName <? 10)%nat
|| negb (String.eqb (String.substring 0 9 pipeName) pipe_prefix)
|| found_from backslash 9 pipeName.

(** pipeName.erase(0, 9) *)
Definition erase_prefix (pipeName : string) : string :=
String.substring 9 (String.length pipeName - 9) pipeName.

(** static_cast< DWORD >(messageSize) *)
Definition DWORD_of_size (messageSize : nat) : nat :=
Z.to_nat (Z.of_nat messageSize mod 2 ^ 32).

(** the budget loops of waitOnAsyncIO run on an interval of 10 ms *)
Definition pendingWaitInterval : Z := 10.

Definition pending_attempts (timeout : Z) : nat :=
Z.to_nat (Z.max 1 (ceil_div timeout pendingWaitInterval)).

Section Backend.
Context {W : Type} `{Api W}.
Local Open Scope win_scope.

Definition last_error : WM W Z := fun w => WRun (Returns (GetLastError w)) w [].

Definition call_WaitNamedPipe (name : string) (ms : Z) : WM W bool := fun w =>
let r := WaitNamedPipe name ms w in
WRun (Returns r.1) r.2 [WaitNamedPipe_ev name ms r.1].

Definition call_CreateNamedPipe (name : string) : WM W Z := fun w =>
let r := CreateNamedPipe name w in
WRun (Returns r.1) r.2 [CreateNamedPipe_ev name r.1].

Definition call_CreateFile (name : string) : WM W Z := fun w =>
let r := CreateFile name w in
WRun (Returns r.1) r.2 [CreateFile_ev name r.1].

Definition call_WriteFile (handle : Z) (bytes : list byte) : WM W bool := fun w =>
let r := WriteFile handle bytes w in
WRun (Returns r.1) r.2 [WriteFile_ev handle bytes r.1].

Definition call_ReadFile (handle count : Z) : WM W (bool * Z * list byte) := fun w =>
let r := ReadFile handle count w in
WRun (Returns r.1) r.2 [ReadFile_ev handle count r.1.1.1 r.1.1.2].

Definition call_GetOverlappedResult (handle : Z) (wait : bool)
: WM W (bool * Z * list byte) := fun w =>
let r := GetOverlappedResult handle wait w in
WRun (Returns r.1) r.2 [GetOverlappedResult_ev handle wait r.1.1.1 r.1.1.2].

Definition call_ConnectNamedPipe (handle : Z) : WM W bool := fun w =>
let r := ConnectNamedPipe handle w in
WRun (Returns r.1) r.2 [ConnectNamedPipe_ev handle r.1].

Definition call_DisconnectNamedPipe (handle : Z) : WM W bool := fun w =>
let r := DisconnectNamedPipe handle w in
WRun (Returns r.1) r.2 [DisconnectNamedPipe_ev handle r.1].

Definition call_CreateEvent : WM W Z := fun w =>
let r := CreateEvent w in
WRun (Returns r.1) r.2 [CreateEvent_ev r.1].

Definition call_CloseHandle (handle : Z) : WM W bool := fun w =>
let r := CloseHandle handle w in
WRun (Returns r.1) r.2 [CloseHandle_ev handle r.1].

Definition call_FindFirstFileA (pattern : string) : WM W (Z * string) := fun w =>
let r := FindFirstFileA pattern w in
WRun (Returns r.1) r.2 [FindFirstFile_ev pattern r.1.1].

Definition call_FindNextFileA (handle : Z) : WM W (bool * string) := fun w =>
let r := FindNextFileA handle w in
WRun (Returns r.1) r.2 [FindNextFile_ev handle r.1.1].

Definition call_FindClose (handle : Z) : WM W unit := fun w =>
WRun (Returns tt) (FindClose handle w) [FindClose_ev handle].

Definition call_sleep (ms : Z) : WM W unit := fun w =>
WRun (Returns tt) (sleep_for ms w) [Sleep_ev ms].

Definition wcerr (msg : string) : WM W unit := fun w =>
WRun (Returns tt) w [Cerr_ev msg].

(** ~FileHandleWrapper for HANDLE, CloseHandle, INVALID_HANDLE_VALUE and
the success code true *)
Definition handle_dtor (m_handle : Z) : WM W unit :=
if negb (m_handle =? INVALID_HANDLE_VALUE) then
let* ok := call_CloseHandle m_handle in
if negb ok then wcerr "Failed at closing guarded handle" else wret tt
else wret tt.

(** waitOnAsyncIO(handle, overlappedPtr, timeout); the timeout is passed
by reference, the result is its value at the return. *)
Fixpoint waitOnAsyncIO (fuel : nat) (handle : Z) (timeout : Z) : WM W Z :=
match fuel with
| O => wdiverge
| S fuel' =>
  let* r := call_GetOverlappedResult handle false in
  let* e := last_error in
  let result := r.1.1 in
  if negb result && (e =? ERROR_IO_INCOMPLETE) then
    if timeout >? pendingWaitInterval then
      call_sleep pendingWaitInterval ;;;
      waitOnAsyncIO fuel' handle (timeout - pendingWaitInterval)
    else wthrow TimeoutException
  else if negb result then wthrow (PipeException e "Waiting for pending IO")
  else wret timeout
end.

(** the name a bare pipe name stands for *)
Definition full_name (pipePath : path) : path :=
if path_empty (parent_path pipePath) then path_append pipe_directory pipePath
else pipePath.

Definition create (pipePath : path) : WM W Windows.NamedPipe :=
let pipePath := full_name pipePath in
let* pipeHandle := call_CreateNamedPipe pipePath in
if pipeHandle =? INVALID_HANDLE_VALUE then
let* e := last_error in wthrow (PipeException e "Create")
else wret (Windows.MkNamedPipe pipePath false pipeHandle).

(** The loop of write that waits for the pipe to be there; the result is
what is left of the timeout. *)
Fixpoint wait_for_pipe (fuel : nat) (name : string) (timeout : Z) : WM W Z :=
match fuel with
| O => wdiverge
| S fuel' =>
  let* ok := call_WaitNamedPipe name 1 in
  if negb ok then
    let* e := last_error in
    if (e =? ERROR_FILE_NOT_FOUND) || (e =? ERROR_SEM_TIMEOUT) then
      if timeout >? PIPE_WRITE_WAIT_INTERVAL then
        call_sleep (PIPE_WRITE_WAIT_INTERVAL - 1) ;;;
        wait_for_pipe fuel' name (timeout - PIPE_WRITE_WAIT_INTERVAL)
      else wthrow TimeoutException
    else wthrow (PipeException e "WaitNamedPipe")
  else wret timeout
end.

Definition write (pipePath : path) (message : list byte) (messageSize : nat)
(timeout : Z) (waitUntilWritten : bool) : WM W unit :=
let pipePath := full_name pipePath in
let* timeout := wait_for_pipe (attempts timeout) pipePath timeout in
let* handle := call_CreateFile pipePath in
wfinally
(if negb (negb (handle =? INVALID_HANDLE_VALUE)) then
   let* e := last_error in wthrow (PipeException e "Open for write")
 else
   let* ok := call_WriteFile handle (take (DWORD_of_size messageSize) message) in
   if negb ok then
     let* e := last_error in
     if e =? ERROR_IO_PENDING then
       if waitUntilWritten then
         waitOnAsyncIO (pending_attempts timeout) handle timeout ;;; wret tt
       else wret tt
     else wthrow (PipeException e "Write")
   else wret tt)
(handle_dtor handle).

(** the end of exists, with the error code of the enumeration *)
Definition enumeration_done (dwErrCode : Z) : WM W bool :=
if negb (dwErrCode =? ERROR_FILE_NOT_FOUND) && negb (dwErrCode =? ERROR_NO_MORE_FILES)
then wthrow (PipeException dwErrCode "CheckExistance")
else wret false.

(** The do-while of exists over the entries FindNextFileA yields. *)
Fixpoint scan_names (fuel : nat) (hFind : Z) (pipeName cFileName : string) : WM W bool :=
match fuel with
| O => wdiverge
| S fuel' =>
  if String.eqb pipeName cFileName then
    call_FindClose hFind ;;; wret true
  else
    let* next := call_FindNextFileA hFind in
    if next.1 then scan_names fuel' hFind pipeName next.2
    else
      let* dwErrCode := last_error in
      call_FindClose hFind ;;;
      enumeration_done dwErrCode
end.

Definition exists_ (fuel : nat) (pipePath : path) : WM W bool :=
let pipeName := pipePath in
if not_a_pipe_name pipeName then wret false
else
let pipeName := erase_prefix pipeName in
let* first := call_FindFirstFileA pipe_pattern in
if first.1 =? INVALID_HANDLE_VALUE then
  let* dwErrCode := last_error in enumeration_done dwErrCode
else scan_names fuel first.1 pipeName first.2.

Definition disconnectAndReconnect (pipeHandle : Z) (disconnectFirst : bool)
(timeout : Z) : WM W Z :=
(if disconnectFirst then
 let* ok := call_DisconnectNamedPipe pipeHandle in
 if negb ok then let* e := last_error in wthrow (PipeException e "Disconnect")
 else wret tt
else wret tt) ;;;
let* ok := call_ConnectNamedPipe pipeHandle in
if negb ok then
let* e := last_error in
if e =? ERROR_IO_PENDING then
  waitOnAsyncIO (pending_attempts timeout) pipeHandle timeout
else if (e =? ERROR_NO_DATA) || (e =? ERROR_PIPE_CONNECTED) then wret timeout
else wthrow (PipeException e "Connect")
else wret timeout.

(** One ReadFile of the loop of read_blocking with the wait for a pending
read: success, count and buffer as the tests after it see them. *)
Definition read_chunk (m_handle : Z) : WM W (bool * Z * list byte) :=
let* r := call_ReadFile m_handle PIPE_BUFFER_SIZE in
let* e := last_error in
if negb r.1.1 && (e =? ERROR_IO_PENDING) then
let* r' := call_GetOverlappedResult m_handle true in
let* e' := last_error in
if negb r'.1.1 && negb (e' =? ERROR_BROKEN_PIPE) then
  wthrow (PipeException e' "Overlapped waiting")
else wret r'
else wret r.

(** The while (true) of read_blocking; [fuel] bounds its unfolding. *)
Fixpoint read_loop (fuel : nat) (m_handle : Z) (timeout : Z) (message : list byte)
: WM W (list byte) :=
match fuel with
| O => wdiverge
| S fuel' =>
  let* r := read_chunk m_handle in
  let success := r.1.1 in
  let readBytes := r.1.2 in
  if negb success && (0 <? length message)%nat then wret message
  else if success then
    let message := message ++ take (Z.to_nat readBytes) r.2 in
    if readBytes <? PIPE_BUFFER_SIZE then wret message
    else read_loop fuel' m_handle timeout message
  else
    let* e := last_error in
    let* timeout :=
      (if e =? ERROR_BROKEN_PIPE then disconnectAndReconnect m_handle true timeout
       else if e =? ERROR_PIPE_LISTENING then wret timeout
       else wthrow (PipeException e "Read")) in
    if timeout >? PIPE_WAIT_INTERVAL then
      call_sleep PIPE_WAIT_INTERVAL ;;;
      read_loop fuel' m_handle (timeout - PIPE_WAIT_INTERVAL) message
    else wthrow TimeoutException
end.

Definition read_blocking (fuel : nat) (this : Windows.NamedPipe) (timeout : Z)
: WM W (list byte) :=
let* eventHandle := call_CreateEvent in
wfinally
(let* timeout := disconnectAndReconnect (Windows.m_handle this) false timeout in
 let* message := read_loop fuel (Windows.m_handle this) timeout [] in
 call_DisconnectNamedPipe (Windows.m_handle this) ;;;
 wret message)
(handle_dtor eventHandle).

End Backend.
End WinIO.

(** ** Reading the traces of the Windows backend *)

Definition is_GetOverlappedResult (e : WinIO.wevent) : bool :=
  match e with WinIO.GetOverlappedResult_ev _ _ _ _ => true | _ => false end.

Definition is_WaitNamedPipe (e : WinIO.wevent) : bool :=
  match e with WinIO.WaitNamedPipe_ev _ _ _ => true | _ => false end.

Definition is_Sleep (e : WinIO.wevent) : bool :=
  match e with WinIO.Sleep_ev _ => true | _ => false end.

Definition is_FindNextFile (e : WinIO.wevent) : bool :=
  match e with WinIO.FindNextFile_ev _ _ => true | _ => false end.

Definition is_DisconnectNamedPipe (e : WinIO.wevent) : bool :=
  match e with WinIO.DisconnectNamedPipe_ev _ _ => true | _ => false end.

Definition is_ReadFile (e : WinIO.wevent) : bool :=
  match e with WinIO.ReadFile_ev _ _ _ _ => true | _ => false end.

Fixpoint wcount (f : WinIO.wevent -> bool) (tr : list WinIO.wevent) : nat :=
  match tr with
  | [] => O
  | e :: tr' => if f e then S (wcount f tr') else wcount f tr'
  end.

(** the handles CloseHandle was called on, in order *)
Fixpoint handles_closed (tr : list WinIO.wevent) : list Z :=
  match tr with
  | [] => []
  | WinIO.CloseHandle_ev h _ :: tr' => h :: handles_closed tr'
  | _ :: tr' => handles_closed tr'
  end.

(** the total of the sleeps of a trace, in ms *)
Fixpoint slept (tr : list WinIO.wevent) : Z :=
  match tr with
  | [] => 0
  | WinIO.Sleep_ev ms :: tr' => ms + slept tr'
  | _ :: tr' => slept tr'
  end.

(** the contexts of the OS errors a Windows call may raise *)
Definition raises_only (contexts : list string) (e : Exception) : Prop :=
  e = TimeoutException \/
  exists code context, e = PipeException code context /\ In context contexts.

(** ** A scripted Windows

    A world that answers every call that can fail from a script, in order:
    [Ok] makes the call succeed with a number (a handle, a count), bytes (a
    buffer) and a name (a directory entry); [Fail] makes it fail and sets the
    last error.  CloseHandle, FindClose and sleeping always succeed. *)
Module Script.

Inductive answer : Type :=
| Ok (number : Z) (bytes : list byte) (name : string)
| Fail (error : Z).

Record script : Type := MkScript {
answers : list answer;
error : Z
}.

Definition next (s : script) : answer * script :=
match answers s with
| [] => (Fail 0, MkScript [] 0)
| Ok n b m :: rest => (Ok n b m, MkScript rest (error s))
| Fail e :: rest => (Fail e, MkScript rest e)
end.

Definition flag (s : script) : bool * script :=
match next s with
| (Ok _ _ _, s') => (true, s')
| (Fail _, s') => (false, s')
end.

Definition handle (s : script) : Z * script :=
match next s with
| (Ok n _ _, s') => (n, s')
| (Fail _, s') => (WinIO.INVALID_HANDLE_VALUE, s')
end.

Definition transfer (s : script) : (bool * Z * list byte) * script :=
match next s with
| (Ok n b _, s') => ((true, n, b), s')
| (Fail _, s') => ((false, 0, []), s')
end.

Definition entry (s : script) : (Z * string) * script :=
match next s with
| (Ok n _ m, s') => ((n, m), s')
| (Fail _, s') => ((WinIO.INVALID_HANDLE_VALUE, EmptyString), s')
end.

Definition next_entry (s : script) : (bool * string) * script :=
match next s with
| (Ok _ _ m, s') => ((true, m), s')
| (Fail _, s') => ((false, EmptyString), s')
end.

(** what is before the last backslash of a name, and the join of two names *)
Fixpoint before_last_backslash (s : string) : string :=
match s with
| EmptyString => EmptyString
| String a s' =>
    if WinIO.found_from WinIO.backslash 0 s' then String a (before_last_backslash s')
    else EmptyString
end.

Definition join (a b : string) : string :=
(a ++ String WinIO.backslash b)%string.

#[global] Instance script_api : WinIO.Api script :=
WinIO.Build_Api script error
  (fun _ _ => flag) (fun _ => handle) (fun _ => handle) (fun _ _ => flag)
  (fun _ _ => transfer) (fun _ _ => transfer) (fun _ => flag) (fun _ => flag)
  handle (fun _ s => (true, s)) (fun _ => entry) (fun _ => next_entry)
  (fun _ s => s) (fun _ s => s) before_last_backslash join.

(** the script of a directory enumeration that yields [names] *)
Definition listing (names : list string) : script :=
match names with
| [] => MkScript [Fail WinIO.ERROR_FILE_NOT_FOUND] 0
| first :: rest =>
    MkScript (Ok 1 [] first :: map (Ok 1 []) rest ++ [Fail WinIO.ERROR_NO_MORE_FILES]) 0
end.

End Script.

(** the handles CreateFile and CreateEvent handed out that a wrapper will
    close: all but INVALID_HANDLE_VALUE *)
Fixpoint handles_guarded (tr : list WinIO.wevent) : list Z :=
  match tr with
  | [] => []
  | WinIO.CreateFile_ev _ h :: tr' | WinIO.CreateEvent_ev h :: tr' =>
      if h =? WinIO.INVALID_HANDLE_VALUE then handles_guarded tr'
      else h :: handles_guarded tr'
  | _ :: tr' => handles_guarded tr'
  end.

(** the search handles FindFirstFileA handed out, and those FindClose was
    called on, in order *)
Fixpoint searches_opened (tr : list WinIO.wevent) : list Z :=
  match tr with
  | [] => []
  | WinIO.FindFirstFile_ev _ h :: tr' =>
      if h =? WinIO.INVALID_HANDLE_VALUE then searches_opened tr'
      else h :: searches_opened tr'
  | _ :: tr' => searches_opened tr'
  end.

Fixpoint searches_closed (tr : list WinIO.wevent) : list Z :=
  match tr with
  | [] => []
  | WinIO.FindClose_ev h :: tr' => h :: searches_closed tr'
  | _ :: tr' => searches_closed tr'
  end.

(** the patterns FindFirstFileA was asked for *)
Fixpoint patterns_searched (tr : list WinIO.wevent) : list string :=
  match tr with
  | [] => []
  | WinIO.FindFirstFile_ev pattern _ :: tr' => pattern :: patterns_searched tr'
  | _ :: tr' => patterns_searched tr'
  end.

(** the entries of a directory listing that come before the first one
    equal to [name] *)
Fixpoint entries_before (name : string) (names : list string) : nat :=
  match names with
  | [] => O
  | entry :: rest => if String.eqb name entry then O else S (entries_before name rest)
  end.

(** destroy() and create() live in one program: the CloseHandle and
    GetLastError destroy() calls are those of the interface of the backend *)
Definition win32_of_api {W : Type} (HW : WinIO.Api W) : Windows.Win32 W :=
  Windows.Build_Win32 W WinIO.CloseHandle WinIO.GetLastError.

(** ** A pipe without a client

    A Windows in which no client ever connects: ConnectNamedPipe succeeds at
    once, every read fails, and the last error is ERROR_PIPE_LISTENING.
    Handles and events are handed out with fixed numbers. *)
Module Idle.

Definition api : WinIO.Api unit :=
WinIO.Build_Api unit (fun _ => WinIO.ERROR_PIPE_LISTENING)
  (fun _ _ w => (false, w)) (fun _ w => (3, w)) (fun _ w => (WinIO.INVALID_HANDLE_VALUE, w))
  (fun _ _ w => (false, w))
  (fun _ _ w => ((false, 0, []), w)) (fun _ _ w => ((false, 0, []), w))
  (fun _ w => (true, w)) (fun _ w => (true, w))
  (fun w => (9, w)) (fun _ w => (true, w))
  (fun _ w => ((WinIO.INVALID_HANDLE_VALUE, EmptyString), w))
  (fun _ w => ((false, EmptyString), w))
  (fun _ w => w) (fun _ w => w) (fun p => EmptyString) (fun a b => (a ++ b)%string).

End Idle.

(** * Properties *)

(** ** Traces *)

Lemma count_app f (tr1 tr2 : list event) :
  count f (tr1 ++ tr2) = (count f tr1 + count f tr2)%nat.
Proof.
  induction tr1 as [|e tr1 IH]; simpl; [reflexivity|].
  destruct (f e); simpl; rewrite IH; reflexivity.
Qed.

Lemma count_retries_open k p flags : count is_open (retries k p flags) = k.
Proof. induction k; simpl; congruence. Qed.

Lemma count_retries_sleep k p flags : count is_sleep (retries k p flags) = k.
Proof. induction k; simpl; congruence. Qed.


Lemma count_idle_polls pollin (tr : list event) :
  Forall (idle_poll pollin) tr -> count is_poll tr = length tr.
Proof.
  induction 1 as [|e tr He _ IH]; simpl; [reflexivity|].
  destruct e; simpl in He; try contradiction. simpl. congruence.
Qed.

Lemma attempts_pos timeout : (1 <= attempts timeout)%nat.
Proof. unfold attempts. lia. Qed.

Lemma attempts_step timeout :
  1 < timeout -> attempts timeout = S (attempts (timeout - 1)).
Proof. unfold attempts. lia. Qed.

Lemma attempts_last timeout : timeout <= 1 -> attempts timeout = 1%nat.
Proof. unfold attempts. lia. Qed.

(** ** The open loop of write *)

Section WriteFacts.
Context {W : Type} `{Posix W}.

Lemma open_retry_unfold fuel p timeout (w : W) :
  open_retry (S fuel) p timeout w =
  let o := sys_open p wr_flags w in
  if o.1 =? -1 then
    if timeout >? 1 then
      let r := open_retry fuel p (timeout - 1) (sleep_for 1 o.2) in
      Run (result r) (world r)
          (EvOpen p wr_flags o.1 :: EvSleep 1 :: trace r)
    else Run (Throws TimeoutException) o.2 [EvOpen p wr_flags o.1]
  else Run (Returns (o.1, timeout)) o.2 [EvOpen p wr_flags o.1].
Proof.
  simpl. unfold bind, call_open, call_sleep, handle_valid, invalid_handle,
    PIPE_WRITE_WAIT_INTERVAL, wr_flags. simpl.
  destruct (_ =? -1); simpl; [|reflexivity].
  destruct (timeout >? 1); simpl; reflexivity.
Qed.

(** What a run of the open loop looks like: [k] failed attempts with
    their sleeps, then either an open that succeeds or the failed attempt
    on which the budget is found exhausted. *)
Lemma open_retry_spec fuel p timeout (w : W) :
  (attempts timeout <= fuel)%nat ->
  let r := open_retry fuel p timeout w in
  exists k : nat,
    (k < attempts timeout)%nat /\
    ((exists fd, fd <> -1 /\
        result r = Returns (fd, timeout - Z.of_nat k * PIPE_WRITE_WAIT_INTERVAL) /\
        trace r = retries k p wr_flags ++ [EvOpen p wr_flags fd]) \/
     (result r = Throws TimeoutException /\ S k = attempts timeout /\
        trace r = retries k p wr_flags ++ [EvOpen p wr_flags (-1)])).
Proof.
  revert timeout w. induction fuel as [|fuel IH]; intros timeout w Hfuel.
  { pose proof (attempts_pos timeout). lia. }
  cbv zeta. rewrite open_retry_unfold. cbv zeta.
  destruct (Z.eqb_spec (sys_open p wr_flags w).1 (-1)) as [Hfd|Hfd].
  - destruct (Z.gtb_spec timeout 1) as [Hgt|Hle].
    + rewrite (attempts_step timeout) in * by lia.
      destruct (IH (timeout - 1) (sleep_for 1 (sys_open p wr_flags w).2)) as (k & Hk & Hcase);
        [lia|].
      exists (S k). split; [lia|]. simpl. rewrite Hfd.
      unfold PIPE_WRITE_WAIT_INTERVAL in *.
      destruct Hcase as [(fd & Hne & Hres & Htr)|(Hres & Hk' & Htr)].
      * left. exists fd. rewrite Hres, Htr. repeat split; try assumption.
        do 2 f_equal. lia.
      * right. rewrite Hres, Htr. repeat split; try reflexivity. lia.
    + exists O. split; [pose proof (attempts_pos timeout); lia|].
      right. simpl. rewrite Hfd. rewrite attempts_last by lia. auto.
  - exists O. split; [pose proof (attempts_pos timeout); lia|].
    left. exists (sys_open p wr_flags w).1. simpl.
    unfold PIPE_WRITE_WAIT_INTERVAL. repeat split; try assumption.
    do 2 f_equal. lia.
Qed.
End WriteFacts.

(** ** The monad *)

Section MonadFacts.
Context {W : Type}.

Lemma bind_returns {A B} (m : M W A) (k : A -> M W B) (w : W) a :
  result (m w) = Returns a ->
  bind m k w =
  Run (result (k a (world (m w)))) (world (k a (world (m w))))
      (trace (m w) ++ trace (k a (world (m w)))).
Proof. intros Hm. unfold bind. rewrite Hm. reflexivity. Qed.

Lemma bind_throws {A B} (m : M W A) (k : A -> M W B) (w : W) e :
  result (m w) = Throws e ->
  bind m k w = Run (Throws e) (world (m w)) (trace (m w)).
Proof. intros Hm. unfold bind. rewrite Hm. reflexivity. Qed.

Lemma bind_diverges {A B} (m : M W A) (k : A -> M W B) (w : W) :
  result (m w) = Diverges ->
  bind m k w = Run Diverges (world (m w)) (trace (m w)).
Proof. intros Hm. unfold bind. rewrite Hm. reflexivity. Qed.

Lemma finally_result {A} (body : M W A) (cleanup : M W unit) (w : W) :
  result (finally body cleanup w) = result (body w).
Proof. unfold finally. destruct (result (body w)) eqn:E; simpl; auto. Qed.

Lemma finally_done {A} (body : M W A) (cleanup : M W unit) (w : W) :
  result (body w) <> Diverges ->
  finally body cleanup w =
  Run (result (body w)) (world (cleanup (world (body w))))
      (trace (body w) ++ trace (cleanup (world (body w)))).
Proof. intros Hb. unfold finally. destruct (result (body w)); congruence. Qed.
End MonadFacts.

(** ** write *)

Section WriteRun.
Context {W : Type} `{Posix W}.

Lemma dtor_trace fd (w : W) :
  fd <> -1 ->
  trace (FileHandleWrapper_dtor fd w) =
  EvClose fd (sys_close fd w).1 ::
    (if (sys_close fd w).1 =? 0 then []
     else [EvCerr "Failed at closing guarded handle" None]).
Proof.
  intros Hfd. unfold FileHandleWrapper_dtor, invalid_handle, successCode.
  destruct (Z.eqb_spec fd (-1)); [contradiction|]. simpl.
  unfold bind, call_close. simpl.
  destruct (_ =? 0); reflexivity.
Qed.

Lemma dtor_result fd (w : W) : result (FileHandleWrapper_dtor fd w) = Returns tt.
Proof.
  unfold FileHandleWrapper_dtor, invalid_handle, successCode.
  destruct (fd =? -1); simpl; [reflexivity|].
  unfold bind, call_close. simpl. destruct (_ =? 0); reflexivity.
Qed.

Lemma dtor_counts fd (w : W) :
  count is_open (trace (FileHandleWrapper_dtor fd w)) = O /\
  count is_write (trace (FileHandleWrapper_dtor fd w)) = O /\
  count is_sleep (trace (FileHandleWrapper_dtor fd w)) = O /\
  count is_poll (trace (FileHandleWrapper_dtor fd w)) = O.
Proof.
  unfold FileHandleWrapper_dtor, invalid_handle, successCode.
  destruct (fd =? -1); simpl; [auto|].
  unfold bind, call_close. simpl. destruct (_ =? 0); simpl; auto.
Qed.

(** write once its open loop has returned a handle. *)
Lemma write_after_open p message messageSize timeout (w : W) fd t :
  let o := open_retry (attempts timeout) p timeout w in
  let wr := sys_write fd (take messageSize message) (world o) in
  let c := FileHandleWrapper_dtor fd wr.2 in
  result o = Returns (fd, t) ->
  write p message messageSize timeout w =
  Run (if wr.1 <? 0 then Throws (PipeException (errno wr.2) "Write") else Returns tt)
      (world c)
      (trace o ++ EvWrite fd (take messageSize message) wr.1 :: trace c).
Proof.
  intros o wr c Ho. unfold write.
  rewrite (bind_returns _ _ _ _ Ho). fold o. cbn [fst].
  assert (Hbody :
    (let* r := call_write fd (take messageSize message) in
     if r <? 0 then let* e := get_errno in throw (PipeException e "Write")
     else ret tt) (world o) =
    Run (if wr.1 <? 0 then Throws (PipeException (errno wr.2) "Write") else Returns tt)
        wr.2 [EvWrite fd (take messageSize message) wr.1]).
  { unfold bind, call_write, get_errno, throw, ret. simpl. fold wr.
    destruct (wr.1 <? 0); reflexivity. }
  rewrite finally_done; rewrite Hbody; simpl.
  - reflexivity.
  - destruct (wr.1 <? 0); congruence.
Qed.

(** write when its open loop ran out of budget. *)
Lemma write_no_open p message messageSize timeout (w : W) e :
  let o := open_retry (attempts timeout) p timeout w in
  result o = Throws e ->
  write p message messageSize timeout w = Run (Throws e) (world o) (trace o).
Proof. intros o Ho. unfold write. rewrite (bind_throws _ _ _ _ Ho). reflexivity. Qed.

(** While nothing can be opened at [p], the open loop ends in a timeout
    after as many attempts as the budget allows. *)
Lemma open_retry_blocked (Inv : W -> Prop) p fuel timeout (w : W) :
  (forall w', Inv w' ->
     (sys_open p wr_flags w').1 = -1 /\
     Inv (sleep_for PIPE_WRITE_WAIT_INTERVAL (sys_open p wr_flags w').2)) ->
  Inv w ->
  (attempts timeout <= fuel)%nat ->
  result (open_retry fuel p timeout w) = Throws TimeoutException /\
  trace (open_retry fuel p timeout w) =
    retries (pred (attempts timeout)) p wr_flags ++ [EvOpen p wr_flags (-1)].
Proof.
  intros Hstep. revert timeout w.
  induction fuel as [|fuel IH]; intros timeout w Hw Hfuel.
  { pose proof (attempts_pos timeout). lia. }
  rewrite open_retry_unfold. cbv zeta.
  destruct (Hstep w Hw) as [Hfail Hnext]. rewrite Hfail. simpl.
  destruct (Z.gtb_spec timeout 1) as [Hgt|Hle].
  - rewrite (attempts_step timeout) in * by lia.
    destruct (IH (timeout - 1) _ Hnext) as [Hres Htr]; [lia|].
    simpl. unfold PIPE_WRITE_WAIT_INTERVAL in *. rewrite Hres, Htr.
    split; [reflexivity|].
    pose proof (attempts_pos (timeout - 1)).
    destruct (attempts (timeout - 1)); [lia|reflexivity].
  - rewrite attempts_last by lia. simpl. auto.
Qed.
End WriteRun.

(** ** read_blocking *)

Section ReadRun.
Context {W : Type} `{Posix W}.

Lemma wait_readable_unfold fuel this pd timeout (w : W) :
  wait_readable (S fuel) this pd timeout w =
  let q := sys_poll pd PIPE_WAIT_INTERVAL w in
  if negb (q.1.1 =? -1) && (Z.land q.1.2 POLLIN =? 0) then
    if m_break this || concurrent_interrupt q.2 then
      Run (Throws InterruptException) q.2 [EvPoll (pfd pd) (events pd) PIPE_WAIT_INTERVAL q.1.1 q.1.2]
    else if timeout >? PIPE_WAIT_INTERVAL then
      let r := wait_readable fuel this (Pollfd (pfd pd) (events pd) q.1.2)
                             (timeout - PIPE_WAIT_INTERVAL) q.2 in
      Run (result r) (world r) (EvPoll (pfd pd) (events pd) PIPE_WAIT_INTERVAL q.1.1 q.1.2 :: trace r)
    else Run (Throws TimeoutException) q.2 [EvPoll (pfd pd) (events pd) PIPE_WAIT_INTERVAL q.1.1 q.1.2]
  else Run (Returns timeout) q.2 [EvPoll (pfd pd) (events pd) PIPE_WAIT_INTERVAL q.1.1 q.1.2].
Proof.
  simpl. unfold bind, call_poll, load_break. simpl.
  destruct (negb _ && _); simpl; [|reflexivity].
  destruct (m_break this || _); simpl; [reflexivity|].
  destruct (timeout >? PIPE_WAIT_INTERVAL); simpl; reflexivity.
Qed.

(** What a run of the readiness loop looks like: polls that let it go
    on, then one last poll on which it leaves, is interrupted, or finds the
    budget exhausted. *)
Lemma wait_readable_spec fuel this pd timeout (w : W) :
  (attempts timeout <= fuel)%nat ->
  let r := wait_readable fuel this pd timeout w in
  exists (idle : list event) (last : event),
    trace r = idle ++ [last] /\
    Forall (idle_poll POLLIN) idle /\
    is_poll last = true /\
    (length idle < attempts timeout)%nat /\
    ((result r = Returns (timeout - Z.of_nat (length idle) * PIPE_WAIT_INTERVAL) /\
        ~ idle_poll POLLIN last) \/
     (result r = Throws InterruptException /\ idle_poll POLLIN last) \/
     (result r = Throws TimeoutException /\ idle_poll POLLIN last /\
        S (length idle) = attempts timeout)).
Proof.
  revert pd timeout w. induction fuel as [|fuel IH]; intros pd timeout w Hfuel.
  { pose proof (attempts_pos timeout). lia. }
  cbv zeta. rewrite wait_readable_unfold. cbv zeta.
  set (q := sys_poll pd PIPE_WAIT_INTERVAL w).
  pose proof (attempts_pos timeout) as Hpos.
  destruct (Z.eqb_spec q.1.1 (-1)) as [Hr|Hr]; simpl.
  { exists [], (EvPoll (pfd pd) (events pd) PIPE_WAIT_INTERVAL q.1.1 q.1.2). simpl.
    split; [reflexivity|]. split; [constructor|]. split; [reflexivity|].
    split; [lia|].
    left. split; [do 2 f_equal; lia|]. intros (_ & Hne & _). contradiction. }
  destruct (Z.eqb_spec (Z.land q.1.2 POLLIN) 0) as [Hin|Hin]; simpl.
  2:{ exists [], (EvPoll (pfd pd) (events pd) PIPE_WAIT_INTERVAL q.1.1 q.1.2). simpl.
      split; [reflexivity|]. split; [constructor|]. split; [reflexivity|].
      split; [lia|].
      left. split; [do 2 f_equal; lia|]. intros (_ & _ & Hz). contradiction. }
  assert (Hidle : idle_poll POLLIN (EvPoll (pfd pd) (events pd) PIPE_WAIT_INTERVAL q.1.1 q.1.2)) by (simpl; auto).
  destruct (m_break this || concurrent_interrupt q.2); simpl.
  { exists [], (EvPoll (pfd pd) (events pd) PIPE_WAIT_INTERVAL q.1.1 q.1.2). simpl.
    split; [reflexivity|]. split; [constructor|]. split; [reflexivity|].
    split; [lia|]. right. left. auto. }
  unfold PIPE_WAIT_INTERVAL in *.
  destruct (Z.gtb_spec timeout 1) as [Hgt|Hle]; simpl.
  - rewrite (attempts_step timeout) in * by lia.
    destruct (IH (Pollfd (pfd pd) (events pd) q.1.2) (timeout - 1) q.2)
      as (idle & last & Htr & Hall & Hlast & Hlen & Hcase); [lia|].
    exists (EvPoll (pfd pd) (events pd) PIPE_WAIT_INTERVAL q.1.1 q.1.2 :: idle), last. simpl. rewrite Htr.
    split; [reflexivity|]. split; [constructor; assumption|].
    split; [assumption|]. split; [lia|].
    destruct Hcase as [[Hres Hl]|[[Hres Hl]|(Hres & Hl & Hn)]].
    + left. split; [|assumption]. rewrite Hres. f_equal. lia.
    + right. left. auto.
    + right. right. rewrite Hn. auto.
  - exists [], (EvPoll (pfd pd) (events pd) PIPE_WAIT_INTERVAL q.1.1 q.1.2). simpl. rewrite attempts_last by lia.
    split; [reflexivity|]. split; [constructor|]. split; [reflexivity|].
    split; [lia|]. right. right. auto.
Qed.

Lemma wait_readable_terminates fuel this pd timeout (w : W) :
  (attempts timeout <= fuel)%nat ->
  result (wait_readable fuel this pd timeout w) <> Diverges.
Proof.
  intros Hfuel.
  destruct (wait_readable_spec fuel this pd timeout w Hfuel)
    as (idle & last & _ & _ & _ & _ & [[Hr _]|[[Hr _]|(Hr & _)]]);
    rewrite Hr; discriminate.
Qed.

Lemma wait_readable_polls fuel this pd timeout (w : W) :
  (attempts timeout <= fuel)%nat ->
  (count is_poll (trace (wait_readable fuel this pd timeout w)) <= attempts timeout)%nat.
Proof.
  intros Hfuel.
  destruct (wait_readable_spec fuel this pd timeout w Hfuel)
    as (idle & last & Htr & Hall & Hlast & Hlen & _).
  rewrite Htr, count_app, (count_idle_polls _ _ Hall). simpl. rewrite Hlast. lia.
Qed.

(** While the pipe never becomes readable and nobody interrupts, the
    readiness loop ends in a timeout after as many polls as the budget
    allows. *)
Lemma wait_readable_starved (Inv : W -> Prop) this fd fuel timeout rev (w : W) :
  (forall w' rev', Inv w' ->
     let q := sys_poll (Pollfd fd POLLIN rev') PIPE_WAIT_INTERVAL w' in
     q.1.1 <> -1 /\ Z.land q.1.2 POLLIN = 0 /\
     concurrent_interrupt q.2 = false /\ Inv q.2) ->
  m_break this = false ->
  Inv w ->
  (attempts timeout <= fuel)%nat ->
  result (wait_readable fuel this (Pollfd fd POLLIN rev) timeout w)
    = Throws TimeoutException /\
  count is_poll (trace (wait_readable fuel this (Pollfd fd POLLIN rev) timeout w))
    = attempts timeout.
Proof.
  intros Hstep Hbrk. revert timeout rev w.
  induction fuel as [|fuel IH]; intros timeout rev w Hw Hfuel.
  { pose proof (attempts_pos timeout). lia. }
  rewrite wait_readable_unfold. cbv zeta.
  destruct (Hstep w rev Hw) as (Hr & Hin & Hci & Hnext).
  destruct (Z.eqb_spec (sys_poll (Pollfd fd POLLIN rev) PIPE_WAIT_INTERVAL w).1.1 (-1));
    [contradiction|].
  rewrite Hin, Hbrk, Hci. simpl.
  unfold PIPE_WAIT_INTERVAL in *.
  destruct (Z.gtb_spec timeout 1) as [Hgt|Hle]; simpl.
  - rewrite (attempts_step timeout) in * by lia.
    cbn [pfd events].
    destruct (IH (timeout - 1)
                (sys_poll (Pollfd fd POLLIN rev) 1 w).1.2
                (sys_poll (Pollfd fd POLLIN rev) 1 w).2 Hnext) as [Hres Hcnt]; [lia|].
    rewrite Hres, Hcnt. auto.
  - rewrite attempts_last by lia. auto.
Qed.

Lemma drain_unfold fuel handle message (w : W) :
  drain (S fuel) handle message w =
  let r := sys_read handle PIPE_BUFFER_SIZE w in
  let ev := EvRead handle PIPE_BUFFER_SIZE r.1.1 in
  if r.1.1 >? 0 then
    let d := drain fuel handle (message ++ take (Z.to_nat r.1.1) r.1.2) r.2 in
    Run (result d) (world d) (ev :: trace d)
  else if (r.1.1 =? -1) && negb (errno r.2 =? EAGAIN) then
    Run (Throws (PipeException (errno r.2) "Read")) r.2 [ev]
  else Run (Returns message) r.2 [ev].
Proof.
  simpl. unfold bind, call_read, get_errno. simpl.
  destruct (_ >? 0); simpl; [reflexivity|].
  destruct (_ && _); simpl; reflexivity.
Qed.

(** An exception of the read loop is an OS error with context "Read"
    whose code is not EAGAIN. *)
Lemma drain_throws fuel handle message (w : W) e :
  result (drain fuel handle message w) = Throws e ->
  exists code, e = PipeException code "Read" /\ code <> EAGAIN.
Proof.
  revert message w. induction fuel as [|fuel IH]; intros message w; [discriminate|].
  rewrite drain_unfold. cbv zeta.
  destruct (_ >? 0); simpl; [apply IH|].
  destruct (_ =? -1); simpl; [|discriminate].
  destruct (Z.eqb_spec (errno (sys_read handle PIPE_BUFFER_SIZE w).2) EAGAIN);
    simpl; [discriminate|].
  intros [= <-]. eauto.
Qed.

Lemma drain_polls fuel handle message (w : W) :
  count is_poll (trace (drain fuel handle message w)) = O.
Proof.
  revert message w. induction fuel as [|fuel IH]; intros message w; [reflexivity|].
  rewrite drain_unfold. cbv zeta.
  destruct (_ >? 0); simpl; [apply IH|].
  destruct (_ && _); reflexivity.
Qed.

Lemma read_blocking_unfold fuel this timeout (w : W) :
  read_blocking fuel this timeout w =
  let o := sys_open (m_pipePath this) rd_flags w in
  let ev := EvOpen (m_pipePath this) rd_flags o.1 in
  if o.1 =? -1 then
    Run (Throws (PipeException (errno o.2) "Open")) o.2 [ev]
  else
    let b := (wait_readable (attempts timeout) this (Pollfd o.1 POLLIN (-1)) timeout ;;;
             drain fuel o.1 []) o.2 in
    match result b with
    | Diverges => Run Diverges (world b) (ev :: trace b)
    | res =>
        let c := FileHandleWrapper_dtor o.1 (world b) in
        Run res (world c) (ev :: trace b ++ trace c)
    end.
Proof.
  unfold read_blocking. unfold bind at 1. unfold call_open, finally.
  cbn [result world trace fst snd app]. cbv zeta.
  destruct ((sys_open (m_pipePath this) rd_flags w).1 =? -1) eqn:E.
  - unfold bind, get_errno, throw, ret, FileHandleWrapper_dtor, invalid_handle.
    rewrite E. simpl. reflexivity.
  - set (b := bind (wait_readable _ _ _ _) _ _).
    destruct (result b) eqn:Eb; cbn [result world trace]; rewrite ?Eb; reflexivity.
Qed.
End ReadRun.

(** ** The write events of a run *)

Section WriteEvents.
Context {W : Type} `{Posix W}.

Lemma writes_retries k p flags : List.filter is_write (retries k p flags) = [].
Proof. induction k; simpl; auto. Qed.

Lemma sleeps_retries k p flags ms :
  In (EvSleep ms) (retries k p flags) -> ms = PIPE_WRITE_WAIT_INTERVAL.
Proof.
  induction k as [|k IH]; simpl; [contradiction|].
  intros [Hd|[Hd|Hin]]; [discriminate|congruence|auto].
Qed.

Lemma writes_dtor fd (w : W) :
  List.filter is_write (trace (FileHandleWrapper_dtor fd w)) = [].
Proof.
  unfold FileHandleWrapper_dtor, invalid_handle, successCode.
  destruct (fd =? -1); simpl; [reflexivity|].
  unfold bind, call_close. simpl. destruct (_ =? 0); reflexivity.
Qed.

Lemma writes_open_retry p timeout (w : W) :
  List.filter is_write (trace (open_retry (attempts timeout) p timeout w)) = [].
Proof.
  destruct (open_retry_spec (attempts timeout) p timeout w (le_n _))
    as (k & _ & [(fd & _ & _ & Htr)|(_ & _ & Htr)]);
    rewrite Htr, List.filter_app, writes_retries; reflexivity.
Qed.

Lemma write_events p message messageSize timeout (w : W) fd t :
  let o := open_retry (attempts timeout) p timeout w in
  let wr := sys_write fd (take messageSize message) (world o) in
  result o = Returns (fd, t) ->
  List.filter is_write (trace (write p message messageSize timeout w)) =
    [EvWrite fd (take messageSize message) wr.1].
Proof.
  intros o wr Ho. rewrite (write_after_open _ _ _ _ _ _ _ Ho). cbn [trace].
  rewrite List.filter_app. fold o. unfold o at 1. rewrite writes_open_retry.
  simpl. rewrite writes_dtor. reflexivity.
Qed.

Lemma write_terminates p message messageSize timeout (w : W) :
  result (write p message messageSize timeout w) <> Diverges.
Proof.
  destruct (open_retry_spec (attempts timeout) p timeout w (le_n _))
    as (k & _ & [(fd & _ & Hres & _)|(Hres & _ & _)]).
  - rewrite (write_after_open _ _ _ _ _ _ _ Hres). simpl.
    destruct (_ <? 0); discriminate.
  - rewrite (write_no_open _ _ _ _ _ _ Hres). discriminate.
Qed.

Lemma write_opens p message messageSize timeout (w : W) :
  count is_open (trace (write p message messageSize timeout w)) =
  count is_open (trace (open_retry (attempts timeout) p timeout w)).
Proof.
  destruct (result (open_retry (attempts timeout) p timeout w)) as [[fd t]|e|] eqn:Ho.
  - rewrite (write_after_open _ _ _ _ _ _ _ Ho). cbn [trace].
    rewrite count_app. simpl.
    destruct (dtor_counts fd
      (sys_write fd (take messageSize message)
         (world (open_retry (attempts timeout) p timeout w))).2) as (-> & _).
    lia.
  - rewrite (write_no_open _ _ _ _ _ _ Ho). reflexivity.
  - destruct (open_retry_spec (attempts timeout) p timeout w (le_n _))
      as (k & _ & [(fd & _ & Hres & _)|(Hres & _ & _)]); congruence.
Qed.

Lemma attempts_ceil timeout :
  attempts timeout = Z.to_nat (Z.max 1 (ceil_div timeout PIPE_WAIT_INTERVAL)).
Proof.
  unfold attempts, ceil_div, PIPE_WAIT_INTERVAL.
  replace (timeout + 1 - 1) with timeout by lia. rewrite Z.div_1_r. reflexivity.
Qed.

Lemma wait_readable_intervals fuel this pd timeout (w : W) e :
  In e (trace (wait_readable fuel this pd timeout w)) ->
  exists fd ev r rev, e = EvPoll fd ev PIPE_WAIT_INTERVAL r rev.
Proof.
  revert pd timeout w. induction fuel as [|fuel IH]; intros pd timeout w; [contradiction|].
  rewrite wait_readable_unfold. cbv zeta.
  destruct (negb _ && _); simpl.
  - destruct (m_break this || _); simpl.
    + intros [<-|[]]; eauto.
    + destruct (timeout >? PIPE_WAIT_INTERVAL); simpl.
      * intros [<-|Hin]; eauto.
      * intros [<-|[]]; eauto.
  - intros [<-|[]]; eauto.
Qed.

Lemma read_blocking_polls fuel this timeout (w : W) :
  (count is_poll (trace (read_blocking fuel this timeout w)) <= attempts timeout)%nat.
Proof.
  rewrite read_blocking_unfold. cbv zeta.
  destruct (_ =? -1); [simpl; lia|].
  set (o := sys_open (m_pipePath this) rd_flags w).
  set (wt := wait_readable (attempts timeout) this (Pollfd o.1 POLLIN (-1)) timeout o.2).
  pose proof (wait_readable_polls (attempts timeout) this (Pollfd o.1 POLLIN (-1))
                timeout o.2 (le_n _)) as Hpolls. fold wt in Hpolls.
  assert (Hb : (count is_poll
            (trace (bind (wait_readable (attempts timeout) this
                            (Pollfd o.1 POLLIN (-1)) timeout)
                         (fun _ => drain fuel o.1 []) o.2)) <= attempts timeout)%nat).
  { unfold bind. fold wt. destruct (result wt); cbn [trace]; try assumption.
    rewrite count_app, drain_polls. lia. }
  destruct (result _); cbn [trace count is_open is_poll];
    rewrite ?count_app;
    try (destruct (dtor_counts o.1
           (world (bind (wait_readable (attempts timeout) this
                            (Pollfd o.1 POLLIN (-1)) timeout)
                         (fun _ => drain fuel o.1 []) o.2))) as (_ & _ & _ & ->));
    lia.
Qed.
End WriteEvents.

(** ** The object: validity, interrupt, moves, destroy *)

(** C9: isValid() (operator bool) is true exactly when the path is not
    empty; getPath() is the empty path exactly when the object is invalid,
    and it is empty for an object that has been moved from (by either move)
    or destroyed. *)
Theorem isValid_iff_path_nonempty :
  forall this : NamedPipe,
    (isValid this = true <-> m_pipePath this <> EmptyString) /\
    (getPath this = EmptyString <-> isValid this = false) /\
    getPath (move_construct this).2 = EmptyString /\
    (forall target, getPath (move_assign target this).2 = EmptyString) /\
    getPath NamedPipe_default = EmptyString.
Proof.
  intros [p b]. unfold isValid, getPath. simpl.
  destruct p; simpl; repeat split; intros; try congruence; auto.
Qed.

Lemma isValid_iff_path_nonempty_witness :
  isValid (NamedPipe_of_path "ioTestPipe") = true /\
  isValid (move_construct (NamedPipe_of_path "ioTestPipe")).2 = false.
Proof.
  split.
  - apply (proj1 (isValid_iff_path_nonempty (NamedPipe_of_path "ioTestPipe"))).
    simpl. discriminate.
  - apply (proj1 (proj2 (isValid_iff_path_nonempty
                           (move_construct (NamedPipe_of_path "ioTestPipe")).2))).
    reflexivity.
Defined.

(** C8: interrupt() is a total function of the object (it has no way to
    raise); it sets m_break and leaves the path alone, and calling it any
    positive number of times leaves the object as one call does. *)
Theorem interrupt_idempotent :
  forall (this : NamedPipe) (n : nat),
    interrupt_times (S n) this = interrupt this /\
    interrupt (interrupt this) = interrupt this /\
    m_break (interrupt this) = true /\
    m_pipePath (interrupt this) = m_pipePath this.
Proof.
  intros this n. repeat split.
  induction n as [|n IH]; [reflexivity|].
  change (interrupt (interrupt_times (S n) this) = interrupt this).
  rewrite IH. reflexivity.
Qed.

(** C6 as stated fails: the source of a move keeps a set interrupt flag
    with both POSIX moves, and the Windows move assignment sets the flag of
    a source whose flag was clear. *)
Lemma move_does_not_clear_flag :
  let other := MkNamedPipe "ioTestPipe" true in
  m_break (move_construct other).2 <> false /\
  m_break (move_assign NamedPipe_default other).2 <> false /\
  Windows.m_break
    (Windows.move_assign (Windows.MkNamedPipe EmptyString false (-1))
                         (Windows.MkNamedPipe "\\.\pipe\ioTestPipe" false 7)).2 <> false.
Proof. simpl. repeat split; discriminate. Qed.

(** C6, amended: a move hands the path (on Windows also the handle) to
    the destination and leaves the source with the empty path, so the source
    is invalid and its getPath() is empty.  The source's interrupt flag is
    not cleared: the POSIX moves and the Windows move constructor leave it
    as it was, the Windows move assignment sets it.  The destination's flag
    is the default (false) after a move construction, unchanged after the
    POSIX move assignment, and the source's after the Windows one. *)
Theorem move_transfers_path :
  (forall other : NamedPipe,
     let (target, source) := move_construct other in
     m_pipePath target = m_pipePath other /\ m_break target = false /\
     getPath source = EmptyString /\ isValid source = false /\
     m_break source = m_break other) /\
  (forall this other : NamedPipe,
     let (target, source) := move_assign this other in
     m_pipePath target = m_pipePath other /\ m_break target = m_break this /\
     getPath source = EmptyString /\ isValid source = false /\
     m_break source = m_break other) /\
  (forall other : Windows.NamedPipe,
     let (target, source) := Windows.move_construct other in
     Windows.m_pipePath target = Windows.m_pipePath other /\
     Windows.m_handle target = Windows.m_handle other /\
     Windows.m_break target = false /\
     Windows.getPath source = EmptyString /\ Windows.isValid source = false /\
     Windows.m_handle source = Windows.INVALID_HANDLE_VALUE /\
     Windows.m_break source = Windows.m_break other) /\
  (forall this other : Windows.NamedPipe,
     let (target, source) := Windows.move_assign this other in
     Windows.m_pipePath target = Windows.m_pipePath other /\
     Windows.m_handle target = Windows.m_handle other /\
     Windows.m_break target = Windows.m_break other /\
     Windows.getPath source = EmptyString /\ Windows.isValid source = false /\
     Windows.m_handle source = Windows.INVALID_HANDLE_VALUE /\
     Windows.m_break source = true).
Proof. repeat split. Qed.

(** C5: destroy() stores true into m_break, then (for a valid object)
    removes the path it still holds, a failure going to std::cerr only, then
    clears the path.  It always returns, with an invalid object; called
    again, on that object and in any state of the world, it stores true once
    more and does nothing else: no call into the operating system, the
    object and the world as they were.  The destructor is destroy(). *)
Theorem destroy_releases_once :
  forall (W : Type) (HW : Posix W) (this : NamedPipe) (w : W),
    let r := destroy this w in
    let gone := MkNamedPipe EmptyString true in
    result r = Returns gone /\
    isValid gone = false /\
    trace r =
      EvStoreBreak true ::
        (if isValid this then
           let rm := fs_remove (m_pipePath this) w in
           EvRemove (m_pipePath this) rm.1 ::
             (if rm.1 =? 0 then []
              else [EvCerr "Failed at deleting pipe-object: " (Some rm.1)])
         else []) /\
    world r = (if isValid this then (fs_remove (m_pipePath this) w).2 else w) /\
    (forall w' : W,
       destroy gone w' = Run (Returns gone) w' [EvStoreBreak true] /\
       NamedPipe_dtor gone w' = Run (Returns gone) w' [EvStoreBreak true] /\
       count is_os_action (trace (destroy gone w')) = O).
Proof.
  intros W HW [p b] w. unfold isValid, NamedPipe_dtor, destroy. simpl.
  destruct p as [|c p]; simpl.
  - repeat split.
  - unfold bind, store_event, call_remove, cerr, ret. simpl.
    destruct (Z.eqb_spec (fs_remove (String c p) w).1 0); simpl; repeat split.
Qed.

(** The Windows destroy() has the same shape: the store, then CloseHandle
    on the retained handle of a valid object, then the path and the handle
    are cleared; a second call only repeats the store. *)
Lemma Windows_destroy_releases_once :
  forall (W : Type) (HW : Windows.Win32 W) (this : Windows.NamedPipe) (w : W),
    let r := Windows.destroy this w in
    let ok := (Windows.CloseHandle (Windows.m_handle this) w).1 in
    result r =
      Returns (Windows.MkNamedPipe EmptyString true
                 (if Windows.isValid this then Windows.INVALID_HANDLE_VALUE
                  else Windows.m_handle this)) /\
    (Windows.isValid this = true ->
     exists diagnostics,
       trace r = EvStoreBreak true :: EvCloseHandle (Windows.m_handle this) ok :: diagnostics /\
       count is_os_action diagnostics = O) /\
    (forall h (w' : W),
       Windows.destroy (Windows.MkNamedPipe EmptyString true h) w' =
       Run (Returns (Windows.MkNamedPipe EmptyString true h)) w' [EvStoreBreak true]).
Proof.
  intros W HW [p b h] w. unfold Windows.isValid, Windows.destroy. simpl.
  destruct p as [|c p]; simpl.
  - repeat split. discriminate.
  - unfold bind, store_event, Windows.call_CloseHandle, cerr, ret. simpl.
    destruct (Windows.CloseHandle h w).1; simpl; repeat split; eauto.
Qed.

(** ** write: retry, timeout, the single write *)

(** C4: for every timeout, write to a path at which nothing can be
    opened retries the non-blocking open, sleeping one interval after each
    failed attempt but the last, and raises TimeoutException on the attempt
    that finds the budget exhausted, max(1, timeout) attempts in all, without
    writing.  Once an open has succeeded the run contains one write event,
    the call with the first messageSize bytes of the message; a negative
    result of that call raises PipeException(errno, "Write"), any other
    result returns. *)
Theorem write_retries_then_writes_once :
  forall (W : Type) (HW : Posix W) (Inv : W -> Prop)
         (p : path) (message : list byte) (messageSize : nat) (timeout : Z) (w : W),
    let r := write p message messageSize timeout w in
    let o := open_retry (attempts timeout) p timeout w in
    (Inv w ->
     (forall w', Inv w' ->
        (sys_open p wr_flags w').1 = -1 /\
        Inv (sleep_for PIPE_WRITE_WAIT_INTERVAL (sys_open p wr_flags w').2)) ->
     result r = Throws TimeoutException /\
     trace r = retries (pred (attempts timeout)) p wr_flags ++ [EvOpen p wr_flags (-1)]) /\
    (forall fd t,
       result o = Returns (fd, t) ->
       let wr := sys_write fd (take messageSize message) (world o) in
       fd <> -1 /\
       In (EvOpen p wr_flags fd) (trace r) /\
       List.filter is_write (trace r) = [EvWrite fd (take messageSize message) wr.1] /\
       (wr.1 < 0 -> result r = Throws (PipeException (errno wr.2) "Write")) /\
       (0 <= wr.1 -> result r = Returns tt)).
Proof.
  intros W HW Inv p message messageSize timeout w r o. split.
  - intros Hw Hstep.
    destruct (open_retry_blocked Inv p (attempts timeout) timeout w Hstep Hw (le_n _))
      as [Hres Htr].
    subst r. rewrite (write_no_open _ _ _ _ _ _ Hres). auto.
  - intros fd t Ho wr.
    pose proof (write_events p message messageSize timeout w fd t Ho) as Hev.
    pose proof (write_after_open p message messageSize timeout w fd t Ho) as Hrun.
    destruct (open_retry_spec (attempts timeout) p timeout w (le_n _))
      as (k & _ & [(fd' & Hne & Hres & Htr)|(Hres & _ & _)]);
      [|unfold o in Ho; congruence].
    assert (fd' = fd) by (unfold o in Ho; congruence). subst fd'.
    split; [assumption|]. split.
    { subst r. rewrite Hrun. cbn [trace]. rewrite Htr.
      rewrite !in_app_iff. left. right. left. reflexivity. }
    split; [exact Hev|].
    subst r. rewrite Hrun. cbn [result]. fold o. fold wr.
    split; intros Hn.
    + destruct (Z.ltb_spec wr.1 0); [reflexivity|lia].
    + destruct (Z.ltb_spec wr.1 0); [lia|reflexivity].
Qed.

Lemma no_pipe_never_opens (p : path) (k : Kernel.kernel) :
  Kernel.names k !! p = None ->
  (sys_open p wr_flags k).1 = -1 /\
  Kernel.names (sleep_for PIPE_WRITE_WAIT_INTERVAL (sys_open p wr_flags k).2) !! p = None.
Proof.
  intros Hp. simpl. unfold Kernel.k_open. rewrite Hp. simpl. auto.
Qed.

Lemma write_retries_then_writes_once_witness :
  result (write Scenario.pipeName Scenario.message1 1 500 Scenario.machine)
    = Throws TimeoutException /\
  result (write Scenario.pipeName Scenario.message1 1 1000
            (Scenario.listening Scenario.machine)) = Returns tt.
Proof.
  split.
  - apply (write_retries_then_writes_once Kernel.kernel _
             (fun k => Kernel.names k !! Scenario.pipeName = None)
             Scenario.pipeName Scenario.message1 1 500 Scenario.machine).
    + reflexivity.
    + intros k Hk. apply no_pipe_never_opens, Hk.
  - apply (write_retries_then_writes_once Kernel.kernel _ (fun _ => True)
             Scenario.pipeName Scenario.message1 1 1000
             (Scenario.listening Scenario.machine)) with (fd := 4) (t := 1000).
    + vm_compute. reflexivity.
    + vm_compute. discriminate.
Defined.

(** C10: the POSIX write tests the result of its one ::write for being
    negative and for nothing else.  Whatever count the call returns, also
    one below messageSize, write returns normally, and the run holds no
    other write event: the rest of the message is not sent. *)
Theorem write_partial_is_success :
  forall (W : Type) (HW : Posix W)
         (p : path) (message : list byte) (messageSize : nat) (timeout : Z) (w : W)
         (fd t : Z),
    let o := open_retry (attempts timeout) p timeout w in
    let wr := sys_write fd (take messageSize message) (world o) in
    let r := write p message messageSize timeout w in
    result o = Returns (fd, t) ->
    0 <= wr.1 ->
    result r = Returns tt /\
    List.filter is_write (trace r) = [EvWrite fd (take messageSize message) wr.1].
Proof.
  intros W HW p message messageSize timeout w fd t o wr r Ho Hn. split.
  - subst r. rewrite (write_after_open _ _ _ _ _ _ _ Ho). cbn [result].
    fold o. fold wr. destruct (Z.ltb_spec wr.1 0); [lia|reflexivity].
  - apply (write_events _ _ _ _ _ _ _ Ho).
Qed.

Lemma write_partial_is_success_witness :
  let k := Scenario.listening Scenario.one_page in
  let o := open_retry (attempts 1000) Scenario.pipeName 1000 k in
  let wr := sys_write 4 (take 4097 Scenario.long_message) (world o) in
  let r := write Scenario.pipeName Scenario.long_message 4097 1000 k in
  wr.1 = 4096 /\
  result r = Returns tt /\
  List.filter is_write (trace r) = [EvWrite 4 (take 4097 Scenario.long_message) wr.1].
Proof.
  split; [vm_compute; reflexivity|].
  apply (write_partial_is_success Kernel.kernel _ Scenario.pipeName
           Scenario.long_message 4097 1000 (Scenario.listening Scenario.one_page) 4 1000).
  - vm_compute. reflexivity.
  - vm_compute. discriminate.
Defined.

(** ** The poll loops: budget and termination *)

(** C7 as stated fails at a zero timeout: ceil(0 / interval) is 0, yet
    the do-while of write makes its one attempt and the readiness loop of
    read_blocking its one poll before the budget is looked at.  The
    readiness loop has a third way out as well: on an interrupted object it
    ends with InterruptException, which is neither progress nor a timeout. *)
Lemma zero_timeout_runs_one_iteration :
  ~ (count is_open (trace (write Scenario.pipeName Scenario.message1 1 0 Scenario.machine))
       <= stated_bound 0 PIPE_WRITE_WAIT_INTERVAL)%nat /\
  ~ (count is_poll
       (trace (read_blocking 1 Scenario.ioTestPipe 0 (Scenario.created Scenario.machine)))
       <= stated_bound 0 PIPE_WAIT_INTERVAL)%nat /\
  result (wait_readable (attempts 5) (interrupt Scenario.ioTestPipe)
            (Pollfd 3 Kernel.POLLIN (-1)) 5 (Scenario.listening Scenario.machine))
    = Throws InterruptException.
Proof.
  vm_compute. split; [|split]; [intros Hle; inversion Hle..|reflexivity].
Qed.

(** C7, amended: in one call the budget goes down by one polling interval
    at a time, once for every iteration that is followed by another one, and
    a budget that starts non-negative stays non-negative.  Both POSIX poll
    loops end after at most max(1, ceil(timeout / interval)) iterations: the
    open loop with a valid handle or with TimeoutException, the readiness
    loop by leaving for the read loop or with TimeoutException or
    InterruptException.  Every sleep and every poll waits one interval. *)
Theorem poll_loops_bounded :
  forall (W : Type) (HW : Posix W) (p : path) (this : NamedPipe) (pd : pollfd)
         (timeout : Z) (w : W),
    let o := open_retry (attempts timeout) p timeout w in
    let wt := wait_readable (attempts timeout) this pd timeout w in
    let slept := Z.of_nat (count is_sleep (trace o)) in
    let continued := Z.of_nat (pred (count is_poll (trace wt))) in
    (result o <> Diverges /\
     (count is_open (trace o) <= iteration_bound timeout PIPE_WRITE_WAIT_INTERVAL)%nat /\
     (forall ms, In (EvSleep ms) (trace o) -> ms = PIPE_WRITE_WAIT_INTERVAL) /\
     (0 <= timeout -> 0 <= timeout - slept * PIPE_WRITE_WAIT_INTERVAL) /\
     (result o = Throws TimeoutException \/
      exists fd, fd <> -1 /\
        result o = Returns (fd, timeout - slept * PIPE_WRITE_WAIT_INTERVAL))) /\
    (result wt <> Diverges /\
     (count is_poll (trace wt) <= iteration_bound timeout PIPE_WAIT_INTERVAL)%nat /\
     (forall e, In e (trace wt) ->
        exists fd ev r rev, e = EvPoll fd ev PIPE_WAIT_INTERVAL r rev) /\
     (0 <= timeout -> 0 <= timeout - continued * PIPE_WAIT_INTERVAL) /\
     (result wt = Throws TimeoutException \/ result wt = Throws InterruptException \/
      result wt = Returns (timeout - continued * PIPE_WAIT_INTERVAL))) /\
    (forall message messageSize,
       result (write p message messageSize timeout w) <> Diverges /\
       (count is_open (trace (write p message messageSize timeout w))
          <= iteration_bound timeout PIPE_WRITE_WAIT_INTERVAL)%nat) /\
    (forall fuel,
       (count is_poll (trace (read_blocking fuel this timeout w))
          <= iteration_bound timeout PIPE_WAIT_INTERVAL)%nat).
Proof.
  intros W HW p this pd timeout w o wt slept continued.
  assert (Hb : iteration_bound timeout PIPE_WAIT_INTERVAL = attempts timeout)
    by (symmetry; apply attempts_ceil).
  assert (Hb' : iteration_bound timeout PIPE_WRITE_WAIT_INTERVAL = attempts timeout)
    by (symmetry; apply attempts_ceil).
  rewrite Hb, Hb'.
  assert (Hmax : (attempts timeout <= Z.to_nat (Z.max 1 timeout))%nat) by reflexivity.
  destruct (open_retry_spec (attempts timeout) p timeout w (le_n _))
    as (k & Hk & Hopen).
  assert (Hto : trace o = retries k p wr_flags ++ [EvOpen p wr_flags (-1)] \/
                exists fd, trace o = retries k p wr_flags ++ [EvOpen p wr_flags fd]).
  { destruct Hopen as [(fd & _ & _ & Htr)|(_ & _ & Htr)]; eauto. }
  assert (Hslept : slept = Z.of_nat k).
  { unfold slept. destruct Hto as [Htr|[fd Htr]];
      rewrite Htr, count_app, count_retries_sleep; simpl; lia. }
  assert (Hopens : count is_open (trace o) = S k).
  { destruct Hto as [Htr|[fd Htr]];
      rewrite Htr, count_app, count_retries_open; simpl; lia. }
  split; [|split; [|split]].
  - split.
    { destruct Hopen as [(fd & _ & Hres & _)|(Hres & _ & _)]; unfold o; rewrite Hres;
        discriminate. }
    split; [lia|]. split.
    { intros ms Hin. destruct Hto as [Htr|[fd Htr]]; rewrite Htr in Hin;
        apply in_app_iff in Hin; destruct Hin as [Hin|[Hin|[]]];
        try discriminate; eapply sleeps_retries; eauto. }
    split.
    { intros Hnn. rewrite Hslept. unfold PIPE_WRITE_WAIT_INTERVAL. unfold attempts in Hk. lia. }
    destruct Hopen as [(fd & Hne & Hres & _)|(Hres & _ & _)]; [right|left; assumption].
    exists fd. split; [assumption|]. rewrite Hslept. exact Hres.
  - destruct (wait_readable_spec (attempts timeout) this pd timeout w (le_n _))
      as (idle & last & Htr & Hall & Hlast & Hlen & Hcase).
    assert (Hpolls : count is_poll (trace wt) = S (length idle)).
    { unfold wt. rewrite Htr, count_app, (count_idle_polls _ _ Hall). simpl.
      rewrite Hlast. lia. }
    assert (Hcont : continued = Z.of_nat (length idle)).
    { unfold continued. rewrite Hpolls. reflexivity. }
    split; [apply wait_readable_terminates; lia|].
    split; [lia|]. split; [apply wait_readable_intervals|]. split.
    { intros Hnn. rewrite Hcont. unfold PIPE_WAIT_INTERVAL. unfold attempts in Hlen. lia. }
    rewrite Hcont.
    destruct Hcase as [[Hres _]|[[Hres _]|(Hres & _)]]; auto.
  - intros message messageSize. split; [apply write_terminates|].
    rewrite write_opens. fold o. lia.
  - intros fuel. apply read_blocking_polls.
Qed.

Lemma poll_loops_bounded_witness :
  (count is_open (trace (write Scenario.pipeName Scenario.message1 1 5 Scenario.machine))
     <= 5)%nat /\
  0 <= 5 - Z.of_nat (count is_sleep
                       (trace (open_retry (attempts 5) Scenario.pipeName 5 Scenario.machine)))
           * PIPE_WRITE_WAIT_INTERVAL.
Proof.
  pose proof (poll_loops_bounded Kernel.kernel _ Scenario.pipeName Scenario.ioTestPipe
                (Pollfd 3 POLLIN (-1)) 5 Scenario.machine) as Hloops.
  cbv zeta in Hloops.
  destruct Hloops as ((_ & _ & _ & Hbudget & _) & _ & Hwrite & _).
  split.
  - exact (proj2 (Hwrite Scenario.message1 1%nat)).
  - apply Hbudget. lia.
Defined.

(** ** read_blocking: timeout, interrupt, end of message *)

Section ReadOutcome.
Context {W : Type} `{Posix W}.

(** read_blocking when the readiness loop raised. *)
Lemma read_blocking_wait_throws fuel this timeout (w : W) e :
  let o := sys_open (m_pipePath this) rd_flags w in
  o.1 <> -1 ->
  result (wait_readable (attempts timeout) this (Pollfd o.1 POLLIN (-1)) timeout o.2)
    = Throws e ->
  result (read_blocking fuel this timeout w) = Throws e.
Proof.
  intros o Ho Hwait. rewrite read_blocking_unfold. cbv zeta. fold o.
  destruct (Z.eqb_spec o.1 (-1)); [contradiction|].
  rewrite (bind_throws _ _ _ _ Hwait). reflexivity.
Qed.


(** The exceptions of read_blocking. *)
Lemma read_blocking_throws fuel this timeout (w : W) e :
  result (read_blocking fuel this timeout w) = Throws e ->
  e = TimeoutException \/ e = InterruptException \/
  (exists code, e = PipeException code "Open") \/
  (exists code, e = PipeException code "Read" /\ code <> EAGAIN).
Proof.
  rewrite read_blocking_unfold. cbv zeta.
  set (o := sys_open (m_pipePath this) rd_flags w).
  destruct (o.1 =? -1); [intros [= <-]; eauto|].
  set (wt := wait_readable (attempts timeout) this (Pollfd o.1 POLLIN (-1)) timeout o.2).
  assert (Hb : forall e',
    result (bind (wait_readable (attempts timeout) this (Pollfd o.1 POLLIN (-1)) timeout)
                 (fun _ => drain fuel o.1 []) o.2) = Throws e' ->
    e' = TimeoutException \/ e' = InterruptException \/
    (exists code, e' = PipeException code "Open") \/
    (exists code, e' = PipeException code "Read" /\ code <> EAGAIN)).
  { intros e'. unfold bind. fold wt.
    destruct (wait_readable_spec (attempts timeout) this (Pollfd o.1 POLLIN (-1))
                timeout o.2 (le_n _))
      as (idle & last & _ & _ & _ & _ & [[Hr _]|[[Hr _]|(Hr & _)]]);
      fold wt in Hr; rewrite Hr; cbn [result].
    - intros Hd. apply drain_throws in Hd. auto.
    - intros [= <-]. auto.
    - intros [= <-]. auto. }
  destruct (result (bind _ _ _)) eqn:Eb; cbn [result]; try discriminate.
  intros [= <-]. apply Hb. reflexivity.
Qed.
End ReadOutcome.

(** C3 as stated fails when a poll fails: the readiness loop tests the
    result of poll against -1 before anything else and is left on a failure.
    On a pipe that was created, that nobody writes to and nobody interrupts,
    with a signal arriving during the first poll, read_blocking with a
    timeout of 500 ms makes that one poll, goes on to read, finds the end of
    the input and returns the empty message: no TimeoutException, and the
    budget was not used. *)
Lemma failed_poll_returns_empty_message :
  result (read_blocking 1 Scenario.ioTestPipe 500
            (Signals.Process (Scenario.created Scenario.machine) (Some O)))
    = Returns [] /\
  result (read_blocking 1 Scenario.ioTestPipe 500
            (Signals.Process (Scenario.created Scenario.machine) (Some O)))
    <> Throws TimeoutException /\
  trace (read_blocking 1 Scenario.ioTestPipe 500
           (Signals.Process (Scenario.created Scenario.machine) (Some O)))
    = [EvOpen Scenario.pipeName rd_flags 3;
       EvPoll 3 Kernel.POLLIN PIPE_WAIT_INTERVAL (-1) (-1);
       EvRead 3 PIPE_BUFFER_SIZE 0;
       EvClose 3 0].
Proof.
  vm_compute. split; [reflexivity|]. split; [discriminate|reflexivity].
Qed.

(** C3, amended: for every timeout, read_blocking on a pipe that it can
    open, that never becomes readable, whose polls do not fail and that
    nobody interrupts raises TimeoutException, after max(1, timeout) polls
    of one interval.  When a poll of the readiness loop lets the loop go on
    (it neither fails nor reports data) and the interrupt flag is then found
    set, that iteration raises InterruptException, whatever is left of the
    budget: the flag is looked at before the budget is. *)
Theorem read_blocking_timeout_interrupt :
  forall (W : Type) (HW : Posix W) (Inv : W -> Prop)
         (this : NamedPipe) (timeout : Z) (fuel : nat) (w : W),
    let o := sys_open (m_pipePath this) rd_flags w in
    o.1 <> -1 ->
    (m_break this = false ->
     Inv o.2 ->
     (forall w' rev, Inv w' ->
        let q := sys_poll (Pollfd o.1 POLLIN rev) PIPE_WAIT_INTERVAL w' in
        q.1.1 <> -1 /\ Z.land q.1.2 POLLIN = 0 /\
        concurrent_interrupt q.2 = false /\ Inv q.2) ->
     result (read_blocking fuel this timeout w) = Throws TimeoutException /\
     count is_poll (trace (read_blocking fuel this timeout w)) = attempts timeout) /\
    (let q := sys_poll (Pollfd o.1 POLLIN (-1)) PIPE_WAIT_INTERVAL o.2 in
     q.1.1 <> -1 -> Z.land q.1.2 POLLIN = 0 ->
     m_break this || concurrent_interrupt q.2 = true ->
     result (read_blocking fuel this timeout w) = Throws InterruptException) /\
    (forall (n : nat) (pd : pollfd) (left : Z) (w' : W),
       let q := sys_poll pd PIPE_WAIT_INTERVAL w' in
       q.1.1 <> -1 -> Z.land q.1.2 POLLIN = 0 ->
       m_break this || concurrent_interrupt q.2 = true ->
       wait_readable (S n) this pd left w' =
       Run (Throws InterruptException) q.2
           [EvPoll (pfd pd) (events pd) PIPE_WAIT_INTERVAL q.1.1 q.1.2]).
Proof.
  intros W HW Inv this timeout fuel w o Ho.
  assert (Hloop : forall (n : nat) (pd : pollfd) (left : Z) (w' : W),
    let q := sys_poll pd PIPE_WAIT_INTERVAL w' in
    q.1.1 <> -1 -> Z.land q.1.2 POLLIN = 0 ->
    m_break this || concurrent_interrupt q.2 = true ->
    wait_readable (S n) this pd left w' =
    Run (Throws InterruptException) q.2
        [EvPoll (pfd pd) (events pd) PIPE_WAIT_INTERVAL q.1.1 q.1.2]).
  { intros n pd left w' q Hr Hin Hbrk. rewrite wait_readable_unfold. cbv zeta. fold q.
    destruct (Z.eqb_spec q.1.1 (-1)); [contradiction|].
    rewrite Hin, Hbrk. reflexivity. }
  split; [|split; [|exact Hloop]].
  - intros Hbrk Hinv Hstep.
    destruct (wait_readable_starved Inv this o.1 (attempts timeout) timeout (-1) o.2
                Hstep Hbrk Hinv (le_n _)) as [Hres Hcnt].
    split; [apply read_blocking_wait_throws; assumption|].
    rewrite read_blocking_unfold. cbv zeta. fold o.
    destruct (Z.eqb_spec o.1 (-1)); [contradiction|].
    rewrite (bind_throws _ _ _ _ Hres). cbn [result trace world count is_poll].
    rewrite count_app, Hcnt.
    destruct (dtor_counts o.1
      (world (wait_readable (attempts timeout) this (Pollfd o.1 POLLIN (-1)) timeout o.2)))
      as (_ & _ & _ & ->). lia.
  - intros q Hr Hin Hbrk. apply read_blocking_wait_throws; [assumption|].
    pose proof (attempts_pos timeout) as Hpos.
    destruct (attempts timeout) as [|n]; [lia|].
    exact (f_equal result (Hloop n (Pollfd o.1 POLLIN (-1)) timeout o.2 Hr Hin Hbrk)).
Qed.

Lemma read_blocking_timeout_interrupt_witness :
  let k := Scenario.created Scenario.machine in
  result (read_blocking 1 Scenario.ioTestPipe 500 (Threads.alone k))
    = Throws TimeoutException /\
  result (read_blocking 1 Scenario.ioTestPipe 0 (Threads.with_interrupt k 1))
    = Throws InterruptException /\
  result (read_blocking 1 (interrupt Scenario.ioTestPipe) 1 (Threads.alone k))
    = Throws InterruptException.
Proof.
  intros k. split; [|split].
  - apply (read_blocking_timeout_interrupt Threads.system _
             (fun s => s = Threads.alone (Scenario.listening Scenario.machine))
             Scenario.ioTestPipe 500 1 (Threads.alone k)).
    + vm_compute. discriminate.
    + vm_compute. reflexivity.
    + vm_compute. reflexivity.
    + intros s rev ->. vm_compute. repeat split. discriminate.
  - apply (read_blocking_timeout_interrupt Threads.system _ (fun _ => True)
             Scenario.ioTestPipe 0 1 (Threads.with_interrupt k 1)).
    + vm_compute. discriminate.
    + vm_compute. discriminate.
    + vm_compute. reflexivity.
    + vm_compute. reflexivity.
  - apply (read_blocking_timeout_interrupt Threads.system _ (fun _ => True)
             (interrupt Scenario.ioTestPipe) 1 1 (Threads.alone k)).
    + vm_compute. discriminate.
    + vm_compute. discriminate.
    + vm_compute. reflexivity.
    + vm_compute. reflexivity.
Defined.



(** ** The round trip through the kernel's FIFO *)

Section RoundTrip.
Import Kernel Threads.

Lemma open_read_fresh (k : kernel) (p : path) :
  fresh_pipe k p ->
  exists i rd wc,
    (k_open p rd_flags k).1 = next_fd k /\
    waiting (k_open p rd_flags k).2 p (next_fd k) i rd wc /\
    capacity (k_open p rd_flags k).2 = capacity k /\
    k_errno (k_open p rd_flags k).2 = k_errno k.
Proof.
  intros (i & f & Hn & Hi & Hc & Hw & Hfd).
  destruct f as [c rd wr wc]. simpl in Hc, Hw. subst c wr.
  exists i, rd, wc. unfold k_open. rewrite Hn, Hi.
  change (Z.land rd_flags O_ACCMODE =? O_RDONLY) with true. cbn [install fst snd].
  unfold waiting. cbn [names inodes fds next_fd capacity k_errno content readers writers
                       w_counter].
  rewrite !lookup_insert_eq. repeat split; auto. lia.
Qed.

Lemma poll_waiting (k : kernel) p fd i rd wc rev timeout :
  waiting k p fd i rd wc ->
  k_poll (Pollfd fd POLLIN rev) timeout k = ((0, 0), k).
Proof.
  intros (_ & Hi & Hfd & _). unfold k_poll. cbn [pfd events].
  rewrite Hfd. cbn [inode]. rewrite Hi.
  unfold k_revents. cbn [writable content writers f_version w_counter].
  rewrite Nat.eqb_refl. reflexivity.
Qed.

Lemma open_write_waiting (k : kernel) p fd i rd wc :
  waiting k p fd i rd wc ->
  k_open p wr_flags k =
  (next_fd k,
   MkKernel (names k) (<[i := Fifo [] (S rd) 1 (S wc)]> (inodes k))
            (<[next_fd k := File i true (S wc)]> (fds k))
            (next_fd k + 1) (next_inode k) (k_errno k) (capacity k) (pipe_buf k)).
Proof.
  intros (Hn & Hi & _ & _). unfold k_open. rewrite Hn, Hi.
  change (Z.land wr_flags O_ACCMODE =? O_RDONLY) with false.
  change (Z.land wr_flags O_ACCMODE =? O_WRONLY) with true.
  reflexivity.
Qed.

Lemma write_fits (k : kernel) fd i rd wr wc v (bytes : list byte) :
  fds k !! fd = Some (File i true v) ->
  inodes k !! i = Some (Fifo [] (S rd) wr wc) ->
  bytes <> [] ->
  Z.of_nat (length bytes) <= capacity k ->
  k_write fd bytes k =
  (Z.of_nat (length bytes), set_inode i (Fifo bytes (S rd) wr wc) k).
Proof.
  intros Hfd Hi Hne Hcap. unfold k_write. rewrite Hfd. cbn [inode writable negb].
  rewrite Hi. cbn [readers content writers w_counter length app].
  assert (Hpos : 0 < Z.of_nat (length bytes)).
  { destruct bytes; [contradiction|]. simpl. lia. }
  replace (capacity k - Z.of_nat 0) with (capacity k) by lia.
  assert (Hacc :
    (if Z.of_nat (length bytes) <=? pipe_buf k
     then if Z.of_nat (length bytes) <=? capacity k
          then Some (Z.of_nat (length bytes)) else None
     else if capacity k <=? 0 then None
          else Some (Z.min (Z.of_nat (length bytes)) (capacity k)))
    = Some (Z.of_nat (length bytes))).
  { destruct (Z.leb_spec (Z.of_nat (length bytes)) (pipe_buf k)).
    - destruct (Z.leb_spec (Z.of_nat (length bytes)) (capacity k)); [reflexivity|lia].
    - destruct (Z.leb_spec (capacity k) 0); [lia|]. f_equal. lia. }
  rewrite Hacc. rewrite Nat2Z.id, firstn_all. reflexivity.
Qed.

Lemma close_writer (k : kernel) fd i c rd wr wc v :
  fds k !! fd = Some (File i true v) ->
  inodes k !! i = Some (Fifo c rd (S wr) wc) ->
  k_close fd k =
  (0, MkKernel (names k) (<[i := Fifo c rd wr wc]> (inodes k)) (delete fd (fds k))
               (next_fd k) (next_inode k) (k_errno k) (capacity k) (pipe_buf k)).
Proof.
  intros Hfd Hi. unfold k_close. rewrite Hfd. cbn [inode writable]. rewrite Hi.
  reflexivity.
Qed.

(** The writer's call when the reader is waiting: it opens at once,
    writes the whole message, closes, and returns. *)
Lemma writer_delivers (k : kernel) p fd i rd wc (bytes : list byte) timeout :
  waiting k p fd i rd wc ->
  bytes <> [] ->
  Z.of_nat (length bytes) <= capacity k ->
  let r := write p bytes (length bytes) timeout k in
  result r = Returns tt /\ delivered (world r) fd i rd wc bytes.
Proof.
  intros Hwait Hne Hcap r.
  pose proof (open_write_waiting k p fd i rd wc Hwait) as Hopen.
  destruct Hwait as (Hn & Hi & Hfd & Hrange).
  set (k2 := MkKernel (names k) (<[i := Fifo [] (S rd) 1 (S wc)]> (inodes k))
               (<[next_fd k := File i true (S wc)]> (fds k))
               (next_fd k + 1) (next_inode k) (k_errno k) (capacity k) (pipe_buf k))
    in Hopen.
  assert (Ho : open_retry (attempts timeout) p timeout k =
               Run (Returns (next_fd k, timeout)) k2 [EvOpen p wr_flags (next_fd k)]).
  { pose proof (attempts_pos timeout) as Hpos.
    destruct (attempts timeout) as [|n]; [lia|].
    rewrite open_retry_unfold. cbv zeta.
    change (sys_open p wr_flags k) with (k_open p wr_flags k). rewrite Hopen.
    cbn [fst snd]. destruct (Z.eqb_spec (next_fd k) (-1)); [lia|reflexivity]. }
  assert (Hw : k_write (next_fd k) bytes k2 =
               (Z.of_nat (length bytes),
                set_inode i (Fifo bytes (S rd) 1 (S wc)) k2)).
  { apply (write_fits k2 (next_fd k) i rd 1%nat (S wc) (S wc)); try assumption;
      unfold k2; cbn [fds inodes]; apply lookup_insert_eq. }
  set (k3 := set_inode i (Fifo bytes (S rd) 1 (S wc)) k2) in Hw.
  assert (Hc : k_close (next_fd k) k3 =
               (0, MkKernel (names k3) (<[i := Fifo bytes (S rd) 0 (S wc)]> (inodes k3))
                     (delete (next_fd k) (fds k3)) (next_fd k3) (next_inode k3)
                     (k_errno k3) (capacity k3) (pipe_buf k3))).
  { apply (close_writer k3 (next_fd k) i bytes (S rd) 0%nat (S wc) (S wc));
      unfold k3, set_inode, k2; cbn [fds inodes]; apply lookup_insert_eq. }
  assert (Hrun := write_after_open p bytes (length bytes) timeout k (next_fd k) timeout).
  cbv zeta in Hrun. rewrite Ho in Hrun. cbn [result world trace] in Hrun.
  specialize (Hrun eq_refl). rewrite firstn_all in Hrun.
  change (sys_write (next_fd k) bytes k2) with (k_write (next_fd k) bytes k2) in Hrun.
  rewrite Hw in Hrun. cbn [fst snd] in Hrun.
  subst r. rewrite Hrun. cbn [result world].
  split.
  { destruct (Z.ltb_spec (Z.of_nat (length bytes)) 0); [lia|reflexivity]. }
  unfold FileHandleWrapper_dtor, invalid_handle.
  destruct (Z.eqb_spec (next_fd k) (-1)); [lia|]. cbn [negb].
  unfold bind, call_close.
  change (sys_close (next_fd k) k3) with (k_close (next_fd k) k3).
  rewrite Hc. cbn [fst snd result world]. unfold successCode.
  cbn [Z.eqb negb ret world].
  unfold delivered. cbn [inodes fds].
  split; [apply lookup_insert_eq|].
  unfold k3, set_inode, k2. cbn [fds].
  rewrite lookup_delete_ne by lia. rewrite lookup_insert_ne by lia. exact Hfd.
Qed.

Lemma poll_delivered (k : kernel) fd i rd wc bytes rev timeout :
  delivered k fd i rd wc bytes ->
  bytes <> [] ->
  k_poll (Pollfd fd POLLIN rev) timeout k = ((1, Z.lor POLLIN POLLHUP), k).
Proof.
  intros (Hi & Hfd) Hne. unfold k_poll. cbn [pfd events].
  rewrite Hfd. cbn [inode]. rewrite Hi.
  unfold k_revents. cbn [writable content writers f_version w_counter].
  destruct bytes as [|b bytes]; [contradiction|].
  replace (Nat.eqb wc (S wc)) with false
    by (symmetry; apply Nat.eqb_neq; lia).
  reflexivity.
Qed.

Lemma delivered_set_errno (k : kernel) e fd i rd wc bytes :
  delivered k fd i rd wc bytes -> delivered (set_errno e k) fd i rd wc bytes.
Proof. intros H. exact H. Qed.

(** The readiness loop of a reader whose writer arrives during poll
    number [d]: [d] polls find nothing, the next one finds the message. *)
Lemma wait_for_writer (this : NamedPipe) p fd i rd wc (bytes : list byte) wtimeout :
  m_break this = false ->
  bytes <> [] ->
  forall (d fuel : nat) (timeout rev : Z) (k : kernel),
    waiting k p fd i rd wc ->
    Z.of_nat (length bytes) <= capacity k ->
    (d < fuel)%nat ->
    (d < attempts timeout)%nat ->
    let s := System k (Some (Peer d p bytes (length bytes) wtimeout)) None None in
    let r := wait_readable fuel this (Pollfd fd POLLIN rev) timeout s in
    exists t k',
      result r = Returns t /\
      world r = System k' None (Some (Returns tt)) None /\
      delivered k' fd i rd wc bytes.
Proof.
  intros Hbrk Hne. induction d as [|d IH]; intros fuel timeout rev k Hwait Hcap Hfuel Hd s r.
  - destruct fuel as [|fuel]; [lia|]. subst r. rewrite wait_readable_unfold. cbv zeta.
    destruct (writer_delivers k p fd i rd wc bytes wtimeout Hwait Hne Hcap) as [Hres Hdel].
    set (k' := set_errno (k_errno k) (world (write p bytes (length bytes) wtimeout k))).
    assert (Htick : tick s = System k' None (Some (Returns tt)) None).
    { unfold tick, run_writer, s. cbn [writer delay p_pipePath p_message p_messageSize
                                        p_timeout kern interrupter writer_result].
      rewrite Hres. reflexivity. }
    assert (Hq : sys_poll (Pollfd fd POLLIN rev) PIPE_WAIT_INTERVAL s =
                 ((1, Z.lor POLLIN POLLHUP), System k' None (Some (Returns tt)) None)).
    { change (sys_poll (Pollfd fd POLLIN rev) PIPE_WAIT_INTERVAL s)
        with (on_kern (k_poll (Pollfd fd POLLIN rev) PIPE_WAIT_INTERVAL) (tick s)).
      rewrite Htick. unfold on_kern. cbn [kern writer writer_result interrupter].
      rewrite (poll_delivered k' fd i rd wc bytes rev PIPE_WAIT_INTERVAL
                 (delivered_set_errno _ _ _ _ _ _ _ Hdel) Hne).
      reflexivity. }
    rewrite Hq. cbn [fst snd].
    change (negb (1 =? -1) && (Z.land _ _ =? 0)) with false.
    exists timeout, k'. split; [reflexivity|]. split; [reflexivity|].
    apply delivered_set_errno, Hdel.
  - destruct fuel as [|fuel]; [lia|]. subst r. rewrite wait_readable_unfold. cbv zeta.
    assert (Hq : sys_poll (Pollfd fd POLLIN rev) PIPE_WAIT_INTERVAL s =
                 ((0, 0), System k (Some (Peer d p bytes (length bytes) wtimeout))
                                 None None)).
    { change (sys_poll (Pollfd fd POLLIN rev) PIPE_WAIT_INTERVAL s)
        with (on_kern (k_poll (Pollfd fd POLLIN rev) PIPE_WAIT_INTERVAL) (tick s)).
      unfold tick, run_writer, run_interrupter, s, on_kern.
      cbn [writer delay p_pipePath p_message p_messageSize p_timeout kern interrupter
           writer_result].
      rewrite (poll_waiting k p fd i rd wc rev PIPE_WAIT_INTERVAL Hwait). reflexivity. }
    rewrite Hq. cbn [fst snd pfd events]. rewrite Hbrk.
    change (concurrent_interrupt
              (System k (Some (Peer d p bytes (length bytes) wtimeout)) None None))
      with false.
    cbn [negb andb orb Z.eqb Z.land].
    change (Z.land 0 _ =? 0) with true. cbn [andb].
    assert (Hgt : 1 < timeout) by (unfold attempts in Hd; lia).
    assert (Hgtb : (timeout >? PIPE_WAIT_INTERVAL) = true)
      by (unfold PIPE_WAIT_INTERVAL; lia).
    rewrite Hgtb.
    destruct (IH fuel (timeout - PIPE_WAIT_INTERVAL) 0 k Hwait Hcap) as (t & k' & Hr & Hw & Hdel).
    + lia.
    + unfold attempts, PIPE_WAIT_INTERVAL in *. lia.
    + cbn [result world]. exists t, k'.
      split; [exact Hr|]. split; [exact Hw|exact Hdel].
Qed.

(** The read loop on a FIFO whose writer has gone returns all that the
    FIFO holds, appended to what was read before. *)
Lemma drain_delivered fd i :
  forall (fuel : nat) (c message : list byte) (s : system) rd wc v,
    fds (kern s) !! fd = Some (File i false v) ->
    inodes (kern s) !! i = Some (Fifo c rd O wc) ->
    (length c < fuel)%nat ->
    result (drain fuel fd message s) = Returns (message ++ c) /\
    writer_result (world (drain fuel fd message s)) = writer_result s.
Proof.
  induction fuel as [|fuel IH]; intros c message s rd wc v Hfd Hi Hlen; [lia|].
  rewrite drain_unfold. cbv zeta.
  change (sys_read fd PIPE_BUFFER_SIZE s)
    with (on_kern (k_read fd PIPE_BUFFER_SIZE) s).
  unfold on_kern, k_read. rewrite Hfd. cbn [inode writable]. rewrite Hi.
  cbn [content writers readers w_counter].
  destruct c as [|b c].
  - cbn [fst snd]. change (0 >? 0) with false. change (0 =? -1) with false.
    cbn [andb result world writer_result]. rewrite app_nil_r. auto.
  - set (got := take (Z.to_nat PIPE_BUFFER_SIZE) (b :: c)).
    cbn [fst snd].
    assert (Hgot : (0 < length got)%nat) by (unfold got, PIPE_BUFFER_SIZE; simpl; lia).
    destruct (Z.gtb_spec (Z.of_nat (length got)) 0) as [_|]; [|lia].
    rewrite Nat2Z.id, firstn_all. cbn [result world].
    set (s' := System _ _ _ _).
    destruct (IH (drop (Z.to_nat PIPE_BUFFER_SIZE) (b :: c)) (message ++ got) s' rd wc v)
      as [Hres Hwr].
    + unfold s', set_inode. cbn [kern fds]. exact Hfd.
    + unfold s', set_inode. cbn [kern inodes]. apply lookup_insert_eq.
    + rewrite length_drop. unfold PIPE_BUFFER_SIZE. simpl in *. lia.
    + rewrite Hres, Hwr. split; [|reflexivity].
      unfold got. rewrite <- app_assoc, take_drop. reflexivity.
Qed.

Lemma dtor_writer_result fd (s : system) :
  writer_result (world (FileHandleWrapper_dtor fd s)) = writer_result s.
Proof.
  unfold FileHandleWrapper_dtor, invalid_handle, successCode.
  destruct (fd =? -1); [reflexivity|]. cbn [negb].
  unfold bind, call_close. cbn [result world fst snd].
  destruct (negb _); reflexivity.
Qed.

(** The whole call of the reader with its writer. *)
Lemma read_with_writer (k : kernel) (this : NamedPipe) (bytes : list byte)
    (d : nat) (timeout wtimeout : Z) (fuel : nat) :
  fresh_pipe k (m_pipePath this) ->
  m_break this = false ->
  bytes <> [] ->
  Z.of_nat (length bytes) <= capacity k ->
  (d < attempts timeout)%nat ->
  (length bytes < fuel)%nat ->
  let r := read_blocking fuel this timeout
             (with_writer k d (m_pipePath this) bytes wtimeout) in
  result r = Returns bytes /\ writer_result (world r) = Some (Returns tt).
Proof.
  intros Hfresh Hbrk Hne Hcap Hd Hfuel r.
  assert (Hfd : 0 <= next_fd k) by (destruct Hfresh as (? & ? & _ & _ & _ & _ & ?); assumption).
  destruct (open_read_fresh k (m_pipePath this) Hfresh)
    as (i & rd & wc & Hofd & Hwait & Hcap1 & _).
  set (s0 := with_writer k d (m_pipePath this) bytes wtimeout) in *.
  set (k1 := (k_open (m_pipePath this) rd_flags k).2) in *.
  assert (Ho : sys_open (m_pipePath this) rd_flags s0 =
               (next_fd k,
                System k1 (Some (Peer d (m_pipePath this) bytes (length bytes) wtimeout))
                       None None)).
  { change (sys_open (m_pipePath this) rd_flags s0)
      with (on_kern (k_open (m_pipePath this) rd_flags) s0).
    unfold on_kern, s0, with_writer. cbn [kern writer writer_result interrupter].
    rewrite Hofd. reflexivity. }
  destruct (wait_for_writer this (m_pipePath this) (next_fd k) i rd wc bytes wtimeout
              Hbrk Hne d (attempts timeout) timeout (-1) k1 Hwait)
    as (t & k' & Hres & Hworld & Hdel); [lia|assumption|assumption|].
  destruct Hdel as [Hi' Hfd'].
  destruct (drain_delivered (next_fd k) i fuel bytes []
              (System k' None (Some (Returns tt)) None) (S rd) (S wc) wc Hfd' Hi' Hfuel)
    as [Hdres Hdwr].
  subst r. rewrite read_blocking_unfold. cbv zeta. rewrite Ho. cbn [fst snd].
  destruct (Z.eqb_spec (next_fd k) (-1)); [lia|].
  rewrite (bind_returns _ _ _ _ Hres). cbn [result world trace].
  rewrite Hworld, Hdres. cbn [result world app].
  split; [reflexivity|]. rewrite dtor_writer_result. exact Hdwr.
Qed.
End RoundTrip.

(** The three messages of tests/IO.cpp make the trip, written during
    the reader's first second. *)
Lemma io_test_messages :
  let reader (bytes : list byte) :=
    read_blocking 10 Scenario.ioTestPipe 5000
      (Threads.with_writer (Scenario.created Scenario.machine) 1000
         Scenario.pipeName bytes 1000) in
  result (reader Scenario.message1) = Returns Scenario.message1 /\
  result (reader Scenario.message2) = Returns Scenario.message2 /\
  result (reader Scenario.message3) = Returns Scenario.message3.
Proof. vm_compute. repeat split. Qed.

(** Without a reader on the pipe the non-blocking open of write fails
    with ENXIO on every attempt, so a write that is over before
    read_blocking starts ends in a timeout: the two calls have to overlap. *)
Lemma write_before_reader_times_out :
  result (write Scenario.pipeName Scenario.message1 1 1000
            (Scenario.created Scenario.machine)) = Throws TimeoutException /\
  Kernel.k_errno (world (write Scenario.pipeName Scenario.message1 1 1000
                           (Scenario.created Scenario.machine))) = Kernel.ENXIO.
Proof. vm_compute. split; reflexivity. Qed.

(** C1 as stated fails for the empty sequence and for a sequence longer
    than the room left in the pipe.  The reader of an empty message is never
    told that the pipe is readable and raises TimeoutException, although the
    writer's call returned; of 4097 bytes written to a pipe of one page the
    first 4096 arrive, and the writer's call returned as well. *)
Lemma roundtrip_fails_empty_and_long :
  let reader (k : Kernel.kernel) (bytes : list byte) :=
    read_blocking 100 Scenario.ioTestPipe 5000
      (Threads.with_writer (Scenario.created k) 10 Scenario.pipeName bytes 1000) in
  result (reader Scenario.machine []) = Throws TimeoutException /\
  Threads.writer_result (world (reader Scenario.machine [])) = Some (Returns tt) /\
  result (reader Scenario.one_page Scenario.long_message)
    = Returns (take 4096 Scenario.long_message) /\
  result (reader Scenario.one_page Scenario.long_message)
    <> Returns Scenario.long_message /\
  Threads.writer_result (world (reader Scenario.one_page Scenario.long_message))
    = Some (Returns tt).
Proof.
  cbv zeta. split; [vm_compute; reflexivity|]. split; [vm_compute; reflexivity|].
  assert (Hlong :
    result (read_blocking 100 Scenario.ioTestPipe 5000
              (Threads.with_writer (Scenario.created Scenario.one_page) 10
                 Scenario.pipeName Scenario.long_message 1000))
    = Returns (take 4096 Scenario.long_message)) by (vm_compute; reflexivity).
  split; [exact Hlong|]. split; [|vm_compute; reflexivity].
  rewrite Hlong. intros Heq. apply (f_equal (fun o =>
    match o with Returns l => length l | _ => O end)) in Heq.
  vm_compute in Heq. discriminate.
Qed.

(** C1, amended: for every non-empty byte sequence B that fits into the
    pipe (any byte values), when the pipe exists, is empty and has no
    writer, and write(path, B, |B|, timeout) runs while read_blocking is
    polling, read_blocking returns exactly B and the write returns
    normally. *)
Theorem roundtrip_nonempty_fitting :
  forall (k : Kernel.kernel) (this : NamedPipe) (B : list byte)
         (d : nat) (timeout wtimeout : Z) (fuel : nat),
    fresh_pipe k (m_pipePath this) ->
    m_break this = false ->
    B <> [] ->
    Z.of_nat (length B) <= Kernel.capacity k ->
    (d < attempts timeout)%nat ->
    (length B < fuel)%nat ->
    let r := read_blocking fuel this timeout
               (Threads.with_writer k d (m_pipePath this) B wtimeout) in
    result r = Returns B /\ Threads.writer_result (world r) = Some (Returns tt).
Proof. exact read_with_writer. Qed.

Lemma created_is_fresh : fresh_pipe (Scenario.created Scenario.machine) Scenario.pipeName.
Proof.
  exists O, (Kernel.Fifo [] 0 0 0). vm_compute. repeat split; discriminate.
Qed.

Lemma roundtrip_nonempty_fitting_witness :
  result (read_blocking 6 Scenario.ioTestPipe 5000
            (Threads.with_writer (Scenario.created Scenario.machine) 1000
               Scenario.pipeName Scenario.message3 1000))
    = Returns Scenario.message3.
Proof.
  apply (roundtrip_nonempty_fitting (Scenario.created Scenario.machine)
           Scenario.ioTestPipe Scenario.message3 1000 5000 1000 6).
  - exact created_is_fresh.
  - reflexivity.
  - discriminate.
  - vm_compute. discriminate.
  - vm_compute. lia.
  - vm_compute. lia.
Defined.

(** * Further properties of the POSIX backend *)

(** ** Which exceptions a call can raise *)

Section Taxonomy.
Context {W : Type} `{Posix W}.

Lemma create_run p (w : W) :
create p w =
let m := sys_mkfifo p (Z.lor S_IRUSR S_IWUSR) w in
Run (if m.1 =? 0 then Returns (NamedPipe_of_path p)
     else Throws (PipeException (errno m.2) "Create"))
    m.2 [EvMkfifo p (Z.lor S_IRUSR S_IWUSR) m.1].
Proof.
unfold create, bind, call_mkfifo, get_errno, throw, ret. cbv zeta. cbn [result world trace fst snd].
destruct (_ =? 0); reflexivity.
Qed.

Lemma write_throws p message messageSize timeout (w : W) e :
result (write p message messageSize timeout w) = Throws e ->
e = TimeoutException \/ exists code, e = PipeException code "Write".
Proof.
destruct (open_retry_spec (attempts timeout) p timeout w (le_n _))
  as (k & _ & [(fd & _ & Hres & _)|(Hres & _ & _)]).
- rewrite (write_after_open _ _ _ _ _ _ _ Hres). cbn [result].
  destruct (_ <? 0); [|discriminate]. intros [= <-]. eauto.
- rewrite (write_no_open _ _ _ _ _ _ Hres). cbn [result]. intros [= <-]. auto.
Qed.

Lemma destroy_returns this (w : W) : exists this', result (destroy this w) = Returns this'.
Proof.
unfold destroy, bind, store_event, call_remove, cerr, ret.
cbn [result world trace fst snd m_pipePath m_break].
destruct (negb (path_empty (m_pipePath this))); cbn [result world]; [|eauto].
destruct (negb _); cbn [result]; eauto.
Qed.
End Taxonomy.

(** X1: the exceptions of the POSIX backend, call by call.  create raises
    nothing but PipeException with context "Create"; write raises
    TimeoutException or PipeException with context "Write" and never
    InterruptException, and the member overload does the same whether or
    not interrupt() was called on the object; read_blocking raises
    TimeoutException, InterruptException, or PipeException with context
    "Open" or "Read"; destroy raises nothing. *)
Theorem posix_exception_taxonomy :
  forall (W : Type) (HW : Posix W) (w : W) (e : Exception),
    (forall p, result (create p w) = Throws e ->
       exists code, e = PipeException code "Create") /\
    (forall p message messageSize timeout,
       result (write p message messageSize timeout w) = Throws e ->
       e = TimeoutException \/ exists code, e = PipeException code "Write") /\
    (forall this message messageSize timeout,
       write_member (interrupt this) message messageSize timeout w =
       write_member this message messageSize timeout w) /\
    (forall fuel this timeout,
       result (read_blocking fuel this timeout w) = Throws e ->
       e = TimeoutException \/ e = InterruptException \/
       (exists code, e = PipeException code "Open") \/
       (exists code, e = PipeException code "Read" /\ code <> EAGAIN)) /\
    (forall this, result (destroy this w) <> Throws e).
Proof.
  intros W HW w e. repeat split.
  - intros p. rewrite create_run. cbv zeta. cbn [result].
    destruct (_ =? 0); [discriminate|]. intros [= <-]. eauto.
  - intros p message messageSize timeout. apply write_throws.
  - intros fuel this timeout. apply read_blocking_throws.
  - intros this. destruct (destroy_returns this w) as [this' ->]. discriminate.
Qed.

(** ** Handles are released *)

Lemma opened_handles_app tr1 tr2 :
  opened_handles (tr1 ++ tr2) = opened_handles tr1 ++ opened_handles tr2.
Proof.
  induction tr1 as [|e tr1 IH]; [reflexivity|].
  destruct e; simpl; try apply IH. destruct (ret0 =? -1); simpl; congruence.
Qed.

Lemma closed_handles_app tr1 tr2 :
  closed_handles (tr1 ++ tr2) = closed_handles tr1 ++ closed_handles tr2.
Proof.
  induction tr1 as [|e tr1 IH]; [reflexivity|].
  destruct e; simpl; try apply IH. congruence.
Qed.

Lemma handles_retries k p flags :
  opened_handles (retries k p flags) = [] /\ closed_handles (retries k p flags) = [].
Proof. induction k as [|k [IH1 IH2]]; simpl; auto. Qed.

Section Handles.
Context {W : Type} `{Posix W}.

Lemma handles_dtor fd (w : W) :
opened_handles (trace (FileHandleWrapper_dtor fd w)) = [] /\
closed_handles (trace (FileHandleWrapper_dtor fd w)) = (if fd =? -1 then [] else [fd]).
Proof.
unfold FileHandleWrapper_dtor, invalid_handle, successCode.
destruct (fd =? -1); simpl; [auto|].
unfold bind, call_close. simpl. destruct (_ =? 0); simpl; auto.
Qed.

Lemma handles_wait fuel this pd timeout (w : W) :
opened_handles (trace (wait_readable fuel this pd timeout w)) = [] /\
closed_handles (trace (wait_readable fuel this pd timeout w)) = [].
Proof.
revert pd timeout w. induction fuel as [|fuel IH]; intros pd timeout w; [simpl; auto|].
rewrite wait_readable_unfold. cbv zeta.
destruct (negb _ && _); simpl; [|auto].
destruct (m_break this || _); simpl; [auto|].
destruct (timeout >? PIPE_WAIT_INTERVAL); simpl; [apply IH|auto].
Qed.

Lemma handles_drain fuel handle message (w : W) :
opened_handles (trace (drain fuel handle message w)) = [] /\
closed_handles (trace (drain fuel handle message w)) = [].
Proof.
revert message w. induction fuel as [|fuel IH]; intros message w; [simpl; auto|].
rewrite drain_unfold. cbv zeta.
destruct (_ >? 0); simpl; [apply IH|].
destruct (_ && _); simpl; auto.
Qed.

Lemma handles_write p message messageSize timeout (w : W) :
let tr := trace (write p message messageSize timeout w) in
closed_handles tr = opened_handles tr /\ (length (opened_handles tr) <= 1)%nat.
Proof.
cbv zeta.
destruct (open_retry_spec (attempts timeout) p timeout w (le_n _))
  as (k & _ & [(fd & Hne & Hres & Htr)|(Hres & _ & Htr)]).
- rewrite (write_after_open _ _ _ _ _ _ _ Hres). cbn [trace].
  rewrite Htr, <- !app_assoc, !opened_handles_app, !closed_handles_app.
  destruct (handles_retries k p wr_flags) as [-> ->].
  cbn [opened_handles closed_handles app].
  destruct (handles_dtor fd
    (sys_write fd (take messageSize message)
       (world (open_retry (attempts timeout) p timeout w))).2) as [-> ->].
  destruct (Z.eqb_spec fd (-1)); [contradiction|]. simpl. auto.
- rewrite (write_no_open _ _ _ _ _ _ Hres). cbn [trace].
  rewrite Htr, !opened_handles_app, !closed_handles_app.
  destruct (handles_retries k p wr_flags) as [-> ->]. simpl. auto.
Qed.

Lemma handles_read fuel this timeout (w : W) :
let tr := trace (read_blocking fuel this timeout w) in
result (read_blocking fuel this timeout w) <> Diverges ->
closed_handles tr = opened_handles tr /\ (length (opened_handles tr) <= 1)%nat.
Proof.
cbv zeta. rewrite read_blocking_unfold. cbv zeta.
set (o := sys_open (m_pipePath this) rd_flags w).
destruct (Z.eqb_spec o.1 (-1)) as [E|E].
{ intros _. cbn [trace opened_handles closed_handles]. rewrite E. simpl. auto. }
set (b := bind _ _ _).
assert (Hb : opened_handles (trace b) = [] /\ closed_handles (trace b) = []).
{ unfold b, bind.
  destruct (handles_wait (attempts timeout) this (Pollfd o.1 POLLIN (-1)) timeout o.2)
    as [Hw1 Hw2].
  destruct (result (wait_readable _ _ _ _ _)); cbn [trace]; auto.
  rewrite opened_handles_app, closed_handles_app, Hw1, Hw2.
  apply handles_drain. }
destruct Hb as [Hb1 Hb2].
destruct (handles_dtor o.1 (world b)) as [Hd1 Hd2].
destruct (Z.eqb_spec o.1 (-1)); [contradiction|].
destruct (result b) eqn:Eb; cbn [result trace]; intros Hnd; try congruence;
  cbn [opened_handles closed_handles];
  destruct (Z.eqb_spec o.1 (-1)); try contradiction;
  rewrite opened_handles_app, closed_handles_app, Hb1, Hb2, Hd1, Hd2; simpl; auto.
Qed.
End Handles.

(** X2: write and read_blocking give back what they take.  In every run
    of write, and in every run of read_blocking that comes to an end, the
    handles closed are the handles opened, each once and there is at most
    one: the handle is closed on return and on every exception, and after a
    failed open nothing is closed. *)
Theorem handles_closed_once :
  forall (W : Type) (HW : Posix W) (w : W),
    (forall p message messageSize timeout,
       let tr := trace (write p message messageSize timeout w) in
       closed_handles tr = opened_handles tr /\ (length (opened_handles tr) <= 1)%nat) /\
    (forall fuel this timeout,
       let tr := trace (read_blocking fuel this timeout w) in
       result (read_blocking fuel this timeout w) <> Diverges ->
       closed_handles tr = opened_handles tr /\ (length (opened_handles tr) <= 1)%nat).
Proof.
  intros W HW w. split.
  - intros p message messageSize timeout. apply handles_write.
  - intros fuel this timeout tr Hnd. apply handles_read, Hnd.
Qed.

Lemma handles_closed_once_witness :
  let tr := trace (read_blocking 1 Scenario.ioTestPipe 3
                     (Scenario.created Scenario.machine)) in
  closed_handles tr = [3] /\ opened_handles tr = [3].
Proof.
  cbv zeta.
  destruct (proj2 (handles_closed_once Kernel.kernel _ (Scenario.created Scenario.machine))
              1%nat Scenario.ioTestPipe 3) as [Heq _].
  - vm_compute. discriminate.
  - split; [rewrite Heq|]; vm_compute; reflexivity.
Defined.

(** ** Data that is already there *)

(** X3: when the first poll of read_blocking reports POLLIN, or fails,
    the readiness loop is left at once and the call goes on to read: its
    outcome is the read loop's, after exactly one poll, for every timeout
    (zero and negative ones too) and whether or not the object has been
    interrupted.  Neither the budget nor the flag is looked at. *)
Theorem read_without_waiting :
  forall (W : Type) (HW : Posix W) (fuel : nat) (this : NamedPipe) (timeout : Z) (w : W),
    let o := sys_open (m_pipePath this) rd_flags w in
    let q := sys_poll (Pollfd o.1 POLLIN (-1)) PIPE_WAIT_INTERVAL o.2 in
    o.1 <> -1 ->
    q.1.1 = -1 \/ Z.land q.1.2 POLLIN <> 0 ->
    result (read_blocking fuel this timeout w) = result (drain fuel o.1 [] q.2) /\
    count is_poll (trace (read_blocking fuel this timeout w)) = 1%nat.
Proof.
  intros W HW fuel this timeout w o q Ho Hq.
  assert (Hwt : wait_readable (attempts timeout) this (Pollfd o.1 POLLIN (-1)) timeout o.2 =
                Run (Returns timeout) q.2
                    [EvPoll o.1 POLLIN PIPE_WAIT_INTERVAL q.1.1 q.1.2]).
  { pose proof (attempts_pos timeout) as Hpos.
    destruct (attempts timeout) as [|n]; [lia|].
    rewrite wait_readable_unfold. cbv zeta. fold q.
    destruct Hq as [Hq|Hq].
    - rewrite Hq. reflexivity.
    - destruct (Z.eqb_spec (Z.land q.1.2 POLLIN) 0); [contradiction|].
      rewrite andb_false_r. reflexivity. }
  rewrite read_blocking_unfold. cbv zeta. fold o.
  destruct (Z.eqb_spec o.1 (-1)); [contradiction|].
  unfold bind. rewrite Hwt. cbn [result world trace].
  pose proof (drain_polls fuel o.1 [] q.2) as Hdp.
  destruct (dtor_counts o.1 (world (drain fuel o.1 [] q.2))) as (_ & _ & _ & Hcp).
  destruct (result (drain fuel o.1 [] q.2)) eqn:Ed; cbn [result trace count is_poll app];
    rewrite ?count_app, ?Hdp, ?Hcp; auto.
Qed.

Lemma read_without_waiting_witness :
  let w := world (write Scenario.pipeName Scenario.message3 5 1000
                    (Scenario.listening Scenario.machine)) in
  let this := interrupt Scenario.ioTestPipe in
  let o := sys_open (m_pipePath this) rd_flags w in
  let q := sys_poll (Pollfd o.1 POLLIN (-1)) PIPE_WAIT_INTERVAL o.2 in
  result (read_blocking 2 this 0 w) = result (drain 2 o.1 [] q.2) /\
  count is_poll (trace (read_blocking 2 this 0 w)) = 1%nat.
Proof.
  pose proof (read_without_waiting Kernel.kernel _ 2 (interrupt Scenario.ioTestPipe) 0
                (world (write Scenario.pipeName Scenario.message3 5 1000
                          (Scenario.listening Scenario.machine)))) as Hread.
  cbv zeta in Hread |- *. apply Hread.
  - vm_compute. discriminate.
  - right. vm_compute. discriminate.
Defined.

(** A message that waits in the pipe is read by an interrupted object
    with a zero timeout. *)
Lemma interrupted_object_reads_waiting_message :
  result (read_blocking 2 (interrupt Scenario.ioTestPipe) 0
            (world (write Scenario.pipeName Scenario.message3 5 1000
                      (Scenario.listening Scenario.machine))))
    = Returns Scenario.message3.
Proof. vm_compute. reflexivity. Qed.

(** ** Moves and destruction together *)

Lemma destroy_releases_once_trace {W : Type} `{Posix W} (this : NamedPipe) (w : W) :
  trace (destroy this w) =
    EvStoreBreak true ::
      (if isValid this then
         EvRemove (m_pipePath this) (fs_remove (m_pipePath this) w).1 ::
           (if (fs_remove (m_pipePath this) w).1 =? 0 then []
            else [EvCerr "Failed at deleting pipe-object: "
                         (Some (fs_remove (m_pipePath this) w).1)])
       else []).
Proof.
  destruct this as [p b]. unfold isValid, destroy. simpl.
  destruct p as [|c p]; simpl; [reflexivity|].
  unfold bind, store_event, call_remove, cerr, ret. simpl.
  destruct (_ =? 0); reflexivity.
Qed.

(** X4: after a move, destroying the moved-from object (or letting its
    destructor run) makes no call into the operating system and leaves the
    world as it is, and destroying the destination does to the world what
    destroying the original would have done: the pipe is removed once, by
    its new owner.  A move assignment does not release what the destination
    owned before: no remove of that path is ever issued by either object. *)
Theorem moved_from_destroy_is_inert :
  forall (W : Type) (HW : Posix W) (this other : NamedPipe) (w w' : W),
    let gone := MkNamedPipe EmptyString true in
    destroy (move_construct other).2 w = Run (Returns gone) w [EvStoreBreak true] /\
    destroy (move_assign this other).2 w = Run (Returns gone) w [EvStoreBreak true] /\
    destroy (move_construct other).1 w = destroy other w /\
    destroy (move_assign this other).1 w = destroy other w /\
    (forall errorCode,
       m_pipePath this <> m_pipePath other ->
       ~ In (EvRemove (m_pipePath this) errorCode)
            (trace (destroy (move_assign this other).1 w) ++
             trace (destroy (move_assign this other).2 w'))).
Proof.
  intros W HW this other w w' gone.
  assert (Hsame : forall b, destroy (MkNamedPipe (m_pipePath other) b) w = destroy other w).
  { intros b. destruct other as [p b']. reflexivity. }
  split; [reflexivity|]. split; [reflexivity|].
  split; [apply Hsame|]. split; [apply Hsame|].
  intros errorCode Hne Hin. apply in_app_iff in Hin.
  destruct Hin as [Hin|Hin].
  - change (move_assign this other).1 with (MkNamedPipe (m_pipePath other) (m_break this)) in Hin.
    rewrite Hsame in Hin.
    pose proof (destroy_releases_once_trace other w) as Htr. rewrite Htr in Hin.
    destruct Hin as [Hin|Hin]; [discriminate|].
    destruct (isValid other); [|contradiction].
    destruct Hin as [Hin|Hin]; [congruence|].
    destruct (_ =? 0); [contradiction|]. destruct Hin as [Hin|[]]. discriminate.
  - simpl in Hin. destruct Hin as [Hin|[]]. discriminate.
Qed.

Lemma moved_from_destroy_is_inert_witness :
  ~ In (EvRemove "oldPipe" 0)
       (trace (destroy (move_assign (NamedPipe_of_path "oldPipe") Scenario.ioTestPipe).1
                 (Scenario.created Scenario.machine)) ++
        trace (destroy (move_assign (NamedPipe_of_path "oldPipe") Scenario.ioTestPipe).2
                 (Scenario.created Scenario.machine))).
Proof.
  apply (moved_from_destroy_is_inert Kernel.kernel _ (NamedPipe_of_path "oldPipe")
           Scenario.ioTestPipe (Scenario.created Scenario.machine)
           (Scenario.created Scenario.machine)).
  discriminate.
Defined.

(** ** The life of a pipe in the kernel *)

Section Lifecycle.
Import Kernel.

(** X5: in a directory that can be written, on a name of an entry (no
  directory part, at most NAME_MAX characters, not "." or "..") that is
  not taken, create returns a valid object for it and exists turns from
  false to true; a second create on the name raises
  PipeException(EEXIST, "Create"); destroy removes the entry without a
  diagnostic, leaves the object invalid, and exists is false again, so
  that the name can be created anew. *)
Theorem create_exists_destroy_cycle :
forall (k : kernel) (p : path),
  plain_name p = true ->
  names k !! p = None ->
  let pipe := NamedPipe_of_path p in
  let c := create p k in
  let d := destroy pipe (world c) in
  exists_ p k = Answer false /\
  result c = Returns pipe /\
  isValid pipe = true /\
  exists_ p (world c) = Answer true /\
  result (create p (world c)) = Throws (PipeException EEXIST "Create") /\
  d = Run (Returns (MkNamedPipe EmptyString true)) (world d)
          [EvStoreBreak true; EvRemove p 0] /\
  exists_ p (world d) = Answer false /\
  result (create p (world d)) = Returns pipe.
Proof.
intros k p Hplain Hfree pipe c d.
assert (Hp : p <> EmptyString) by (intros ->; discriminate Hplain).
assert (Hc : c = Run (Returns pipe)
               (MkKernel (<[p := next_inode k]> (names k))
                         (<[next_inode k := Fifo [] 0 0 0]> (inodes k))
                         (fds k) (next_fd k) (S (next_inode k)) (k_errno k)
                         (capacity k) (pipe_buf k))
               [EvMkfifo p (Z.lor S_IRUSR S_IWUSR) 0]).
{ unfold c. rewrite create_run. cbv zeta.
  change (sys_mkfifo p (Z.lor _ _) k)
    with (k_mkfifo p (Z.lor S_IRUSR S_IWUSR) k).
  unfold k_mkfifo. rewrite Hfree. reflexivity. }
split.
{ unfold exists_. change (fs_exists p k) with (Answer (k_exists p k)).
  unfold k_exists. rewrite Hfree. reflexivity. }
split; [rewrite Hc; reflexivity|].
split; [destruct p; [contradiction|reflexivity]|].
rewrite Hc in *. cbn [world] in *.
set (k1 := MkKernel _ _ _ _ _ _ _ _) in *.
assert (Hk1 : names k1 !! p = Some (next_inode k)) by apply lookup_insert_eq.
split.
{ unfold exists_. change (fs_exists p k1) with (Answer (k_exists p k1)).
  unfold k_exists. rewrite Hk1. reflexivity. }
split.
{ rewrite create_run. cbv zeta.
  change (sys_mkfifo p (Z.lor _ _) k1)
    with (k_mkfifo p (Z.lor S_IRUSR S_IWUSR) k1).
  unfold k_mkfifo. rewrite Hk1. reflexivity. }
assert (Hd : d = Run (Returns (MkNamedPipe EmptyString true)) (k_remove p k1).2
                     [EvStoreBreak true; EvRemove p 0]).
{ unfold d. rewrite Hc. cbn [world].
  unfold pipe, NamedPipe_of_path, destroy. cbn [m_pipePath m_break].
  destruct p as [|a p]; [contradiction|]. reflexivity. }
rewrite Hd. cbn [world].
assert (Hgone : names (k_remove p k1).2 !! p = None) by apply lookup_delete_eq.
split; [reflexivity|]. split.
{ unfold exists_.
  change (fs_exists p (k_remove p k1).2) with (Answer (k_exists p (k_remove p k1).2)).
  unfold k_exists. rewrite Hgone. reflexivity. }
rewrite create_run. cbv zeta.
change (sys_mkfifo p (Z.lor _ _) (k_remove p k1).2)
  with (k_mkfifo p (Z.lor S_IRUSR S_IWUSR) (k_remove p k1).2).
unfold k_mkfifo. rewrite Hgone. reflexivity.
Qed.
End Lifecycle.

Lemma create_exists_destroy_cycle_witness :
  exists_ Scenario.pipeName (Scenario.created Scenario.machine) = Answer true /\
  result (create Scenario.pipeName (Scenario.created Scenario.machine))
    = Throws (PipeException Kernel.EEXIST "Create").
Proof.
  destruct (create_exists_destroy_cycle Scenario.machine Scenario.pipeName)
    as (_ & _ & _ & Hex & Hagain & _).
  - reflexivity.
  - reflexivity.
  - split; [exact Hex|exact Hagain].
Defined.

(** ** Nobody at the other end *)

Section NoPeer.
Import Kernel.


(** X6: read_blocking does not wait for a pipe to appear.  On a path at
  which nothing exists, as is the empty path of a default-constructed,
  moved-from or destroyed object, it raises PipeException(ENOENT, "Open")
  straight after the failed open, for every timeout: no poll, no read, no
  close, and the kernel is as before but for errno. *)
Theorem read_missing_pipe_fails_at_once :
forall (k : kernel) (this : NamedPipe) (fuel : nat) (timeout : Z),
  names k !! m_pipePath this = None ->
  read_blocking fuel this timeout k =
  Run (Throws (PipeException ENOENT "Open")) (set_errno ENOENT k)
      [EvOpen (m_pipePath this) rd_flags (-1)].
Proof.
intros k this fuel timeout Hnone. rewrite read_blocking_unfold. cbv zeta.
change (sys_open (m_pipePath this) rd_flags k) with (k_open (m_pipePath this) rd_flags k).
unfold k_open. rewrite Hnone. reflexivity.
Qed.

Lemma read_missing_pipe_fails_at_once_witness :
result (read_blocking 1 (MkNamedPipe EmptyString true) 5000
          (Scenario.created Scenario.machine))
  = Throws (PipeException ENOENT "Open").
Proof.
rewrite (read_missing_pipe_fails_at_once (Scenario.created Scenario.machine)
           (MkNamedPipe EmptyString true) 1 5000); reflexivity.
Defined.


End NoPeer.

(** ** What reading and writing leave alone *)


Section Namespace.
Context {W : Type} `{Posix W}.






End Namespace.


(** ** One exchange after another *)

(** what the calls of the kernel leave of its names and pipe sizes *)
Section KernelNames.
Import Kernel Threads.

Lemma same_namespace_refl k : same_namespace k k.
Proof. unfold same_namespace. repeat split; lia. Qed.

Lemma same_namespace_trans k1 k2 k3 :
same_namespace k1 k2 -> same_namespace k2 k3 -> same_namespace k1 k3.
Proof.
unfold same_namespace. intros (? & ? & ? & ?) (? & ? & ? & ?).
repeat split; try congruence. lia.
Qed.

Lemma same_namespace_errno e k : same_namespace k (set_errno e k).
Proof. unfold same_namespace. simpl. repeat split; lia. Qed.

Lemma k_open_namespace p flags k : same_namespace k (k_open p flags k).2.
Proof.
unfold k_open, fail, install.
repeat match goal with
       | |- context [match ?x with _ => _ end] => destruct x
       end; unfold same_namespace; simpl; repeat split; lia.
Qed.

Lemma k_close_namespace fd k : same_namespace k (k_close fd k).2.
Proof.
unfold k_close, fail. destruct (fds k !! fd);
  unfold same_namespace; simpl; repeat split; lia.
Qed.

Lemma k_read_namespace fd n k : same_namespace k (k_read fd n k).2.
Proof.
unfold k_read.
repeat match goal with
       | |- context [match ?x with _ => _ end] => destruct x
       end; unfold same_namespace; simpl; repeat split; lia.
Qed.

Lemma k_write_namespace fd bytes k : same_namespace k (k_write fd bytes k).2.
Proof.
unfold k_write, fail.
repeat match goal with
       | |- context [match ?x with _ => _ end] => destruct x
       end; unfold same_namespace; simpl; repeat split; lia.
Qed.

Lemma dtor_namespace fd k : same_namespace k (world (FileHandleWrapper_dtor fd k)).
Proof.
unfold FileHandleWrapper_dtor. destruct (negb _); [|apply same_namespace_refl].
unfold bind, call_close. cbn [result world fst snd].
change (sys_close fd k) with (k_close fd k).
destruct (negb _); cbn [world cerr ret]; apply k_close_namespace.
Qed.

Lemma open_retry_namespace fuel p timeout k :
same_namespace k (world (open_retry fuel p timeout k)).
Proof.
revert timeout k. induction fuel as [|fuel IH]; intros timeout k;
  [apply same_namespace_refl|].
rewrite open_retry_unfold. cbv zeta.
change (sys_open p wr_flags k) with (k_open p wr_flags k).
pose proof (k_open_namespace p wr_flags k) as Ho.
destruct (_ =? -1); [|exact Ho].
destruct (timeout >? 1); [|exact Ho]. cbn [world].
eapply same_namespace_trans; [exact Ho|]. apply IH.
Qed.

Lemma write_namespace p message messageSize timeout k :
same_namespace k (world (write p message messageSize timeout k)).
Proof.
pose proof (open_retry_namespace (attempts timeout) p timeout k) as Ho.
destruct (result (open_retry (attempts timeout) p timeout k)) as [[fd t]|e|] eqn:Hres.
- rewrite (write_after_open _ _ _ _ _ _ _ Hres). cbn [world].
  eapply same_namespace_trans; [exact Ho|].
  eapply same_namespace_trans; [|apply dtor_namespace].
  apply k_write_namespace.
- rewrite (write_no_open _ _ _ _ _ _ Hres). exact Ho.
- destruct (open_retry_spec (attempts timeout) p timeout k (le_n _))
    as (n & _ & [(fd & _ & Hr & _)|(Hr & _ & _)]); congruence.
Qed.

Lemma tick_namespace s : same_namespace (kern s) (kern (tick s)).
Proof.
unfold tick, run_interrupter, run_writer. cbn [kern].
destruct (writer s) as [pr|]; [|apply same_namespace_refl].
destruct (delay pr); cbn [kern]; [|apply same_namespace_refl].
eapply same_namespace_trans; [apply write_namespace|apply same_namespace_errno].
Qed.

Lemma wait_namespace fuel this pd timeout s :
same_namespace (kern s) (kern (world (wait_readable fuel this pd timeout s))).
Proof.
revert pd timeout s. induction fuel as [|fuel IH]; intros pd timeout s;
  [apply same_namespace_refl|].
rewrite wait_readable_unfold. cbv zeta.
change (sys_poll pd PIPE_WAIT_INTERVAL s)
  with (on_kern (k_poll pd PIPE_WAIT_INTERVAL) (tick s)).
pose proof (tick_namespace s) as Ht.
assert (Hq : same_namespace (kern s)
               (kern (on_kern (k_poll pd PIPE_WAIT_INTERVAL) (tick s)).2)) by exact Ht.
destruct (negb _ && _); [|exact Hq].
destruct (m_break this || _); [exact Hq|].
destruct (timeout >? PIPE_WAIT_INTERVAL); [|exact Hq]. cbn [world].
eapply same_namespace_trans; [exact Hq|]. apply IH.
Qed.

Lemma drain_namespace fuel fd message s :
same_namespace (kern s) (kern (world (drain fuel fd message s))).
Proof.
revert message s. induction fuel as [|fuel IH]; intros message s;
  [apply same_namespace_refl|].
rewrite drain_unfold. cbv zeta.
change (sys_read fd PIPE_BUFFER_SIZE s) with (on_kern (k_read fd PIPE_BUFFER_SIZE) s).
assert (Hr : same_namespace (kern s) (kern (on_kern (k_read fd PIPE_BUFFER_SIZE) s).2))
  by apply k_read_namespace.
destruct (_ >? 0); cbn [world].
- eapply same_namespace_trans; [exact Hr|]. apply IH.
- destruct (_ && _); exact Hr.
Qed.

Lemma dtor_system_namespace fd s :
same_namespace (kern s) (kern (world (FileHandleWrapper_dtor fd s))).
Proof.
unfold FileHandleWrapper_dtor. destruct (negb _); [|apply same_namespace_refl].
unfold bind, call_close. cbn [result world fst snd].
change (sys_close fd s) with (on_kern (k_close fd) s).
destruct (negb _); cbn [world cerr ret]; apply k_close_namespace.
Qed.

Lemma read_blocking_namespace fuel this timeout s :
same_namespace (kern s) (kern (world (read_blocking fuel this timeout s))).
Proof.
rewrite read_blocking_unfold. cbv zeta.
change (sys_open (m_pipePath this) rd_flags s)
  with (on_kern (k_open (m_pipePath this) rd_flags) s).
set (o := on_kern (k_open (m_pipePath this) rd_flags) s).
assert (Ho : same_namespace (kern s) (kern o.2)) by apply k_open_namespace.
destruct (_ =? -1); [exact Ho|].
set (b := bind _ _ _).
assert (Hb : same_namespace (kern s) (kern (world b))).
{ eapply same_namespace_trans; [exact Ho|]. unfold b, bind.
  pose proof (wait_namespace (attempts timeout) this (Pollfd o.1 POLLIN (-1)) timeout o.2)
    as Hw.
  destruct (result (wait_readable _ _ _ _ _)); cbn [world]; try exact Hw.
  eapply same_namespace_trans; [exact Hw|]. apply drain_namespace. }
destruct (result b); cbn [world]; try exact Hb;
  (eapply same_namespace_trans; [exact Hb|apply dtor_system_namespace]).
Qed.
End KernelNames.


Section Repeat.
Import Kernel Threads.

Lemma drain_empties fd i :
forall (fuel : nat) (c message : list byte) (s : system) rd wc v,
  fds (kern s) !! fd = Some (File i false v) ->
  inodes (kern s) !! i = Some (Fifo c rd O wc) ->
  (length c < fuel)%nat ->
  inodes (kern (world (drain fuel fd message s))) !! i = Some (Fifo [] rd O wc) /\
  fds (kern (world (drain fuel fd message s))) !! fd = Some (File i false v).
Proof.
induction fuel as [|fuel IH]; intros c message s rd wc v Hfd Hi Hlen; [lia|].
rewrite drain_unfold. cbv zeta.
change (sys_read fd PIPE_BUFFER_SIZE s)
  with (on_kern (k_read fd PIPE_BUFFER_SIZE) s).
unfold on_kern, k_read. rewrite Hfd. cbn [inode writable]. rewrite Hi.
cbn [content writers readers w_counter].
destruct c as [|b c].
- cbn [fst snd]. change (0 >? 0) with false. change (0 =? -1) with false.
  cbn [andb result world kern]. auto.
- set (got := take (Z.to_nat PIPE_BUFFER_SIZE) (b :: c)).
  cbn [fst snd].
  assert (Hgot : (0 < length got)%nat) by (unfold got, PIPE_BUFFER_SIZE; simpl; lia).
  destruct (Z.gtb_spec (Z.of_nat (length got)) 0) as [_|]; [|lia].
  cbn [result world].
  set (s' := System _ _ _ _).
  apply (IH (drop (Z.to_nat PIPE_BUFFER_SIZE) (b :: c)) _ s' rd wc v).
  + unfold s', set_inode. cbn [kern fds]. exact Hfd.
  + unfold s', set_inode. cbn [kern inodes]. apply lookup_insert_eq.
  + rewrite length_drop. unfold PIPE_BUFFER_SIZE. simpl in *. lia.
Qed.

(** The pipe after the exchange of [read_with_writer]. *)
Lemma read_with_writer_leaves_fresh (k : kernel) (this : NamedPipe) (bytes : list byte)
  (d : nat) (timeout wtimeout : Z) (fuel : nat) :
fresh_pipe k (m_pipePath this) ->
m_break this = false ->
bytes <> [] ->
Z.of_nat (length bytes) <= capacity k ->
(d < attempts timeout)%nat ->
(length bytes < fuel)%nat ->
let r := read_blocking fuel this timeout
           (with_writer k d (m_pipePath this) bytes wtimeout) in
fresh_pipe (kern (world r)) (m_pipePath this).
Proof.
intros Hfresh Hbrk Hne Hcap Hd Hfuel r.
assert (Hfd : 0 <= next_fd k) by (destruct Hfresh as (? & ? & _ & _ & _ & _ & ?); assumption).
destruct (open_read_fresh k (m_pipePath this) Hfresh)
  as (i & rd & wc & Hofd & Hwait & Hcap1 & _).
pose proof (read_blocking_namespace fuel this timeout
              (with_writer k d (m_pipePath this) bytes wtimeout)) as Hns.
fold r in Hns. cbn [with_writer kern] in Hns.
set (s0 := with_writer k d (m_pipePath this) bytes wtimeout) in *.
set (k1 := (k_open (m_pipePath this) rd_flags k).2) in *.
assert (Hnames : names k !! m_pipePath this = Some i).
{ destruct Hwait as (Hn & _). rewrite <- Hn.
  destruct (k_open_namespace (m_pipePath this) rd_flags k) as (Heq & _).
  fold k1 in Heq. rewrite Heq. reflexivity. }
assert (Ho : sys_open (m_pipePath this) rd_flags s0 =
             (next_fd k,
              System k1 (Some (Peer d (m_pipePath this) bytes (length bytes) wtimeout))
                     None None)).
{ change (sys_open (m_pipePath this) rd_flags s0)
    with (on_kern (k_open (m_pipePath this) rd_flags) s0).
  unfold on_kern, s0, with_writer. cbn [kern writer writer_result interrupter].
  rewrite Hofd. reflexivity. }
destruct (wait_for_writer this (m_pipePath this) (next_fd k) i rd wc bytes wtimeout
            Hbrk Hne d (attempts timeout) timeout (-1) k1 Hwait)
  as (t & k' & Hres & Hworld & Hdel); [lia|assumption|assumption|].
destruct Hdel as [Hi' Hfd'].
destruct (drain_empties (next_fd k) i fuel bytes []
            (System k' None (Some (Returns tt)) None) (S rd) (S wc) wc Hfd' Hi' Hfuel)
  as [Hinode Hfile].
assert (Hnd : result (drain fuel (next_fd k) []
                        (System k' None (Some (Returns tt)) None)) = Returns bytes).
{ apply (drain_delivered (next_fd k) i fuel bytes []
           (System k' None (Some (Returns tt)) None) (S rd) (S wc) wc Hfd' Hi' Hfuel). }
set (sd := world (drain fuel (next_fd k) [] (System k' None (Some (Returns tt)) None))) in *.
assert (Hr : world r = world (FileHandleWrapper_dtor (next_fd k) sd)).
{ subst r. rewrite read_blocking_unfold. cbv zeta. rewrite Ho. cbn [fst snd].
  destruct (Z.eqb_spec (next_fd k) (-1)); [lia|].
  rewrite (bind_returns _ _ _ _ Hres). cbn [result world trace].
  rewrite Hworld, Hnd. reflexivity. }
assert (Hclose : inodes (kern (world (FileHandleWrapper_dtor (next_fd k) sd))) !! i
                 = Some (Fifo [] rd O (S wc))).
{ unfold FileHandleWrapper_dtor, invalid_handle.
  destruct (Z.eqb_spec (next_fd k) (-1)); [lia|]. cbn [negb].
  unfold bind, call_close. cbn [result world fst snd].
  change (sys_close (next_fd k) sd) with (on_kern (k_close (next_fd k)) sd).
  unfold on_kern, k_close. rewrite Hfile. cbn [inode writable]. rewrite Hinode.
  cbn [fst snd content readers writers w_counter pred].
  destruct (negb _); cbn [world cerr ret kern inodes]; apply lookup_insert_eq. }
rewrite <- Hr in Hclose.
exists i, (Fifo [] rd O (S wc)).
destruct Hns as (Hn & _ & _ & Hnext).
rewrite Hn. repeat split; try assumption; try reflexivity. lia.
Qed.
End Repeat.

(** X9: an exchange leaves the pipe as create() left it, so it can be
    repeated.  After a round trip of a non-empty message that fits, the
    FIFO is empty again with no writer, and a second message sent to the
    same object while it reads again arrives whole as well: read_blocking
    returns the first message in the first call and the second in the
    second. *)
Theorem exchange_can_be_repeated :
  forall (k : Kernel.kernel) (this : NamedPipe) (B1 B2 : list byte)
         (d1 d2 : nat) (timeout wtimeout : Z) (fuel : nat),
    fresh_pipe k (m_pipePath this) ->
    m_break this = false ->
    B1 <> [] -> B2 <> [] ->
    Z.of_nat (length B1) <= Kernel.capacity k ->
    Z.of_nat (length B2) <= Kernel.capacity k ->
    (d1 < attempts timeout)%nat -> (d2 < attempts timeout)%nat ->
    (length B1 < fuel)%nat -> (length B2 < fuel)%nat ->
    let r1 := read_blocking fuel this timeout
                (Threads.with_writer k d1 (m_pipePath this) B1 wtimeout) in
    let k1 := Threads.kern (world r1) in
    let r2 := read_blocking fuel this timeout
                (Threads.with_writer k1 d2 (m_pipePath this) B2 wtimeout) in
    result r1 = Returns B1 /\
    fresh_pipe k1 (m_pipePath this) /\
    result r2 = Returns B2.
Proof.
  intros k this B1 B2 d1 d2 timeout wtimeout fuel Hfresh Hbrk Hn1 Hn2 Hc1 Hc2 Hd1 Hd2
         Hf1 Hf2 r1 k1 r2.
  pose proof (read_with_writer k this B1 d1 timeout wtimeout fuel
                Hfresh Hbrk Hn1 Hc1 Hd1 Hf1) as [Hres1 _].
  pose proof (read_with_writer_leaves_fresh k this B1 d1 timeout wtimeout fuel
                Hfresh Hbrk Hn1 Hc1 Hd1 Hf1) as Hfresh1.
  pose proof (read_blocking_namespace fuel this timeout
                (Threads.with_writer k d1 (m_pipePath this) B1 wtimeout)) as (_ & Hcap & _).
  fold r1 in Hres1, Hfresh1, Hcap. fold k1 in Hfresh1, Hcap. cbn in Hcap.
  split; [exact Hres1|]. split; [exact Hfresh1|].
  apply (read_with_writer k1 this B2 d2 timeout wtimeout fuel); try assumption.
  rewrite Hcap. exact Hc2.
Qed.

Lemma exchange_can_be_repeated_witness :
  let r1 := read_blocking 6 Scenario.ioTestPipe 5000
              (Threads.with_writer (Scenario.created Scenario.machine) 1000
                 Scenario.pipeName Scenario.message2 1000) in
  result (read_blocking 6 Scenario.ioTestPipe 5000
            (Threads.with_writer (Threads.kern (world r1)) 10
               Scenario.pipeName Scenario.message3 1000))
    = Returns Scenario.message3.
Proof.
  apply (exchange_can_be_repeated (Scenario.created Scenario.machine)
           Scenario.ioTestPipe Scenario.message2 Scenario.message3 1000 10 5000 1000 6).
  - exact created_is_fresh.
  - reflexivity.
  - discriminate.
  - discriminate.
  - vm_compute. discriminate.
  - vm_compute. discriminate.
  - vm_compute. lia.
  - vm_compute. lia.
  - vm_compute. lia.
  - vm_compute. lia.
Defined.

(** ** What an exception says *)

Lemma append_cancel_l (s a b : string) : (s ++ a = s ++ b)%string -> a = b.
Proof. induction s as [|c s IH]; simpl; [auto|]. intros [= Heq]. auto. Qed.

Lemma to_string_inj (c1 c2 : Z) : to_string c1 = to_string c2 -> c1 = c2.
Proof.
  unfold to_string. intros Heq.
  assert (Hnn : forall z, Z.to_int z <> Decimal.Pos Decimal.Nil /\
                          Z.to_int z <> Decimal.Neg Decimal.Nil).
  { intros [|p|p]; simpl; split; try discriminate;
      intros [= Hp]; exact (DecimalPos.Unsigned.to_uint_nonnil p Hp). }
  apply DecimalZ.to_int_inj.
  assert (Hs : Some (Z.to_int c1) = Some (Z.to_int c2)).
  { rewrite <- (DecimalString.NilZero.isi (Z.to_int c1)) by apply Hnn.
    rewrite <- (DecimalString.NilZero.isi (Z.to_int c2)) by apply Hnn.
    rewrite Heq. reflexivity. }
  congruence.
Qed.

Lemma context_cancel (ctx1 ctx2 rest1 rest2 : string) :
  has_quote ctx1 = false -> has_quote ctx2 = false ->
  (ctx1 ++ String quote_char rest1 = ctx2 ++ String quote_char rest2)%string ->
  ctx1 = ctx2 /\ rest1 = rest2.
Proof.
  revert ctx2. induction ctx1 as [|c ctx1 IH]; intros [|c' ctx2]; simpl.
  - intros _ _ [= Heq]. auto.
  - intros _ Hq [= Hc _]. rewrite <- Hc in Hq. rewrite Ascii.eqb_refl in Hq. discriminate.
  - intros Hq _ [= Hc _]. rewrite Hc in Hq. rewrite Ascii.eqb_refl in Hq. discriminate.
  - destruct (Ascii.eqb c quote_char); [discriminate|].
    destruct (Ascii.eqb c' quote_char); [discriminate|].
    intros H1 H2 [= Hc Heq]. destruct (IH ctx2 H1 H2 Heq). split; congruence.
Qed.

(** X10: what() of an OS error tells the action and the code apart.  Two
    PipeExceptions whose contexts hold no double quote - as with every
    context the code uses - have the same message only when their codes and
    contexts are the same, zero and negative codes included; and no such
    message is the text of TimeoutException. *)
Theorem what_identifies_error :
  forall (c1 c2 : Z) (ctx1 ctx2 : string),
    has_quote ctx1 = false -> has_quote ctx2 = false ->
    (what (PipeException c1 ctx1) = what (PipeException c2 ctx2) ->
     c1 = c2 /\ ctx1 = ctx2) /\
    what (PipeException c1 ctx1) <> what TimeoutException /\
    (forall label,
       In label ["Create"; "Write"; "Open"; "Read"; "CheckExistance"; "WaitNamedPipe";
                 "Open for write"; "Waiting for pending IO"; "Disconnect"; "Connect";
                 "Overlapped waiting"]%string ->
       has_quote label = false).
Proof.
  intros c1 c2 ctx1 ctx2 Hq1 Hq2. split; [|split].
  - unfold what, PipeException_message. intros [= Heq].
    destruct (context_cancel ctx1 ctx2
                (" returned error code " ++ to_string c1)%string
                (" returned error code " ++ to_string c2)%string Hq1 Hq2 Heq)
      as [Hctx Hrest].
    apply append_cancel_l in Hrest. apply to_string_inj in Hrest. auto.
  - unfold what, PipeException_message. simpl. intros [= Heq].
  - intros label Hin. simpl in Hin.
    repeat (destruct Hin as [<-|Hin]; [reflexivity|]). contradiction.
Qed.

Lemma what_identifies_error_witness :
  what (PipeException 17 "Create") <> what (PipeException 2 "Open").
Proof.
  intros Heq.
  destruct (proj1 (what_identifies_error 17 2 "Create" "Open" eq_refl eq_refl) Heq)
    as [Hcode _].
  discriminate.
Defined.

(** X22: the move assignment of FileHandleWrapper takes over the
    handle of the other wrapper and makes that one invalid, but does not
    close the handle the target held: when both wrappers are destroyed
    afterwards, the taken handle is closed once and the one the target held
    before is never closed. *)
Theorem wrapper_move_assign_drops_handle :
  forall (W : Type) (HW : Posix W) (held taken : Z) (w : W),
    taken <> invalid_handle ->
    held <> taken ->
    let after := FileHandleWrapper_move_assign held taken in
    let r := (FileHandleWrapper_dtor after.1 ;;; FileHandleWrapper_dtor after.2)%cpp w in
    result r = Returns tt /\
    closed_handles (trace r) = [taken] /\
    ~ In held (closed_handles (trace r)).
Proof.
  intros W HW held taken w Htaken Hheld after r.
  assert (Hr : result r = Returns tt /\ closed_handles (trace r) = [taken]).
  { unfold r, after, FileHandleWrapper_move_assign, FileHandleWrapper_dtor, bind, call_close,
      cerr, ret. cbn [fst snd].
    destruct (Z.eqb_spec taken invalid_handle) as [|_]; [contradiction|].
    rewrite Z.eqb_refl. cbn [negb result world trace].
    destruct (negb _); cbn [result world trace app closed_handles]; auto. }
  destruct Hr as [Hres Hclosed]. split; [exact Hres|]. split; [exact Hclosed|].
  rewrite Hclosed. intros [Hin|[]]. congruence.
Qed.

Lemma wrapper_move_assign_drops_handle_witness :
  closed_handles
    (trace ((FileHandleWrapper_dtor (FileHandleWrapper_move_assign 3 4).1 ;;;
             FileHandleWrapper_dtor (FileHandleWrapper_move_assign 3 4).2)%cpp
              Scenario.machine)) = [4].
Proof.
  apply (wrapper_move_assign_drops_handle _ _ 3 4 Scenario.machine).
  - discriminate.
  - discriminate.
Defined.

(** * Properties of the Windows backend *)

Ltac split_all := repeat match goal with |- _ /\ _ => split end.

Ltac close_case :=
  split_all; try discriminate; try lia; try reflexivity;
  try (intros ? Hd; discriminate Hd);
  try (intros ? [= <-]; first [split; lia | lia | auto; fail | eauto; fail]).

Lemma wcount_app f (tr1 tr2 : list WinIO.wevent) :
  wcount f (tr1 ++ tr2) = (wcount f tr1 + wcount f tr2)%nat.
Proof.
  induction tr1 as [|e tr1 IH]; simpl; [reflexivity|].
  destruct (f e); simpl; rewrite IH; reflexivity.
Qed.

Lemma slept_app (tr1 tr2 : list WinIO.wevent) : slept (tr1 ++ tr2) = slept tr1 + slept tr2.
Proof.
  induction tr1 as [|e tr1 IH]; simpl; [reflexivity|].
  destruct e; simpl; rewrite ?IH; lia.
Qed.

Lemma handles_closed_app (tr1 tr2 : list WinIO.wevent) :
  handles_closed (tr1 ++ tr2) = handles_closed tr1 ++ handles_closed tr2.
Proof.
  induction tr1 as [|e tr1 IH]; simpl; [reflexivity|].
  destruct e; simpl; rewrite ?IH; reflexivity.
Qed.

Lemma pending_attempts_pos timeout : (1 <= WinIO.pending_attempts timeout)%nat.
Proof. unfold WinIO.pending_attempts. lia. Qed.

Lemma pending_attempts_step timeout :
  10 < timeout ->
  WinIO.pending_attempts timeout = S (WinIO.pending_attempts (timeout - 10)).
Proof.
  intros Hgt. unfold WinIO.pending_attempts, ceil_div, WinIO.pendingWaitInterval.
  replace (timeout + 10 - 1) with ((timeout - 10 + 10 - 1) + 1 * 10) by lia.
  rewrite Z.div_add by lia.
  assert (0 <= (timeout - 10 + 10 - 1) / 10) by (apply Z.div_pos; lia).
  assert (1 <= (timeout - 10 + 10 - 1) / 10) by (apply Z.div_le_lower_bound; lia).
  lia.
Qed.

Section WinFacts.
Import WinIO.
Context {W : Type} `{Api W}.
Local Open Scope win_scope.

Lemma wbind_returns {A B} (m : WM W A) (k : A -> WM W B) (w : W) a :
wresult (m w) = Returns a ->
wbind m k w =
WRun (wresult (k a (wworld (m w)))) (wworld (k a (wworld (m w))))
     (wtrace (m w) ++ wtrace (k a (wworld (m w)))).
Proof. intros Hm. unfold wbind. rewrite Hm. reflexivity. Qed.

Lemma wbind_throws {A B} (m : WM W A) (k : A -> WM W B) (w : W) e :
wresult (m w) = Throws e ->
wbind m k w = WRun (Throws e) (wworld (m w)) (wtrace (m w)).
Proof. intros Hm. unfold wbind. rewrite Hm. reflexivity. Qed.

Lemma wfinally_result {A} (body : WM W A) (cleanup : WM W unit) (w : W) :
wresult (wfinally body cleanup w) = wresult (body w).
Proof. unfold wfinally. destruct (wresult (body w)) eqn:E; simpl; auto. Qed.

Lemma handle_dtor_run h (w : W) :
handle_dtor h w =
if h =? INVALID_HANDLE_VALUE then WRun (Returns tt) w []
else
  let c := CloseHandle h w in
  WRun (Returns tt) c.2
       (CloseHandle_ev h c.1 ::
          (if c.1 then [] else [Cerr_ev "Failed at closing guarded handle"])).
Proof.
unfold handle_dtor. destruct (h =? INVALID_HANDLE_VALUE); [reflexivity|].
unfold wbind, call_CloseHandle, wcerr, wret. cbn [negb wresult wworld wtrace fst snd].
destruct (CloseHandle h w).1; reflexivity.
Qed.

Lemma waitOnAsyncIO_unfold fuel handle timeout (w : W) :
waitOnAsyncIO (S fuel) handle timeout w =
let g := GetOverlappedResult handle false w in
let ev := GetOverlappedResult_ev handle false g.1.1.1 g.1.1.2 in
let e := GetLastError g.2 in
if negb g.1.1.1 && (e =? ERROR_IO_INCOMPLETE) then
  if timeout >? pendingWaitInterval then
    let r := waitOnAsyncIO fuel handle (timeout - pendingWaitInterval)
               (sleep_for pendingWaitInterval g.2) in
    WRun (wresult r) (wworld r) (ev :: Sleep_ev pendingWaitInterval :: wtrace r)
  else WRun (Throws TimeoutException) g.2 [ev]
else if negb g.1.1.1 then
  WRun (Throws (PipeException e "Waiting for pending IO")) g.2 [ev]
else WRun (Returns timeout) g.2 [ev].
Proof.
simpl. unfold wbind, call_GetOverlappedResult, last_error, call_sleep, wthrow, wret.
cbn [wresult wworld wtrace fst snd app].
destruct (negb _ && _); cbn [wresult wworld wtrace app].
- destruct (timeout >? pendingWaitInterval); reflexivity.
- destruct (negb _); reflexivity.
Qed.

(** The budget loop of waitOnAsyncIO. *)
Lemma waitOnAsyncIO_facts fuel handle timeout (w : W) :
(pending_attempts timeout <= fuel)%nat ->
let r := waitOnAsyncIO fuel handle timeout w in
let polls := wcount is_GetOverlappedResult (wtrace r) in
wresult r <> Diverges /\
(1 <= polls <= pending_attempts timeout)%nat /\
slept (wtrace r) = Z.of_nat (pred polls) * pendingWaitInterval /\
(forall t, wresult r = Returns t -> t = timeout - slept (wtrace r)) /\
(forall e, wresult r = Throws e ->
   e = TimeoutException \/ exists code, e = PipeException code "Waiting for pending IO") /\
(wresult r = Throws TimeoutException ->
   polls = pending_attempts timeout /\ timeout - slept (wtrace r) <= pendingWaitInterval) /\
handles_closed (wtrace r) = [].
Proof.
revert timeout w. induction fuel as [|fuel IH]; intros timeout w Hfuel.
{ pose proof (pending_attempts_pos timeout). lia. }
cbv zeta. rewrite waitOnAsyncIO_unfold. cbv zeta.
pose proof (pending_attempts_pos timeout) as Hpos.
destruct (negb _ && _).
- unfold pendingWaitInterval in *.
  destruct (Z.gtb_spec timeout 10) as [Hgt|Hle].
  + rewrite (pending_attempts_step timeout Hgt) in *.
    destruct (IH (timeout - 10)
                (sleep_for 10 (GetOverlappedResult handle false w).2))
      as (Hnd & Hpolls & Hslept & Hret & Hthrow & Hto & Hcl); [lia|].
    cbn [wresult wtrace wcount is_GetOverlappedResult slept handles_closed].
    rewrite Hslept.
    set (n := wcount is_GetOverlappedResult _) in *.
    split; [exact Hnd|]. split; [lia|].
    split; [destruct n; simpl; lia|].
    split; [intros t Ht; rewrite (Hret t Ht), Hslept; destruct n; simpl; lia|].
    split; [exact Hthrow|]. split; [|exact Hcl].
    intros Ht. destruct (Hto Ht) as [Hn Hleft]. rewrite Hslept in Hleft.
    split; [lia|]. destruct n; simpl in *; lia.
  + assert (Hone : pending_attempts timeout = 1%nat).
    { unfold pending_attempts, ceil_div, pendingWaitInterval.
      assert ((timeout + 10 - 1) / 10 < 2) by (apply Z.div_lt_upper_bound; lia).
      lia. }
    rewrite Hone.
    cbn [wresult wtrace wcount is_GetOverlappedResult slept handles_closed pred].
    repeat split; try discriminate; try lia.
    intros e [= <-]. auto.
- destruct (negb _);
    cbn [wresult wtrace wcount is_GetOverlappedResult slept handles_closed pred];
    repeat split; try discriminate; try lia.
  + intros e [= <-]. eauto.
  + intros t [= <-]. lia.
Qed.
End WinFacts.



(** ** write *)

Lemma handles_guarded_app (tr1 tr2 : list WinIO.wevent) :
  handles_guarded (tr1 ++ tr2) = handles_guarded tr1 ++ handles_guarded tr2.
Proof.
  induction tr1 as [|e tr1 IH]; simpl; [reflexivity|].
  destruct e; simpl; rewrite ?IH; try reflexivity;
    destruct (_ =? WinIO.INVALID_HANDLE_VALUE); simpl; congruence.
Qed.

Section WinWrite.
Import WinIO.
Context {W : Type} `{Api W}.
Local Open Scope win_scope.

Lemma wait_for_pipe_unfold fuel name timeout (w : W) :
wait_for_pipe (S fuel) name timeout w =
let a := WaitNamedPipe name 1 w in
let ev := WaitNamedPipe_ev name 1 a.1 in
let e := GetLastError a.2 in
if a.1 then WRun (Returns timeout) a.2 [ev]
else if (e =? ERROR_FILE_NOT_FOUND) || (e =? ERROR_SEM_TIMEOUT) then
  if timeout >? PIPE_WRITE_WAIT_INTERVAL then
    let r := wait_for_pipe fuel name (timeout - PIPE_WRITE_WAIT_INTERVAL)
               (sleep_for (PIPE_WRITE_WAIT_INTERVAL - 1) a.2) in
    WRun (wresult r) (wworld r)
         (ev :: Sleep_ev (PIPE_WRITE_WAIT_INTERVAL - 1) :: wtrace r)
  else WRun (Throws TimeoutException) a.2 [ev]
else WRun (Throws (PipeException e "WaitNamedPipe")) a.2 [ev].
Proof.
simpl. unfold wbind, call_WaitNamedPipe, last_error, call_sleep, wthrow, wret.
cbn [wresult wworld wtrace fst snd app].
destruct (WaitNamedPipe name 1 w).1; cbn [negb wresult wworld wtrace app]; [reflexivity|].
destruct (_ || _); cbn [wresult wworld wtrace app]; [|reflexivity].
destruct (timeout >? PIPE_WRITE_WAIT_INTERVAL); reflexivity.
Qed.

(** The loop of write that waits for the pipe. *)
Lemma wait_for_pipe_facts fuel name timeout (w : W) :
(attempts timeout <= fuel)%nat ->
let r := wait_for_pipe fuel name timeout w in
let waits := wcount is_WaitNamedPipe (wtrace r) in
wresult r <> Diverges /\
(1 <= waits <= attempts timeout)%nat /\
slept (wtrace r) = 0 /\
(forall t, wresult r = Returns t ->
   t = timeout - Z.of_nat (pred waits) * PIPE_WRITE_WAIT_INTERVAL /\
   ((1 < waits)%nat -> 1 <= t)) /\
(forall e, wresult r = Throws e ->
   e = TimeoutException \/ exists code, e = PipeException code "WaitNamedPipe") /\
handles_closed (wtrace r) = [] /\ handles_guarded (wtrace r) = [] /\
wcount is_GetOverlappedResult (wtrace r) = O.
Proof.
revert timeout w. induction fuel as [|fuel IH]; intros timeout w Hfuel.
{ pose proof (attempts_pos timeout). lia. }
cbv zeta. rewrite wait_for_pipe_unfold. cbv zeta.
pose proof (attempts_pos timeout) as Hpos.
destruct (WaitNamedPipe name 1 w).1.
{ cbn [wresult wtrace wcount is_WaitNamedPipe is_GetOverlappedResult slept handles_closed
       handles_guarded pred].
  close_case. }
destruct (_ || _).
- unfold PIPE_WRITE_WAIT_INTERVAL in *.
  destruct (Z.gtb_spec timeout 1) as [Hgt|Hle].
  + rewrite (attempts_step timeout Hgt) in *.
    destruct (IH (timeout - 1) (sleep_for (1 - 1) (WaitNamedPipe name 1 w).2))
      as (Hnd & Hwaits & Hslept & Hret & Hthrow & Hcl & Hg & Hgor); [lia|].
    cbn [wresult wtrace wcount is_WaitNamedPipe is_GetOverlappedResult slept
         handles_closed handles_guarded].
    set (n := wcount is_WaitNamedPipe _) in *.
    split; [exact Hnd|]. split; [lia|]. split; [rewrite Hslept; lia|].
    split; [|auto].
    intros t Ht. destruct (Hret t Ht) as [Heq Hpos']. split; [|lia].
    rewrite Heq. destruct n; simpl; lia.
  + rewrite attempts_last by lia.
    cbn [wresult wtrace wcount is_WaitNamedPipe is_GetOverlappedResult slept
         handles_closed handles_guarded pred].
    close_case.
- cbn [wresult wtrace wcount is_WaitNamedPipe is_GetOverlappedResult slept handles_closed
       handles_guarded pred].
  close_case.
Qed.

Lemma write_unfold p message messageSize timeout waitUntilWritten (w : W) :
write p message messageSize timeout waitUntilWritten w =
let name := full_name p in
let bytes := take (DWORD_of_size messageSize) message in
let wp := wait_for_pipe (attempts timeout) name timeout w in
match wresult wp with
| Returns t =>
    let cf := CreateFile name (wworld wp) in
    let open_ev := CreateFile_ev name cf.1 in
    if cf.1 =? INVALID_HANDLE_VALUE then
      WRun (Throws (PipeException (GetLastError cf.2) "Open for write")) cf.2
           (wtrace wp ++ [open_ev])
    else
      let wf := WriteFile cf.1 bytes cf.2 in
      let write_ev := WriteFile_ev cf.1 bytes wf.1 in
      let closing := handle_dtor cf.1 in
      if wf.1 then
        WRun (Returns tt) (wworld (closing wf.2))
             (wtrace wp ++ open_ev :: write_ev :: wtrace (closing wf.2))
      else if GetLastError wf.2 =? ERROR_IO_PENDING then
        if waitUntilWritten then
          let a := waitOnAsyncIO (pending_attempts t) cf.1 t wf.2 in
          match wresult a with
          | Returns _ =>
              WRun (Returns tt) (wworld (closing (wworld a)))
                   (wtrace wp ++ open_ev :: write_ev :: wtrace a
                      ++ wtrace (closing (wworld a)))
          | Throws x =>
              WRun (Throws x) (wworld (closing (wworld a)))
                   (wtrace wp ++ open_ev :: write_ev :: wtrace a
                      ++ wtrace (closing (wworld a)))
          | Diverges =>
              WRun Diverges (wworld a) (wtrace wp ++ open_ev :: write_ev :: wtrace a)
          end
        else
          WRun (Returns tt) (wworld (closing wf.2))
               (wtrace wp ++ open_ev :: write_ev :: wtrace (closing wf.2))
      else
        WRun (Throws (PipeException (GetLastError wf.2) "Write"))
             (wworld (closing wf.2))
             (wtrace wp ++ open_ev :: write_ev :: wtrace (closing wf.2))
| Throws e => WRun (Throws e) (wworld wp) (wtrace wp)
| Diverges => WRun Diverges (wworld wp) (wtrace wp)
end.
Proof.
unfold write. cbv zeta.
unfold wbind, wfinally, call_CreateFile, call_WriteFile, last_error, wthrow, wret.
cbn [wresult wworld wtrace fst snd].
destruct (wresult (wait_for_pipe _ _ _ _)) as [t|e|];
  cbn [wresult wworld wtrace]; [|reflexivity..].
set (cf := CreateFile _ _).
destruct (cf.1 =? INVALID_HANDLE_VALUE) eqn:Ecf; cbn [negb wresult wworld wtrace].
{ rewrite handle_dtor_run, Ecf. cbn [wresult wworld wtrace app]. reflexivity. }
set (wf := WriteFile _ _ _).
destruct wf.1; cbn [negb wresult wworld wtrace app]; [reflexivity|].
destruct (GetLastError wf.2 =? ERROR_IO_PENDING);
  cbn [wresult wworld wtrace app]; [|reflexivity].
destruct waitUntilWritten; cbn [wresult wworld wtrace app]; [|reflexivity].
set (a := waitOnAsyncIO _ _ _ _).
destruct (wresult a); cbn [wresult wworld wtrace app]; rewrite ?app_nil_r; reflexivity.
Qed.

Lemma waitOnAsyncIO_events fuel handle timeout (w : W) :
handles_guarded (wtrace (waitOnAsyncIO fuel handle timeout w)) = [] /\
wcount is_WaitNamedPipe (wtrace (waitOnAsyncIO fuel handle timeout w)) = O.
Proof.
revert timeout w. induction fuel as [|fuel IH]; intros timeout w; [simpl; auto|].
rewrite waitOnAsyncIO_unfold. cbv zeta.
destruct (negb _ && _).
- destruct (timeout >? pendingWaitInterval); simpl; [apply IH|auto].
- destruct (negb _); simpl; auto.
Qed.

Lemma handle_dtor_events h (w : W) :
handles_closed (wtrace (handle_dtor h w)) =
  (if h =? INVALID_HANDLE_VALUE then [] else [h]) /\
handles_guarded (wtrace (handle_dtor h w)) = [] /\
wcount is_WaitNamedPipe (wtrace (handle_dtor h w)) = O /\
wcount is_GetOverlappedResult (wtrace (handle_dtor h w)) = O.
Proof.
rewrite handle_dtor_run. destruct (h =? INVALID_HANDLE_VALUE); [simpl; auto|].
cbv zeta. destruct (CloseHandle h w).1; simpl; auto.
Qed.

Lemma write_outcomes p message messageSize timeout waitUntilWritten (w : W) :
let r := write p message messageSize timeout waitUntilWritten w in
wresult r <> Diverges /\
(forall e, wresult r = Throws e ->
   raises_only ["WaitNamedPipe"; "Open for write"; "Write"; "Waiting for pending IO"]%string
               e) /\
handles_closed (wtrace r) = handles_guarded (wtrace r) /\
(length (handles_guarded (wtrace r)) <= 1)%nat /\
(1 <= wcount is_WaitNamedPipe (wtrace r) <= attempts timeout)%nat.
Proof.
cbv zeta. rewrite write_unfold. cbv zeta.
destruct (wait_for_pipe_facts (attempts timeout) (full_name p) timeout w (le_n _))
  as (Hnd & Hwaits & _ & _ & Hthrow & Hcl & Hg & _).
set (wp := wait_for_pipe _ _ _ _) in *.
destruct (wresult wp) as [t|e|] eqn:Ewp; [|cbn [wresult wtrace]..].
2:{ rewrite Hcl, Hg. split_all; try discriminate; try reflexivity; try (simpl; lia).
    intros e' [= <-]. destruct (Hthrow e eq_refl) as [->|[code ->]].
    - left. reflexivity.
    - right. exists code, "WaitNamedPipe"%string. split; [reflexivity|simpl; tauto]. }
2:{ congruence. }
set (cf := CreateFile _ _).
destruct (Z.eqb_spec cf.1 INVALID_HANDLE_VALUE) as [Ecf|Ecf].
{ cbn [wresult wtrace]. rewrite handles_closed_app, handles_guarded_app, wcount_app, Hcl, Hg.
  cbn [handles_closed handles_guarded wcount is_WaitNamedPipe app].
  destruct (Z.eqb_spec cf.1 INVALID_HANDLE_VALUE); [|contradiction].
  split_all; try discriminate; try reflexivity; try (simpl; lia).
  intros e' [= <-]. right. eexists _, "Open for write"%string. split; [reflexivity|simpl; tauto]. }
set (wf := WriteFile _ _ _).
assert (Hclose : forall w', handles_closed (wtrace (handle_dtor cf.1 w')) = [cf.1] /\
                            handles_guarded (wtrace (handle_dtor cf.1 w')) = [] /\
                            wcount is_WaitNamedPipe (wtrace (handle_dtor cf.1 w')) = O).
{ intros w'. destruct (handle_dtor_events cf.1 w') as (Hc & Hg' & Hw' & _).
  destruct (Z.eqb_spec cf.1 INVALID_HANDLE_VALUE); [contradiction|]. auto. }
assert (Hshape : forall (mid : list wevent) w',
          handles_closed mid = [] -> handles_guarded mid = [] ->
          wcount is_WaitNamedPipe mid = O ->
          let tr := wtrace wp ++ CreateFile_ev (full_name p) cf.1
                      :: WriteFile_ev cf.1 (take (DWORD_of_size messageSize) message) wf.1
                      :: mid ++ wtrace (handle_dtor cf.1 w') in
          handles_closed tr = handles_guarded tr /\
          (length (handles_guarded tr) <= 1)%nat /\
          (1 <= wcount is_WaitNamedPipe tr <= attempts timeout)%nat).
{ intros mid w' Hm1 Hm2 Hm3 tr. unfold tr.
  destruct (Hclose w') as (Hc1 & Hc2 & Hc3).
  rewrite handles_closed_app, handles_guarded_app, wcount_app, Hcl, Hg.
  cbn [handles_closed handles_guarded wcount is_WaitNamedPipe app].
  destruct (Z.eqb_spec cf.1 INVALID_HANDLE_VALUE); [contradiction|].
  rewrite handles_closed_app, handles_guarded_app, wcount_app, Hm1, Hm2, Hm3, Hc1, Hc2, Hc3.
  simpl. split; [reflexivity|]. split; lia. }
destruct wf.1 eqn:Ewf.
{ cbn [wresult wtrace].
  split; [discriminate|]. split; [intros e Hd; discriminate Hd|].
  apply (Hshape [] wf.2); reflexivity. }
destruct (GetLastError wf.2 =? ERROR_IO_PENDING).
2:{ cbn [wresult wtrace].
    split; [discriminate|]. split.
    { intros e' [= <-]. right. eexists _, "Write"%string. split; [reflexivity|simpl; tauto]. }
    apply (Hshape [] wf.2); reflexivity. }
destruct waitUntilWritten.
2:{ cbn [wresult wtrace].
    split; [discriminate|]. split; [intros e Hd; discriminate Hd|].
    apply (Hshape [] wf.2); reflexivity. }
destruct (waitOnAsyncIO_facts (pending_attempts t) cf.1 t wf.2 (le_n _))
  as (Hand & _ & _ & _ & Hathrow & _ & Hacl).
destruct (waitOnAsyncIO_events (pending_attempts t) cf.1 t wf.2) as [Hag Haw].
set (a := waitOnAsyncIO _ _ _ _) in *.
destruct (wresult a) as [t'|e|] eqn:Ea; [| |congruence]; cbn [wresult wtrace].
- split; [discriminate|]. split; [intros e Hd; discriminate Hd|].
  apply (Hshape (wtrace a) (wworld a)); assumption.
- split; [discriminate|]. split.
  { intros e' [= <-]. destruct (Hathrow e eq_refl) as [->|[code ->]].
    - left. reflexivity.
    - right. exists code, "Waiting for pending IO"%string. split; [reflexivity|simpl; tauto]. }
  apply (Hshape (wtrace a) (wworld a)); assumption.
Qed.

Lemma write_pending p message messageSize timeout (w : W) t :
let name := full_name p in
let bytes := take (DWORD_of_size messageSize) message in
let wp := wait_for_pipe (attempts timeout) name timeout w in
let cf := CreateFile name (wworld wp) in
let wf := WriteFile cf.1 bytes cf.2 in
let a := waitOnAsyncIO (pending_attempts t) cf.1 t wf.2 in
wresult wp = Returns t ->
cf.1 <> INVALID_HANDLE_VALUE ->
wf.1 = false ->
GetLastError wf.2 = ERROR_IO_PENDING ->
t = timeout - Z.of_nat (pred (wcount is_WaitNamedPipe (wtrace wp))) /\
(let r := write p message messageSize timeout false w in
 wresult r = Returns tt /\ wcount is_GetOverlappedResult (wtrace r) = O /\
 handles_closed (wtrace r) = [cf.1]) /\
(let r := write p message messageSize timeout true w in
 (forall t', wresult a = Returns t' -> wresult r = Returns tt) /\
 (forall e, wresult a = Throws e -> wresult r = Throws e) /\
 wcount is_GetOverlappedResult (wtrace r) = wcount is_GetOverlappedResult (wtrace a) /\
 handles_closed (wtrace r) = [cf.1]).
Proof.
intros name bytes wp cf wf a Hwp Hcf Hwf Hpend.
destruct (wait_for_pipe_facts (attempts timeout) name timeout w (le_n _))
  as (_ & _ & _ & Hret & _ & Hcl & _ & Hgor).
fold wp in Hret, Hcl, Hgor.
split.
{ destruct (Hret t Hwp) as [Heq _]. rewrite Heq. unfold PIPE_WRITE_WAIT_INTERVAL. lia. }
assert (Hd : forall w', handles_closed (wtrace (handle_dtor cf.1 w')) = [cf.1] /\
                        wcount is_GetOverlappedResult (wtrace (handle_dtor cf.1 w')) = O).
{ intros w'. destruct (handle_dtor_events cf.1 w') as (Hc & _ & _ & Hg).
  destruct (Z.eqb_spec cf.1 INVALID_HANDLE_VALUE); [contradiction|]. auto. }
split.
- cbv zeta. rewrite write_unfold. cbv zeta. fold name. fold wp. rewrite Hwp. fold cf.
  destruct (Z.eqb_spec cf.1 INVALID_HANDLE_VALUE); [contradiction|].
  fold bytes. fold wf. rewrite Hwf, Hpend. rewrite Z.eqb_refl.
  cbn [wresult wtrace]. destruct (Hd wf.2) as [Hc Hg].
  rewrite wcount_app, handles_closed_app, Hgor, Hcl.
  cbn [wcount is_GetOverlappedResult handles_closed app]. rewrite Hc, Hg. auto.
- cbv zeta. rewrite write_unfold. cbv zeta. fold name. fold wp. rewrite Hwp. fold cf.
  destruct (Z.eqb_spec cf.1 INVALID_HANDLE_VALUE); [contradiction|].
  fold bytes. fold wf. rewrite Hwf, Hpend. rewrite Z.eqb_refl. fold a.
  destruct (waitOnAsyncIO_facts (pending_attempts t) cf.1 t wf.2 (le_n _))
    as (Hand & _ & _ & _ & _ & _ & Hacl). fold a in Hand, Hacl.
  destruct (Hd (wworld a)) as [Hc Hg].
  destruct (wresult a) as [t'|e|] eqn:Ea; [| |congruence]; cbn [wresult wtrace];
    rewrite !wcount_app, !handles_closed_app, Hgor, Hcl;
    cbn [wcount is_GetOverlappedResult handles_closed app];
    rewrite !wcount_app, !handles_closed_app, Hacl, Hc, Hg;
    (split; [intros ? Hx; first [reflexivity | discriminate Hx]|]);
    (split; [intros ? Hx; first [congruence | discriminate Hx]|]);
    split; simpl; try lia; reflexivity.
Qed.
End WinWrite.

(** X12: the Windows write always ends.  It asks WaitNamedPipe at least
    once and at most max(1, timeout) times; it raises TimeoutException or a
    PipeException whose context is "WaitNamedPipe", "Open for write",
    "Write" or "Waiting for pending IO", never InterruptException; and the
    handle CreateFile returned, if it is not INVALID_HANDLE_VALUE, is closed
    exactly once on every way out, while nothing else is closed. *)
Theorem windows_write_outcomes :
  forall (W : Type) (HW : WinIO.Api W) (p : path) (message : list byte)
         (messageSize : nat) (timeout : Z) (waitUntilWritten : bool) (w : W),
    let r := WinIO.write p message messageSize timeout waitUntilWritten w in
    WinIO.wresult r <> Diverges /\
    (forall e, WinIO.wresult r = Throws e ->
       raises_only ["WaitNamedPipe"; "Open for write"; "Write";
                    "Waiting for pending IO"]%string e) /\
    handles_closed (WinIO.wtrace r) = handles_guarded (WinIO.wtrace r) /\
    (length (handles_guarded (WinIO.wtrace r)) <= 1)%nat /\
    (1 <= wcount is_WaitNamedPipe (WinIO.wtrace r) <= attempts timeout)%nat.
Proof. intros W HW. exact write_outcomes. Qed.

Lemma windows_write_outcomes_witness :
  raises_only ["WaitNamedPipe"; "Open for write"; "Write"; "Waiting for pending IO"]%string
              (PipeException 5 "Write").
Proof.
  apply (proj1 (proj2 (windows_write_outcomes Script.script _ "testPipe"
                         Scenario.message1 1 1000 true
                         (Script.MkScript [Script.Fail WinIO.ERROR_FILE_NOT_FOUND;
                                           Script.Ok 1 [] EmptyString;
                                           Script.Ok 7 [] EmptyString;
                                           Script.Fail 5] 0)))).
  vm_compute. reflexivity.
Defined.

(** X13: a WriteFile that is left pending.  With waitUntilWritten false
    the Windows write returns at once, without asking for the result of the
    operation; with waitUntilWritten true it hands the operation to
    waitOnAsyncIO and ends as that does.  The wait does not get a budget of
    its own: it starts with what the loop on WaitNamedPipe has left of the
    timeout, one ms less for each of its retries.  The handle is closed in
    both cases, with waitUntilWritten false while the operation may still be
    in flight. *)
Theorem windows_write_pending :
  forall (W : Type) (HW : WinIO.Api W) (p : path) (message : list byte)
         (messageSize : nat) (timeout : Z) (w : W) (t : Z),
    let name := WinIO.full_name p in
    let bytes := take (WinIO.DWORD_of_size messageSize) message in
    let wp := WinIO.wait_for_pipe (attempts timeout) name timeout w in
    let cf := WinIO.CreateFile name (WinIO.wworld wp) in
    let wf := WinIO.WriteFile cf.1 bytes cf.2 in
    let a := WinIO.waitOnAsyncIO (WinIO.pending_attempts t) cf.1 t wf.2 in
    WinIO.wresult wp = Returns t ->
    cf.1 <> WinIO.INVALID_HANDLE_VALUE ->
    wf.1 = false ->
    WinIO.GetLastError wf.2 = WinIO.ERROR_IO_PENDING ->
    t = timeout - Z.of_nat (pred (wcount is_WaitNamedPipe (WinIO.wtrace wp))) /\
    (let r := WinIO.write p message messageSize timeout false w in
     WinIO.wresult r = Returns tt /\
     wcount is_GetOverlappedResult (WinIO.wtrace r) = O /\
     handles_closed (WinIO.wtrace r) = [cf.1]) /\
    (let r := WinIO.write p message messageSize timeout true w in
     (forall t', WinIO.wresult a = Returns t' -> WinIO.wresult r = Returns tt) /\
     (forall e, WinIO.wresult a = Throws e -> WinIO.wresult r = Throws e) /\
     wcount is_GetOverlappedResult (WinIO.wtrace r)
       = wcount is_GetOverlappedResult (WinIO.wtrace a) /\
     handles_closed (WinIO.wtrace r) = [cf.1]).
Proof. intros W HW. exact write_pending. Qed.

Lemma windows_write_pending_witness :
  WinIO.wresult (WinIO.write "testPipe" Scenario.message1 (length Scenario.message1) 1000 false
                   (Script.MkScript [Script.Ok 1 [] EmptyString;
                                     Script.Ok 7 [] EmptyString;
                                     Script.Fail WinIO.ERROR_IO_PENDING;
                                     Script.Ok 0 [] EmptyString] 0)) = Returns tt /\
  WinIO.wresult (WinIO.write "testPipe" Scenario.message1 (length Scenario.message1) 1000 true
                   (Script.MkScript [Script.Ok 1 [] EmptyString;
                                     Script.Ok 7 [] EmptyString;
                                     Script.Fail WinIO.ERROR_IO_PENDING;
                                     Script.Ok 0 [] EmptyString] 0)) = Returns tt.
Proof.
  pose proof (windows_write_pending Script.script _ "testPipe" Scenario.message1
                (length Scenario.message1) 1000
                (Script.MkScript [Script.Ok 1 [] EmptyString;
                                  Script.Ok 7 [] EmptyString;
                                  Script.Fail WinIO.ERROR_IO_PENDING;
                                  Script.Ok 0 [] EmptyString] 0) 1000) as Hpending.
  cbv zeta in Hpending.
  destruct Hpending as (_ & (Hforget & _) & (Hwait & _)).
  - vm_compute. reflexivity.
  - vm_compute. discriminate.
  - vm_compute. reflexivity.
  - vm_compute. reflexivity.
  - split; [exact Hforget|]. apply (Hwait 1000). vm_compute. reflexivity.
Defined.

Lemma substring_whole (s : string) : String.substring 0 (String.length s) s = s.
Proof. induction s as [|a s IH]; simpl; [reflexivity|]. rewrite IH. reflexivity. Qed.

Lemma not_a_pipe_name_spec (s : string) :
  WinIO.not_a_pipe_name s = false <->
  exists name, s = (WinIO.pipe_prefix ++ name)%string /\ name <> EmptyString /\
               WinIO.found_from WinIO.backslash 0 name = false.
Proof.
  unfold WinIO.not_a_pipe_name, WinIO.pipe_prefix. split.
  - intros Hform.
    apply orb_false_iff in Hform. destruct Hform as [Hform Hfound].
    apply orb_false_iff in Hform. destruct Hform as [Hlen Hprefix].
    apply negb_false_iff, String.eqb_eq in Hprefix.
    destruct s as [|a1 [|a2 [|a3 [|a4 [|a5 [|a6 [|a7 [|a8 [|a9 rest]]]]]]]]];
      try discriminate Hlen.
    destruct rest as [|a rest]; [discriminate Hlen|].
    simpl in Hprefix. injection Hprefix as -> -> -> -> -> -> -> -> ->.
    exists (String a rest). split; [reflexivity|]. split; [discriminate|exact Hfound].
  - intros (name & -> & Hne & Hfound).
    destruct name as [|a rest]; [contradiction|].
    simpl String.length. simpl String.substring.
    change (WinIO.found_from WinIO.backslash 9 _)
      with (WinIO.found_from WinIO.backslash 0 (String a rest)).
    rewrite Hfound. reflexivity.
Qed.

Lemma erase_prefix_spec (name : string) :
  WinIO.erase_prefix (WinIO.pipe_prefix ++ name)%string = name.
Proof.
  unfold WinIO.erase_prefix, WinIO.pipe_prefix.
  change (String.length (_ ++ name)) with (9 + String.length name)%nat.
  replace (9 + String.length name - 9)%nat with (String.length name) by lia.
  change (String.substring 9 (String.length name) _)
    with (String.substring 0 (String.length name) name).
  apply substring_whole.
Qed.

Lemma searches_closed_app (tr1 tr2 : list WinIO.wevent) :
  searches_closed (tr1 ++ tr2) = searches_closed tr1 ++ searches_closed tr2.
Proof.
  induction tr1 as [|e tr1 IH]; simpl; [reflexivity|].
  destruct e; simpl; rewrite ?IH; reflexivity.
Qed.

Section WinExists.
Import WinIO.
Context {W : Type} `{Api W}.
Local Open Scope win_scope.

Lemma enumeration_done_run code (w : W) :
enumeration_done code w =
if (code =? ERROR_FILE_NOT_FOUND) || (code =? ERROR_NO_MORE_FILES)
then WRun (Returns false) w []
else WRun (Throws (PipeException code "CheckExistance")) w [].
Proof.
unfold enumeration_done.
destruct (code =? ERROR_FILE_NOT_FOUND), (code =? ERROR_NO_MORE_FILES); reflexivity.
Qed.

Lemma scan_names_unfold fuel hFind pipeName cFileName (w : W) :
scan_names (S fuel) hFind pipeName cFileName w =
if String.eqb pipeName cFileName then
  WRun (Returns true) (FindClose hFind w) [FindClose_ev hFind]
else
  let n := FindNextFileA hFind w in
  if n.1.1 then
    let r := scan_names fuel hFind pipeName n.1.2 n.2 in
    WRun (wresult r) (wworld r) (FindNextFile_ev hFind true :: wtrace r)
  else
    let d := enumeration_done (GetLastError n.2) (FindClose hFind n.2) in
    WRun (wresult d) (wworld d)
         (FindNextFile_ev hFind false :: FindClose_ev hFind :: wtrace d).
Proof.
simpl. destruct (String.eqb pipeName cFileName); [reflexivity|].
unfold wbind, call_FindNextFileA, call_FindClose, last_error.
cbn [wresult wworld wtrace fst snd app].
destruct (FindNextFileA hFind w).1.1; reflexivity.
Qed.

Lemma scan_names_facts fuel hFind pipeName cFileName (w : W) :
let r := scan_names fuel hFind pipeName cFileName w in
(forall e, wresult r = Throws e ->
   exists code, e = PipeException code "CheckExistance" /\
                code <> ERROR_FILE_NOT_FOUND /\ code <> ERROR_NO_MORE_FILES) /\
(wresult r <> Diverges -> searches_closed (wtrace r) = [hFind]) /\
searches_opened (wtrace r) = [] /\ patterns_searched (wtrace r) = [] /\
handles_closed (wtrace r) = [].
Proof.
revert cFileName w. induction fuel as [|fuel IH]; intros cFileName w.
{ simpl. split_all; try reflexivity; [intros e Hd; discriminate Hd|congruence]. }
cbv zeta. rewrite scan_names_unfold. cbv zeta.
destruct (String.eqb pipeName cFileName).
{ simpl. split_all; try reflexivity. intros e Hd; discriminate Hd. }
destruct (FindNextFileA hFind w).1.1.
{ cbn [wresult wtrace searches_closed searches_opened patterns_searched handles_closed].
  apply IH. }
rewrite enumeration_done_run.
destruct (Z.eqb_spec (GetLastError (FindNextFileA hFind w).2) ERROR_FILE_NOT_FOUND) as [E1|E1];
  [simpl; split_all; try reflexivity; intros e Hd; discriminate Hd|].
destruct (Z.eqb_spec (GetLastError (FindNextFileA hFind w).2) ERROR_NO_MORE_FILES) as [E2|E2];
  simpl; split_all; try reflexivity.
- intros e Hd; discriminate Hd.
- intros e [= <-]. eexists. split; [reflexivity|]. split; assumption.
Qed.

Lemma exists_unfold fuel (p : path) (w : W) :
exists_ fuel p w =
if not_a_pipe_name p then WRun (Returns false) w []
else
  let f := FindFirstFileA pipe_pattern w in
  let ev := FindFirstFile_ev pipe_pattern f.1.1 in
  if f.1.1 =? INVALID_HANDLE_VALUE then
    let d := enumeration_done (GetLastError f.2) f.2 in
    WRun (wresult d) (wworld d) (ev :: wtrace d)
  else
    let r := scan_names fuel f.1.1 (erase_prefix p) f.1.2 f.2 in
    WRun (wresult r) (wworld r) (ev :: wtrace r).
Proof.
unfold exists_. destruct (not_a_pipe_name p); [reflexivity|].
unfold wbind, call_FindFirstFileA, last_error. cbn [wresult wworld wtrace fst snd app].
destruct (_ =? INVALID_HANDLE_VALUE); reflexivity.
Qed.

Lemma exists_outcomes fuel (p : path) (w : W) :
let r := exists_ fuel p w in
(forall e, wresult r = Throws e ->
   exists code, e = PipeException code "CheckExistance" /\
                code <> ERROR_FILE_NOT_FOUND /\ code <> ERROR_NO_MORE_FILES) /\
(wresult r <> Diverges -> searches_closed (wtrace r) = searches_opened (wtrace r)) /\
(length (searches_opened (wtrace r)) <= 1)%nat /\
(forall pattern, In pattern (patterns_searched (wtrace r)) -> pattern = pipe_pattern) /\
handles_closed (wtrace r) = [].
Proof.
cbv zeta. rewrite exists_unfold. cbv zeta.
destruct (not_a_pipe_name p).
{ simpl. split_all; try reflexivity; try lia; try contradiction.
  intros e Hd; discriminate Hd. }
set (f := FindFirstFileA pipe_pattern w).
destruct (Z.eqb_spec f.1.1 INVALID_HANDLE_VALUE) as [Ef|Ef].
- rewrite enumeration_done_run.
  cbn [wresult wtrace searches_closed searches_opened patterns_searched handles_closed].
  destruct (Z.eqb_spec f.1.1 INVALID_HANDLE_VALUE); [|contradiction].
  destruct (Z.eqb_spec (GetLastError f.2) ERROR_FILE_NOT_FOUND) as [E1|E1];
    [simpl; split_all; try reflexivity; try lia;
     [intros e' Hd; discriminate Hd | intros pattern [<-|[]]; reflexivity]|].
  destruct (Z.eqb_spec (GetLastError f.2) ERROR_NO_MORE_FILES) as [E2|E2];
    simpl; split_all; try reflexivity; try lia.
  + intros e' Hd; discriminate Hd.
  + intros pattern [<-|[]]; reflexivity.
  + intros e' [= <-]. eexists. split; [reflexivity|]. split; assumption.
  + intros pattern [<-|[]]; reflexivity.
- destruct (scan_names_facts fuel f.1.1 (erase_prefix p) f.1.2 f.2)
    as (Hthrow & Hclosed & Hopened & Hpat & Hcl).
  cbn [wresult wtrace searches_closed searches_opened patterns_searched handles_closed].
  destruct (Z.eqb_spec f.1.1 INVALID_HANDLE_VALUE); [contradiction|].
  rewrite Hopened, Hpat, Hcl.
  split; [exact Hthrow|]. split; [exact Hclosed|]. split; [simpl; lia|].
  split; [|reflexivity]. intros pattern [<-|[]]; reflexivity.
Qed.

Lemma exists_not_a_name fuel (p : path) (w : W) :
(forall name, p = (pipe_prefix ++ name)%string ->
   name = EmptyString \/ found_from backslash 0 name = true) ->
exists_ fuel p w = WRun (Returns false) w [].
Proof.
intros Hform. rewrite exists_unfold.
destruct (not_a_pipe_name p) eqn:Hname; [reflexivity|].
apply not_a_pipe_name_spec in Hname. destruct Hname as (name & -> & Hne & Hfound).
destruct (Hform name eq_refl) as [Hempty|Hback]; congruence.
Qed.
End WinExists.

Lemma scan_listing (rest : list string) :
  forall (fuel : nat) (hFind : Z) (name current : string) (e0 : Z),
    (length rest < fuel)%nat ->
    let r := WinIO.scan_names fuel hFind name current
               (Script.MkScript (map (Script.Ok 1 []) rest
                                   ++ [Script.Fail WinIO.ERROR_NO_MORE_FILES]) e0) in
    WinIO.wresult r = Returns (existsb (String.eqb name) (current :: rest)) /\
    wcount is_FindNextFile (WinIO.wtrace r) = entries_before name (current :: rest).
Proof.
  induction rest as [|next rest IH]; intros fuel hFind name current e0 Hfuel;
    (destruct fuel as [|fuel]; [simpl in Hfuel; lia|]);
    cbv zeta; rewrite scan_names_unfold; cbv zeta; simpl existsb; simpl entries_before;
    destruct (String.eqb name current); try (simpl; split; reflexivity).
  specialize (IH fuel hFind name next e0). cbv zeta in IH.
  simpl in Hfuel. destruct IH as [IH1 IH2]; [lia|].
  simpl. split; [exact IH1|]. simpl in IH2. rewrite IH2. reflexivity.
Qed.

(** X14: the Windows exists answers false without a call to the system
    for every path that is not "\\.\pipe\" followed by a name that is not
    empty and has no backslash; the bare names that create and write accept
    are among them. *)
Theorem windows_exists_name_form :
  forall (W : Type) (HW : WinIO.Api W) (fuel : nat) (p : path) (w : W),
    (forall name, p = (WinIO.pipe_prefix ++ name)%string ->
       name = EmptyString \/ WinIO.found_from WinIO.backslash 0 name = true) ->
    WinIO.exists_ fuel p w = WinIO.WRun (Returns false) w [].
Proof. intros W HW. exact exists_not_a_name. Qed.

Lemma windows_exists_name_form_witness :
  WinIO.exists_ 5 "testPipe" (Script.listing ["testPipe"%string])
  = WinIO.WRun (Returns false) (Script.listing ["testPipe"%string]) [].
Proof.
  apply (windows_exists_name_form Script.script _ 5 "testPipe"
           (Script.listing ["testPipe"%string])).
  intros name Hname. vm_compute in Hname. discriminate Hname.
Defined.

(** X15: on a full pipe name the Windows exists searches the pipe
    directory and answers whether the name is one of its entries: over a
    directory that lists [names] it returns true exactly when the name after
    the prefix is among them, and it asks FindNextFileA once for each entry
    before the first match, so it looks at no entry after it. *)
Theorem windows_exists_scans_listing :
  forall (names : list string) (name : string) (fuel : nat),
    name <> EmptyString ->
    WinIO.found_from WinIO.backslash 0 name = false ->
    (length names <= fuel)%nat ->
    let r := WinIO.exists_ fuel (WinIO.pipe_prefix ++ name)%string (Script.listing names) in
    WinIO.wresult r = Returns (existsb (String.eqb name) names) /\
    patterns_searched (WinIO.wtrace r) = [WinIO.pipe_pattern] /\
    wcount is_FindNextFile (WinIO.wtrace r) = entries_before name names /\
    searches_closed (WinIO.wtrace r) = searches_opened (WinIO.wtrace r).
Proof.
  intros names name fuel Hne Hfound Hfuel.
  assert (Hname : WinIO.not_a_pipe_name (WinIO.pipe_prefix ++ name)%string = false).
  { apply not_a_pipe_name_spec. exists name. auto. }
  pose proof (exists_outcomes fuel (WinIO.pipe_prefix ++ name)%string (Script.listing names))
    as (_ & Hclosed & _).
  cbv zeta in *. rewrite exists_unfold in *. rewrite Hname in *. rewrite erase_prefix_spec in *.
  cbv zeta in *.
  destruct names as [|first rest].
  - simpl. auto.
  - change (WinIO.FindFirstFileA WinIO.pipe_pattern (Script.listing (first :: rest)))
      with ((1, first), Script.MkScript (map (Script.Ok 1 []) rest
                                           ++ [Script.Fail WinIO.ERROR_NO_MORE_FILES]) 0)
      in *.
    cbn [fst snd] in *. change (1 =? WinIO.INVALID_HANDLE_VALUE) with false in *.
    cbv iota in *.
    destruct (scan_listing rest fuel 1 name first 0) as [Hres Hnext]; [simpl in Hfuel; lia|].
    cbn [WinIO.wresult WinIO.wtrace patterns_searched wcount is_FindNextFile] in *.
    split; [exact Hres|]. split.
    { destruct (scan_names_facts fuel 1 name first
                  (Script.MkScript (map (Script.Ok 1 []) rest
                                      ++ [Script.Fail WinIO.ERROR_NO_MORE_FILES]) 0))
        as (_ & _ & _ & Hpat & _).
      rewrite Hpat. reflexivity. }
    split; [exact Hnext|].
    apply Hclosed. rewrite Hres. discriminate.
Qed.

Lemma windows_exists_scans_listing_witness :
  WinIO.wresult (WinIO.exists_ 3 (WinIO.pipe_prefix ++ "testPipe")%string
                   (Script.listing ["InitShutdown"; "testPipe"; "lsass"]%string))
  = Returns true.
Proof.
  apply (windows_exists_scans_listing ["InitShutdown"; "testPipe"; "lsass"]%string
           "testPipe" 3).
  - discriminate.
  - reflexivity.
  - simpl. lia.
Defined.


Section WinRead.
Import WinIO.
Context {W : Type} `{Api W}.
Local Open Scope win_scope.

Lemma wbind_run {A B} (m : WM W A) (k : A -> WM W B) (w : W) :
wbind m k w =
match wresult (m w) with
| Returns a =>
    WRun (wresult (k a (wworld (m w)))) (wworld (k a (wworld (m w))))
         (wtrace (m w) ++ wtrace (k a (wworld (m w))))
| Throws e => WRun (Throws e) (wworld (m w)) (wtrace (m w))
| Diverges => WRun Diverges (wworld (m w)) (wtrace (m w))
end.
Proof. reflexivity. Qed.

Lemma waitOnAsyncIO_slept fuel handle timeout (w : W) :
let r := waitOnAsyncIO fuel handle timeout w in
0 <= slept (wtrace r) /\
(slept (wtrace r) = 0 \/ slept (wtrace r) < timeout) /\
(forall t, wresult r = Returns t -> t = timeout - slept (wtrace r)).
Proof.
revert timeout w. induction fuel as [|fuel IH]; intros timeout w.
{ simpl. split; [lia|]. split; [auto|]. intros t Hd; discriminate Hd. }
cbv zeta. rewrite waitOnAsyncIO_unfold. cbv zeta.
destruct (negb _ && _).
- unfold pendingWaitInterval.
  destruct (Z.gtb_spec timeout 10) as [Hgt|Hle].
  + destruct (IH (timeout - 10) (sleep_for 10 (GetOverlappedResult handle false w).2))
      as (Hpos & Hlt & Hret).
    cbn [wresult wtrace slept]. split; [lia|]. split; [lia|].
    intros t Ht. rewrite (Hret t Ht). lia.
  + simpl. split; [lia|]. split; [auto|]. intros t Hd; discriminate Hd.
- destruct (negb _); simpl.
  + split; [lia|]. split; [auto|]. intros t Hd; discriminate Hd.
  + split; [lia|]. split; [auto|]. intros t [= <-]. lia.
Qed.

Lemma disconnectAndReconnect_unfold pipeHandle disconnectFirst timeout (w : W) :
disconnectAndReconnect pipeHandle disconnectFirst timeout w =
let d := if disconnectFirst then DisconnectNamedPipe pipeHandle w else (true, w) in
let dev := if disconnectFirst then [DisconnectNamedPipe_ev pipeHandle d.1] else [] in
if d.1 then
  let c := ConnectNamedPipe pipeHandle d.2 in
  let cev := ConnectNamedPipe_ev pipeHandle c.1 in
  if c.1 then WRun (Returns timeout) c.2 (dev ++ [cev])
  else if GetLastError c.2 =? ERROR_IO_PENDING then
    let a := waitOnAsyncIO (pending_attempts timeout) pipeHandle timeout c.2 in
    WRun (wresult a) (wworld a) (dev ++ cev :: wtrace a)
  else if (GetLastError c.2 =? ERROR_NO_DATA) || (GetLastError c.2 =? ERROR_PIPE_CONNECTED)
  then WRun (Returns timeout) c.2 (dev ++ [cev])
  else WRun (Throws (PipeException (GetLastError c.2) "Connect")) c.2 (dev ++ [cev])
else WRun (Throws (PipeException (GetLastError d.2) "Disconnect")) d.2 dev.
Proof.
unfold disconnectAndReconnect.
unfold wbind, call_DisconnectNamedPipe, call_ConnectNamedPipe, last_error, wthrow, wret.
destruct disconnectFirst; cbn [wresult wworld wtrace fst snd negb app].
- destruct (DisconnectNamedPipe pipeHandle w).1; cbn [wresult wworld wtrace fst snd negb app];
    [|reflexivity].
  destruct (ConnectNamedPipe pipeHandle _).1; cbn [wresult wworld wtrace fst snd negb app];
    [reflexivity|].
  destruct (_ =? ERROR_IO_PENDING); [reflexivity|].
  destruct (_ || _); reflexivity.
- destruct (ConnectNamedPipe pipeHandle _).1; cbn [wresult wworld wtrace fst snd negb app];
    [reflexivity|].
  destruct (_ =? ERROR_IO_PENDING); [reflexivity|].
  destruct (_ || _); reflexivity.
Qed.

Lemma disconnectAndReconnect_facts pipeHandle disconnectFirst timeout (w : W) :
let r := disconnectAndReconnect pipeHandle disconnectFirst timeout w in
wresult r <> Diverges /\
0 <= slept (wtrace r) /\
(slept (wtrace r) = 0 \/ slept (wtrace r) < timeout) /\
(forall t, wresult r = Returns t -> t = timeout - slept (wtrace r)) /\
(forall e, wresult r = Throws e ->
   raises_only ["Disconnect"; "Connect"; "Waiting for pending IO"]%string e) /\
handles_closed (wtrace r) = [] /\ handles_guarded (wtrace r) = [].
Proof.
cbv zeta. rewrite disconnectAndReconnect_unfold. cbv zeta.
set (d := if disconnectFirst then _ else _).
set (dev := if disconnectFirst then _ else _).
assert (Hdev : slept dev = 0 /\ handles_closed dev = [] /\ handles_guarded dev = []).
{ unfold dev. destruct disconnectFirst; simpl; auto. }
destruct Hdev as (Hs & Hc & Hg).
destruct d.1.
2:{ cbn [wresult wtrace]. rewrite Hs, Hc, Hg.
    split; [discriminate|]. split; [lia|]. split; [auto|].
    split; [intros t Hd; discriminate Hd|]. split; [|auto].
    intros e [= <-]. right. eexists _, "Disconnect"%string.
    split; [reflexivity|simpl; tauto]. }
set (c := ConnectNamedPipe pipeHandle d.2).
assert (Hquiet : forall (res : outcome Z) (w' : W),
          (forall t, res = Returns t -> t = timeout) ->
          (forall e, res = Throws e ->
             raises_only ["Disconnect"; "Connect"; "Waiting for pending IO"]%string e) ->
          res <> Diverges ->
          let r := WRun res w' (dev ++ [ConnectNamedPipe_ev pipeHandle c.1]) in
          wresult r <> Diverges /\
          0 <= slept (wtrace r) /\
          (slept (wtrace r) = 0 \/ slept (wtrace r) < timeout) /\
          (forall t, wresult r = Returns t -> t = timeout - slept (wtrace r)) /\
          (forall e, wresult r = Throws e ->
             raises_only ["Disconnect"; "Connect"; "Waiting for pending IO"]%string e) /\
          handles_closed (wtrace r) = [] /\ handles_guarded (wtrace r) = []).
{ intros res w' Hret Hthrow Hnd. cbn [wresult wtrace].
  rewrite slept_app, handles_closed_app, handles_guarded_app, Hs, Hc, Hg. simpl.
  split_all; auto; try lia. intros t Ht. rewrite (Hret t Ht). lia. }
destruct c.1.
{ apply Hquiet; [intros t [= <-]; reflexivity|intros e Hd; discriminate Hd|discriminate]. }
destruct (GetLastError c.2 =? ERROR_IO_PENDING).
{ destruct (waitOnAsyncIO_facts (pending_attempts timeout) pipeHandle timeout c.2 (le_n _))
    as (Hnd & _ & _ & _ & Hthrow & _ & Hcl).
  destruct (waitOnAsyncIO_events (pending_attempts timeout) pipeHandle timeout c.2)
    as [Hgu _].
  destruct (waitOnAsyncIO_slept (pending_attempts timeout) pipeHandle timeout c.2)
    as (Hpos & Hlt & Hret).
  cbn [wresult wtrace].
  rewrite slept_app, handles_closed_app, handles_guarded_app, Hs, Hc, Hg.
  cbn [slept handles_closed handles_guarded app]. rewrite Hcl, Hgu.
  split; [exact Hnd|]. split; [lia|]. split; [lia|].
  split; [intros t Ht; rewrite (Hret t Ht); lia|].
  split; [|auto].
  intros e He. destruct (Hthrow e He) as [->|[code ->]]; [left; reflexivity|].
  right. exists code, "Waiting for pending IO"%string.
  split; [reflexivity|simpl; tauto]. }
destruct (_ || _).
{ apply Hquiet; [intros t [= <-]; reflexivity|intros e Hd; discriminate Hd|discriminate]. }
apply Hquiet; [intros t Hd; discriminate Hd| |discriminate].
intros e [= <-]. right. eexists _, "Connect"%string. split; [reflexivity|simpl; tauto].
Qed.

Lemma read_chunk_unfold m_handle (w : W) :
read_chunk m_handle w =
let f := ReadFile m_handle PIPE_BUFFER_SIZE w in
let fev := ReadFile_ev m_handle PIPE_BUFFER_SIZE f.1.1.1 f.1.1.2 in
if negb f.1.1.1 && (GetLastError f.2 =? ERROR_IO_PENDING) then
  let g := GetOverlappedResult m_handle true f.2 in
  let gev := GetOverlappedResult_ev m_handle true g.1.1.1 g.1.1.2 in
  if negb g.1.1.1 && negb (GetLastError g.2 =? ERROR_BROKEN_PIPE) then
    WRun (Throws (PipeException (GetLastError g.2) "Overlapped waiting")) g.2 [fev; gev]
  else WRun (Returns g.1) g.2 [fev; gev]
else WRun (Returns f.1) f.2 [fev].
Proof.
unfold read_chunk, wbind, call_ReadFile, call_GetOverlappedResult, last_error, wthrow, wret.
cbn [wresult wworld wtrace fst snd app].
destruct (negb _ && _); cbn [wresult wworld wtrace fst snd app]; [|reflexivity].
destruct (negb _ && _); reflexivity.
Qed.

Lemma read_chunk_facts m_handle (w : W) :
let r := read_chunk m_handle w in
wresult r <> Diverges /\
(forall e, wresult r = Throws e -> exists code, e = PipeException code "Overlapped waiting") /\
slept (wtrace r) = 0 /\ handles_closed (wtrace r) = [] /\ handles_guarded (wtrace r) = [] /\
wcount is_ReadFile (wtrace r) = 1%nat.
Proof.
cbv zeta. rewrite read_chunk_unfold. cbv zeta.
destruct (negb _ && _).
- destruct (negb _ && _); simpl; split_all; try discriminate; try reflexivity.
  intros e [= <-]. eexists. reflexivity.
- simpl. split_all; try discriminate; try reflexivity.
Qed.

Lemma read_loop_unfold fuel m_handle timeout message (w : W) :
read_loop (S fuel) m_handle timeout message w =
let c := read_chunk m_handle w in
match wresult c with
| Returns r =>
    if negb r.1.1 && (0 <? length message)%nat then
      WRun (Returns message) (wworld c) (wtrace c)
    else if r.1.1 then
      if r.1.2 <? PIPE_BUFFER_SIZE then
        WRun (Returns (message ++ take (Z.to_nat r.1.2) r.2)) (wworld c) (wtrace c)
      else
        let l := read_loop fuel m_handle timeout
                   (message ++ take (Z.to_nat r.1.2) r.2) (wworld c) in
        WRun (wresult l) (wworld l) (wtrace c ++ wtrace l)
    else
      let e := GetLastError (wworld c) in
      let d := (if e =? ERROR_BROKEN_PIPE then disconnectAndReconnect m_handle true timeout
                else if e =? ERROR_PIPE_LISTENING then wret timeout
                else wthrow (PipeException e "Read")) (wworld c) in
      match wresult d with
      | Returns t =>
          if t >? PIPE_WAIT_INTERVAL then
            let l := read_loop fuel m_handle (t - PIPE_WAIT_INTERVAL) message
                       (sleep_for PIPE_WAIT_INTERVAL (wworld d)) in
            WRun (wresult l) (wworld l)
                 (wtrace c ++ wtrace d ++ Sleep_ev PIPE_WAIT_INTERVAL :: wtrace l)
          else WRun (Throws TimeoutException) (wworld d) (wtrace c ++ wtrace d)
      | Throws x => WRun (Throws x) (wworld d) (wtrace c ++ wtrace d)
      | Diverges => WRun Diverges (wworld d) (wtrace c ++ wtrace d)
      end
| Throws x => WRun (Throws x) (wworld c) (wtrace c)
| Diverges => WRun Diverges (wworld c) (wtrace c)
end.
Proof.
cbn [read_loop]. rewrite wbind_run. cbv zeta.
destruct (wresult (read_chunk m_handle w)) as [r|x|]; [|reflexivity..].
destruct (negb r.1.1 && _); [rewrite app_nil_r; reflexivity|].
destruct r.1.1.
{ destruct (r.1.2 <? PIPE_BUFFER_SIZE); [rewrite app_nil_r; reflexivity|reflexivity]. }
rewrite wbind_run. cbn [last_error wresult wworld wtrace]. rewrite wbind_run.
set (c := read_chunk m_handle w).
set (d := (if GetLastError (wworld c) =? ERROR_BROKEN_PIPE
           then disconnectAndReconnect m_handle true timeout
           else if GetLastError (wworld c) =? ERROR_PIPE_LISTENING then wret timeout
                else wthrow (PipeException (GetLastError (wworld c)) "Read")) (wworld c)).
destruct (wresult d) as [t|x|]; cbn [wresult wworld wtrace app]; [|reflexivity..].
destruct (t >? PIPE_WAIT_INTERVAL); [|cbn [wthrow wresult wworld wtrace];
                                      rewrite app_nil_r; reflexivity].
rewrite wbind_run. cbn [call_sleep wresult wworld wtrace app]. reflexivity.
Qed.

Lemma raises_only_incl (l1 l2 : list string) e :
(forall c, In c l1 -> In c l2) -> raises_only l1 e -> raises_only l2 e.
Proof.
intros Hincl [->|(code & ctx & -> & Hin)]; [left; reflexivity|].
right. exists code, ctx. auto.
Qed.

Lemma read_loop_facts fuel m_handle timeout message (w : W) :
let r := read_loop fuel m_handle timeout message w in
0 <= slept (wtrace r) /\
slept (wtrace r) <= Z.max 0 (timeout - 1) /\
(forall e, wresult r = Throws e ->
   raises_only ["Overlapped waiting"; "Read"; "Disconnect"; "Connect";
                "Waiting for pending IO"]%string e) /\
handles_closed (wtrace r) = [] /\ handles_guarded (wtrace r) = [].
Proof.
revert timeout message w. induction fuel as [|fuel IH]; intros timeout message w.
{ simpl. split; [lia|]. split; [lia|]. split; [intros e Hd; discriminate Hd|auto]. }
cbv zeta. rewrite read_loop_unfold. cbv zeta.
destruct (read_chunk_facts m_handle w) as (Hnd & Hthrow & Hs & Hc & Hg & _).
set (c := read_chunk m_handle w) in *.
destruct (wresult c) as [r|x|] eqn:Ec.
3:{ congruence. }
2:{ cbn [wresult wtrace]. rewrite Hs, Hc, Hg.
    split; [lia|]. split; [lia|]. split; [|auto].
    intros e [= <-]. destruct (Hthrow x eq_refl) as [code ->].
    right. exists code, "Overlapped waiting"%string. split; [reflexivity|simpl; tauto]. }
destruct (negb r.1.1 && _).
{ cbn [wresult wtrace]. rewrite Hs, Hc, Hg.
  split; [lia|]. split; [lia|]. split; [intros e Hd; discriminate Hd|auto]. }
destruct r.1.1.
{ destruct (r.1.2 <? PIPE_BUFFER_SIZE).
  - cbn [wresult wtrace]. rewrite Hs, Hc, Hg.
    split; [lia|]. split; [lia|]. split; [intros e Hd; discriminate Hd|auto].
  - destruct (IH timeout (message ++ take (Z.to_nat r.1.2) r.2) (wworld c))
      as (Hpos & Hle & Hthrow' & Hc' & Hg').
    cbn [wresult wtrace].
    rewrite slept_app, handles_closed_app, handles_guarded_app, Hs, Hc, Hg, Hc', Hg'.
    split; [lia|]. split; [lia|]. split; [exact Hthrow'|auto]. }
set (e := GetLastError (wworld c)).
set (d := (if e =? ERROR_BROKEN_PIPE
           then disconnectAndReconnect m_handle true timeout
           else if e =? ERROR_PIPE_LISTENING then wret timeout
                else wthrow (PipeException e "Read")) (wworld c)).
assert (Hd : wresult d <> Diverges /\
             0 <= slept (wtrace d) /\
             (slept (wtrace d) = 0 \/ slept (wtrace d) < timeout) /\
             (forall t, wresult d = Returns t -> t = timeout - slept (wtrace d)) /\
             (forall x, wresult d = Throws x ->
                raises_only ["Overlapped waiting"; "Read"; "Disconnect"; "Connect";
                             "Waiting for pending IO"]%string x) /\
             handles_closed (wtrace d) = [] /\ handles_guarded (wtrace d) = []).
{ unfold d. destruct (e =? ERROR_BROKEN_PIPE).
  - destruct (disconnectAndReconnect_facts m_handle true timeout (wworld c))
      as (D1 & D2 & D3 & D4 & D5 & D6 & D7).
    split; [exact D1|]. split; [exact D2|]. split; [exact D3|]. split; [exact D4|].
    split; [|auto]. intros x Hx.
    apply (raises_only_incl ["Disconnect"; "Connect"; "Waiting for pending IO"]%string);
      [simpl; tauto|]. apply D5. exact Hx.
  - destruct (e =? ERROR_PIPE_LISTENING); simpl.
    + split; [discriminate|]. split; [lia|]. split; [auto|].
      split; [intros t [= <-]; lia|]. split; [intros x Hd; discriminate Hd|auto].
    + split; [discriminate|]. split; [lia|]. split; [auto|].
      split; [intros t Hd; discriminate Hd|]. split; [|auto].
      intros x [= <-]. right. exists e, "Read"%string. split; [reflexivity|simpl; tauto]. }
destruct Hd as (D1 & D2 & D3 & D4 & D5 & D6 & D7).
destruct (wresult d) as [t|x|] eqn:Ed.
3:{ congruence. }
2:{ cbn [wresult wtrace].
    rewrite slept_app, handles_closed_app, handles_guarded_app, Hs, Hc, Hg, D6, D7.
    split; [lia|]. split; [lia|]. split; [|auto]. intros x' [= <-]. apply D5. reflexivity. }
pose proof (D4 t eq_refl) as Ht. unfold PIPE_WAIT_INTERVAL.
destruct (Z.gtb_spec t 1) as [Hgt|Hle].
- destruct (IH (t - 1) message (sleep_for 1 (wworld d)))
    as (Hpos & Hle & Hthrow' & Hc' & Hg').
  cbn [wresult wtrace].
  rewrite slept_app, handles_closed_app, handles_guarded_app, Hs, Hc, Hg.
  rewrite slept_app, handles_closed_app, handles_guarded_app, D6, D7.
  cbn [slept handles_closed handles_guarded app]. rewrite Hc', Hg'.
  split; [lia|]. split; [lia|]. split; [exact Hthrow'|auto].
- cbn [wresult wtrace].
  rewrite slept_app, handles_closed_app, handles_guarded_app, Hs, Hc, Hg, D6, D7.
  split; [lia|]. split; [lia|]. split; [|auto].
  intros x [= <-]. left. reflexivity.
Qed.

Lemma win_read_blocking_unfold fuel (this : Windows.NamedPipe) timeout (w : W) :
read_blocking fuel this timeout w =
let h := Windows.m_handle this in
let ce := CreateEvent w in
let d := disconnectAndReconnect h false timeout ce.2 in
match wresult d with
| Returns t =>
    let l := read_loop fuel h t [] (wworld d) in
    match wresult l with
    | Returns message =>
        let dn := DisconnectNamedPipe h (wworld l) in
        let closing := handle_dtor ce.1 dn.2 in
        WRun (Returns message) (wworld closing)
             (CreateEvent_ev ce.1 :: wtrace d ++ wtrace l
                ++ DisconnectNamedPipe_ev h dn.1 :: wtrace closing)
    | Throws x =>
        let closing := handle_dtor ce.1 (wworld l) in
        WRun (Throws x) (wworld closing)
             (CreateEvent_ev ce.1 :: wtrace d ++ wtrace l ++ wtrace closing)
    | Diverges => WRun Diverges (wworld l) (CreateEvent_ev ce.1 :: wtrace d ++ wtrace l)
    end
| Throws x =>
    let closing := handle_dtor ce.1 (wworld d) in
    WRun (Throws x) (wworld closing) (CreateEvent_ev ce.1 :: wtrace d ++ wtrace closing)
| Diverges => WRun Diverges (wworld d) (CreateEvent_ev ce.1 :: wtrace d)
end.
Proof.
unfold read_blocking. rewrite wbind_run. cbn [call_CreateEvent wresult wworld wtrace].
unfold wfinally. rewrite wbind_run. cbv zeta.
destruct (wresult (disconnectAndReconnect _ false timeout _)) as [t|x|];
  cbn [wresult wworld wtrace app]; [|reflexivity..].
rewrite wbind_run.
destruct (wresult (read_loop fuel _ t [] _)) as [message|x|];
  cbn [wresult wworld wtrace app]; [|rewrite <- ?app_assoc; reflexivity..].
rewrite wbind_run. cbn [call_DisconnectNamedPipe wret wresult wworld wtrace app].
rewrite <- !app_assoc. reflexivity.
Qed.

Lemma win_read_blocking_outcomes fuel (this : Windows.NamedPipe) timeout (w : W) :
let r := read_blocking fuel this timeout w in
(forall e, wresult r = Throws e ->
   raises_only ["Overlapped waiting"; "Read"; "Disconnect"; "Connect";
                "Waiting for pending IO"]%string e) /\
(wresult r <> Diverges -> handles_closed (wtrace r) = handles_guarded (wtrace r)) /\
(length (handles_guarded (wtrace r)) <= 1)%nat /\
0 <= slept (wtrace r) <= Z.max 0 (timeout - 1) /\
(forall message, wresult r = Returns message ->
   exists tr ok tail,
     wtrace r = tr ++ DisconnectNamedPipe_ev (Windows.m_handle this) ok :: tail /\
     handles_closed tr = [] /\ wcount is_ReadFile tail = O).
Proof.
cbv zeta. rewrite win_read_blocking_unfold. cbv zeta.
set (h := Windows.m_handle this). set (ce := CreateEvent w).
destruct (disconnectAndReconnect_facts h false timeout ce.2)
  as (D1 & D2 & D3 & D4 & D5 & D6 & D7).
set (d := disconnectAndReconnect h false timeout ce.2) in *.
assert (Hclose : forall w' : W,
          handles_closed (wtrace (handle_dtor ce.1 w')) =
            (if ce.1 =? INVALID_HANDLE_VALUE then [] else [ce.1]) /\
          handles_guarded (wtrace (handle_dtor ce.1 w')) = [] /\
          slept (wtrace (handle_dtor ce.1 w')) = 0 /\
          wcount is_ReadFile (wtrace (handle_dtor ce.1 w')) = O).
{ intros w'. rewrite handle_dtor_run. destruct (ce.1 =? INVALID_HANDLE_VALUE); [simpl; auto|].
  cbv zeta. destruct (CloseHandle ce.1 w').1; simpl; auto. }
destruct (wresult d) as [t|x|] eqn:Ed.
3:{ congruence. }
2:{ destruct (Hclose (wworld d)) as (C1 & C2 & C3 & C4).
    cbn [wresult wtrace handles_closed handles_guarded slept].
    rewrite slept_app, handles_closed_app, handles_guarded_app, D6, D7, C1, C2, C3.
    split; [intros e [= <-]; apply (raises_only_incl
              ["Disconnect"; "Connect"; "Waiting for pending IO"]%string);
            [simpl; tauto|apply D5; reflexivity]|].
    split; [intros _; destruct (ce.1 =? INVALID_HANDLE_VALUE); reflexivity|].
    split; [destruct (ce.1 =? INVALID_HANDLE_VALUE); simpl; lia|].
    split; [lia|]. intros message Hd; discriminate Hd. }
pose proof (D4 t eq_refl) as Ht.
destruct (read_loop_facts fuel h t [] (wworld d)) as (L1 & L2 & L3 & L4 & L5).
set (l := read_loop fuel h t [] (wworld d)) in *.
destruct (wresult l) as [message|x|] eqn:El.
- set (dn := DisconnectNamedPipe h (wworld l)).
  destruct (Hclose dn.2) as (C1 & C2 & C3 & C4).
  cbn [wresult wtrace handles_closed handles_guarded slept].
  rewrite !slept_app, !handles_closed_app, !handles_guarded_app, D6, D7, L4, L5.
  cbn [handles_closed handles_guarded slept app]. rewrite C1, C2, C3.
  split; [intros e Hd; discriminate Hd|].
  split; [intros _; destruct (ce.1 =? INVALID_HANDLE_VALUE); reflexivity|].
  split; [destruct (ce.1 =? INVALID_HANDLE_VALUE); simpl; lia|].
  split; [lia|]. intros message' _.
  exists (CreateEvent_ev ce.1 :: wtrace d ++ wtrace l), dn.1, (wtrace (handle_dtor ce.1 dn.2)).
  split; [simpl; rewrite <- app_assoc; reflexivity|].
  split; [|exact C4].
  cbn [handles_closed]. rewrite handles_closed_app, D6, L4. reflexivity.
- destruct (Hclose (wworld l)) as (C1 & C2 & C3 & C4).
  cbn [wresult wtrace handles_closed handles_guarded slept].
  rewrite !slept_app, !handles_closed_app, !handles_guarded_app, D6, D7, L4, L5, C1, C2, C3.
  split; [intros e [= <-]; apply L3; reflexivity|].
  split; [intros _; destruct (ce.1 =? INVALID_HANDLE_VALUE); reflexivity|].
  split; [destruct (ce.1 =? INVALID_HANDLE_VALUE); simpl; lia|].
  split; [lia|]. intros message Hd; discriminate Hd.
- cbn [wresult wtrace handles_closed handles_guarded slept].
  rewrite !slept_app, !handles_guarded_app, D7, L5.
  split; [intros e Hd; discriminate Hd|].
  split; [intros Hd; contradiction|].
  split; [destruct (ce.1 =? INVALID_HANDLE_VALUE); simpl; lia|].
  split; [lia|]. intros message Hd; discriminate Hd.
Qed.
End WinRead.

Section WinBudget.
Import WinIO.
Context {W : Type} `{Api W}.
Local Open Scope win_scope.

Lemma write_slept p message messageSize timeout waitUntilWritten (w : W) :
let r := write p message messageSize timeout waitUntilWritten w in
0 <= slept (wtrace r) <= Z.max 0 (timeout - 1).
Proof.
cbv zeta. rewrite write_unfold. cbv zeta.
destruct (wait_for_pipe_facts (attempts timeout) (full_name p) timeout w (le_n _))
  as (_ & _ & Hs & Hret & _).
set (wp := wait_for_pipe _ _ _ _) in *.
destruct (wresult wp) as [t|e|] eqn:Ewp; cbn [wresult wtrace]; [|lia..].
destruct (Hret t eq_refl) as [Ht _].
assert (Hle : t <= timeout) by (unfold PIPE_WRITE_WAIT_INTERVAL in Ht; lia).
set (cf := CreateFile _ _).
assert (Hclose : forall w' : W, slept (wtrace (handle_dtor cf.1 w')) = 0).
{ intros w'. rewrite handle_dtor_run. destruct (cf.1 =? INVALID_HANDLE_VALUE); [reflexivity|].
  cbv zeta. destruct (CloseHandle cf.1 w').1; reflexivity. }
destruct (cf.1 =? INVALID_HANDLE_VALUE).
{ cbn [wresult wtrace]. rewrite slept_app, Hs. simpl. lia. }
set (wf := WriteFile _ _ _).
assert (Hquiet : forall w' : W,
          let tr := wtrace wp ++ CreateFile_ev (full_name p) cf.1
                      :: WriteFile_ev cf.1 (take (DWORD_of_size messageSize) message) wf.1
                      :: wtrace (handle_dtor cf.1 w') in
          0 <= slept tr <= Z.max 0 (timeout - 1)).
{ intros w' tr. unfold tr. rewrite slept_app, Hs. cbn [slept]. rewrite Hclose. lia. }
destruct wf.1; [apply Hquiet|].
destruct (GetLastError wf.2 =? ERROR_IO_PENDING); [|apply Hquiet].
destruct waitUntilWritten; [|apply Hquiet].
destruct (waitOnAsyncIO_slept (pending_attempts t) cf.1 t wf.2) as (Hpos & Hlt & _).
set (a := waitOnAsyncIO _ _ _ _) in *.
destruct (wresult a); cbn [wresult wtrace];
  rewrite slept_app, Hs; cbn [slept]; rewrite ?slept_app, ?Hclose; lia.
Qed.

Lemma read_loop_failed_read fuel m_handle timeout message (w : W) :
let f := ReadFile m_handle PIPE_BUFFER_SIZE w in
let code := GetLastError f.2 in
f.1.1.1 = false ->
code <> ERROR_IO_PENDING ->
(message <> [] ->
 read_loop (S fuel) m_handle timeout message w =
 WRun (Returns message) f.2 [ReadFile_ev m_handle PIPE_BUFFER_SIZE false f.1.1.2]) /\
(message = [] -> code <> ERROR_BROKEN_PIPE -> code <> ERROR_PIPE_LISTENING ->
 read_loop (S fuel) m_handle timeout message w =
 WRun (Throws (PipeException code "Read")) f.2
      [ReadFile_ev m_handle PIPE_BUFFER_SIZE false f.1.1.2]).
Proof.
intros f code Hfail Hpending.
assert (Hchunk : read_chunk m_handle w =
                 WRun (Returns f.1) f.2 [ReadFile_ev m_handle PIPE_BUFFER_SIZE false f.1.1.2]).
{ rewrite read_chunk_unfold. cbv zeta. fold f. rewrite Hfail. fold code.
  destruct (Z.eqb_spec code ERROR_IO_PENDING); [contradiction|]. reflexivity. }
split.
- intros Hdata. rewrite read_loop_unfold. cbv zeta. rewrite Hchunk.
  cbn [wresult wworld wtrace]. rewrite Hfail.
  destruct message; [contradiction|]. reflexivity.
- intros -> Hbroken Hlistening. rewrite read_loop_unfold. cbv zeta. rewrite Hchunk.
  cbn [wresult wworld wtrace]. rewrite Hfail. fold code.
  destruct (Z.eqb_spec code ERROR_BROKEN_PIPE); [contradiction|].
  destruct (Z.eqb_spec code ERROR_PIPE_LISTENING); [contradiction|].
  reflexivity.
Qed.
End WinBudget.

Lemma script_ReadFile_ok h count n bytes name rest e0 :
  WinIO.ReadFile h count (Script.MkScript (Script.Ok n bytes name :: rest) e0)
  = ((true, n, bytes), Script.MkScript rest e0).
Proof. reflexivity. Qed.

Lemma script_CreateEvent_ok n bytes name rest e0 :
  WinIO.CreateEvent (Script.MkScript (Script.Ok n bytes name :: rest) e0)
  = (n, Script.MkScript rest e0).
Proof. reflexivity. Qed.

Lemma script_ConnectNamedPipe_ok h n bytes name rest e0 :
  WinIO.ConnectNamedPipe h (Script.MkScript (Script.Ok n bytes name :: rest) e0)
  = (true, Script.MkScript rest e0).
Proof. reflexivity. Qed.

Lemma read_loop_chunks (fulls : list (list byte)) :
  forall (fuel : nat) (h T : Z) (message short : list byte) (tail : list Script.answer)
         (e0 : Z),
    Forall (fun chunk => length chunk = 256%nat) fulls ->
    (length short < 256)%nat ->
    (length fulls < fuel)%nat ->
    let r := WinIO.read_loop fuel h T message
               (Script.MkScript
                  (map (fun chunk => Script.Ok 256 chunk EmptyString) fulls
                     ++ Script.Ok (Z.of_nat (length short)) short EmptyString :: tail) e0) in
    WinIO.wresult r = Returns (message ++ concat fulls ++ short) /\
    WinIO.wworld r = Script.MkScript tail e0 /\
    slept (WinIO.wtrace r) = 0 /\
    handles_closed (WinIO.wtrace r) = [] /\
    handles_guarded (WinIO.wtrace r) = [] /\
    wcount is_ReadFile (WinIO.wtrace r) = S (length fulls).
Proof.
  induction fulls as [|chunk fulls IH]; intros fuel h T message short tail e0 Hfull Hshort Hfuel;
    (destruct fuel as [|fuel]; [simpl in Hfuel; lia|]);
    cbv zeta; rewrite read_loop_unfold, read_chunk_unfold; cbv zeta;
    cbn [map app]; rewrite script_ReadFile_ok; cbn [fst snd negb andb WinIO.wresult
                                                      WinIO.wworld WinIO.wtrace].
  - assert (Hlt : (Z.of_nat (length short) <? PIPE_BUFFER_SIZE) = true).
    { apply Z.ltb_lt. unfold PIPE_BUFFER_SIZE. lia. }
    rewrite Hlt. rewrite Nat2Z.id, firstn_all.
    cbn [WinIO.wresult WinIO.wworld WinIO.wtrace concat app].
    split_all; reflexivity.
  - change (256 <? PIPE_BUFFER_SIZE) with false. cbv iota.
    inversion Hfull as [|? ? Hlen Hrest]; subst.
    assert (Hchunk : take (Z.to_nat 256) chunk = chunk).
    { change (Z.to_nat 256) with 256%nat. rewrite <- Hlen. apply firstn_all. }
    rewrite Hchunk.
    destruct (IH fuel h T (message ++ chunk) short tail e0 Hrest Hshort)
      as (R1 & R2 & R3 & R4 & R5 & R6); [simpl in Hfuel; lia|].
    cbn [WinIO.wresult WinIO.wworld WinIO.wtrace app slept handles_closed handles_guarded
           wcount is_ReadFile concat length].
    rewrite R1, R2, R3, R4, R5, R6, <- !app_assoc. split_all; reflexivity.
Qed.

Lemma read_blocking_chunks (fulls : list (list byte)) (short : list byte) (ev T : Z)
    (this : Windows.NamedPipe) (fuel : nat) :
  Forall (fun chunk => length chunk = 256%nat) fulls ->
  (length short < 256)%nat ->
  (length fulls < fuel)%nat ->
  let w := Script.MkScript
             (Script.Ok ev [] EmptyString :: Script.Ok 1 [] EmptyString
                :: map (fun chunk => Script.Ok 256 chunk EmptyString) fulls
                ++ [Script.Ok (Z.of_nat (length short)) short EmptyString]) 0 in
  let r := WinIO.read_blocking fuel this T w in
  WinIO.wresult r = Returns (concat fulls ++ short) /\
  slept (WinIO.wtrace r) = 0 /\
  wcount is_ReadFile (WinIO.wtrace r) = S (length fulls) /\
  handles_closed (WinIO.wtrace r) = handles_guarded (WinIO.wtrace r).
Proof.
  intros Hfull Hshort Hfuel. cbv zeta.
  rewrite win_read_blocking_unfold. cbv zeta.
  rewrite script_CreateEvent_ok. cbn [fst snd].
  rewrite disconnectAndReconnect_unfold. cbv zeta. cbn [fst snd app].
  rewrite script_ConnectNamedPipe_ok.
  cbn [fst snd WinIO.wresult WinIO.wworld WinIO.wtrace app].
  destruct (read_loop_chunks fulls fuel (Windows.m_handle this) T [] short [] 0
              Hfull Hshort Hfuel) as (R1 & R2 & R3 & R4 & R5 & R6).
  rewrite R1. cbn [WinIO.wresult WinIO.wtrace app].
  split; [reflexivity|].
  rewrite R2. rewrite handle_dtor_run.
  cbn [slept wcount is_ReadFile handles_closed handles_guarded].
  rewrite !slept_app, !wcount_app, !handles_closed_app, !handles_guarded_app, R3, R4, R5, R6.
  destruct (ev =? WinIO.INVALID_HANDLE_VALUE); cbn; split_all; try reflexivity; lia.
Qed.

(** X17: in every world, whatever m_break and the path of the object
    are, the Windows read_blocking raises only TimeoutException or a
    PipeException whose context is "Overlapped waiting", "Read",
    "Disconnect", "Connect" or "Waiting for pending IO": an interrupt is
    never reported.  The event handle it creates is closed exactly once when
    the call ends, and nothing else is closed; and a call that returns has
    called DisconnectNamedPipe on the pipe after its last read and before a
    handle is closed. *)
Theorem windows_read_outcomes :
  forall (W : Type) (HW : WinIO.Api W) (fuel : nat) (this : Windows.NamedPipe)
         (timeout : Z) (w : W),
    let r := WinIO.read_blocking fuel this timeout w in
    (forall e, WinIO.wresult r = Throws e ->
       e <> InterruptException /\
       raises_only ["Overlapped waiting"; "Read"; "Disconnect"; "Connect";
                    "Waiting for pending IO"]%string e) /\
    (WinIO.wresult r <> Diverges ->
       handles_closed (WinIO.wtrace r) = handles_guarded (WinIO.wtrace r)) /\
    (length (handles_guarded (WinIO.wtrace r)) <= 1)%nat /\
    (forall message, WinIO.wresult r = Returns message ->
       exists tr ok tail,
         WinIO.wtrace r
           = tr ++ WinIO.DisconnectNamedPipe_ev (Windows.m_handle this) ok :: tail /\
         handles_closed tr = [] /\ wcount is_ReadFile tail = O).
Proof.
  intros W HW fuel this timeout w.
  destruct (win_read_blocking_outcomes fuel this timeout w) as (O1 & O2 & O3 & _ & O5).
  cbv zeta. split; [|auto].
  intros e He. split; [|apply O1; exact He].
  destruct (O1 e He) as [->|(code & ctx & -> & _)]; discriminate.
Qed.

(** X18: the Windows read_blocking puts a message together from the
    chunks ReadFile delivers: after any number of full chunks of 256 bytes
    and one shorter chunk it returns their concatenation, with one ReadFile
    per chunk.  It does so for every timeout, also 0 or a negative one, and
    without sleeping: reading data does not use up the timeout. *)
Theorem windows_read_collects_chunks :
  forall (fulls : list (list byte)) (short : list byte) (ev T : Z)
         (this : Windows.NamedPipe) (fuel : nat),
    Forall (fun chunk => length chunk = 256%nat) fulls ->
    (length short < 256)%nat ->
    (length fulls < fuel)%nat ->
    let w := Script.MkScript
               (Script.Ok ev [] EmptyString :: Script.Ok 1 [] EmptyString
                  :: map (fun chunk => Script.Ok 256 chunk EmptyString) fulls
                  ++ [Script.Ok (Z.of_nat (length short)) short EmptyString]) 0 in
    let r := WinIO.read_blocking fuel this T w in
    WinIO.wresult r = Returns (concat fulls ++ short) /\
    slept (WinIO.wtrace r) = 0 /\
    wcount is_ReadFile (WinIO.wtrace r) = S (length fulls) /\
    handles_closed (WinIO.wtrace r) = handles_guarded (WinIO.wtrace r).
Proof. exact read_blocking_chunks. Qed.

Lemma windows_read_collects_chunks_witness :
  WinIO.wresult
    (WinIO.read_blocking 2 (Windows.MkNamedPipe "\\.\pipe\testPipe" false 3) 0
       (Script.MkScript
          [Script.Ok 9 [] EmptyString; Script.Ok 1 [] EmptyString;
           Script.Ok 256 (repeat Byte.x41 256) EmptyString;
           Script.Ok 1 Scenario.message1 EmptyString] 0))
  = Returns (repeat Byte.x41 256 ++ Scenario.message1).
Proof.
  pose proof (windows_read_collects_chunks [repeat Byte.x41 256] Scenario.message1 9 0
                (Windows.MkNamedPipe "\\.\pipe\testPipe" false 3) 2) as Hchunks.
  cbv zeta in Hchunks. destruct Hchunks as (Hres & _).
  - repeat constructor.
  - vm_compute. lia.
  - simpl. lia.
  - rewrite <- (app_nil_r (repeat Byte.x41 256)) at 2. exact Hres.
Defined.

(** X19: a ReadFile of the loop of the Windows read_blocking that fails
    with anything but ERROR_IO_PENDING ends the message without an error when
    bytes have been read before it, whatever the code; only on an empty
    message a code other than ERROR_BROKEN_PIPE and ERROR_PIPE_LISTENING is
    raised as PipeException "Read". *)
Theorem windows_read_error_after_data :
  forall (W : Type) (HW : WinIO.Api W) (fuel : nat) (m_handle timeout : Z)
         (message : list byte) (w : W),
    let f := WinIO.ReadFile m_handle PIPE_BUFFER_SIZE w in
    let code := WinIO.GetLastError f.2 in
    f.1.1.1 = false ->
    code <> WinIO.ERROR_IO_PENDING ->
    (message <> [] ->
     WinIO.read_loop (S fuel) m_handle timeout message w =
     WinIO.WRun (Returns message) f.2
       [WinIO.ReadFile_ev m_handle PIPE_BUFFER_SIZE false f.1.1.2]) /\
    (message = [] -> code <> WinIO.ERROR_BROKEN_PIPE -> code <> WinIO.ERROR_PIPE_LISTENING ->
     WinIO.read_loop (S fuel) m_handle timeout message w =
     WinIO.WRun (Throws (PipeException code "Read")) f.2
       [WinIO.ReadFile_ev m_handle PIPE_BUFFER_SIZE false f.1.1.2]).
Proof. intros W HW. exact read_loop_failed_read. Qed.

Lemma windows_read_error_after_data_witness :
  WinIO.wresult (WinIO.read_loop 1 3 1000 Scenario.message1
                   (Script.MkScript [Script.Fail 5] 0)) = Returns Scenario.message1 /\
  WinIO.wresult (WinIO.read_loop 1 3 1000 []
                   (Script.MkScript [Script.Fail 5] 0)) = Throws (PipeException 5 "Read").
Proof.
  pose proof (windows_read_error_after_data Script.script _ 0 3 1000 Scenario.message1
                (Script.MkScript [Script.Fail 5] 0)) as Hdata.
  pose proof (windows_read_error_after_data Script.script _ 0 3 1000 []
                (Script.MkScript [Script.Fail 5] 0)) as Hempty.
  cbv zeta in Hdata, Hempty.
  destruct Hdata as [Hdata _]; [reflexivity|vm_compute; discriminate|].
  destruct Hempty as [_ Hempty]; [reflexivity|vm_compute; discriminate|].
  split.
  - rewrite Hdata; [reflexivity|discriminate].
  - rewrite Hempty; [reflexivity|reflexivity|vm_compute; discriminate..].
Defined.

(** X20: the Windows write and read_blocking never sleep for as long
    as their timeout: in every world the sleeps of a call add up to at most
    timeout - 1 ms, and to nothing when the timeout is 1 ms or less, although
    the loops on WaitNamedPipe, on ReadFile and on pending operations all
    draw on it. *)
Theorem windows_sleeps_within_timeout :
  forall (W : Type) (HW : WinIO.Api W) (w : W) (timeout : Z),
    (forall p message messageSize waitUntilWritten,
       0 <= slept (WinIO.wtrace (WinIO.write p message messageSize timeout
                                   waitUntilWritten w))
         <= Z.max 0 (timeout - 1)) /\
    (forall fuel this,
       0 <= slept (WinIO.wtrace (WinIO.read_blocking fuel this timeout w))
         <= Z.max 0 (timeout - 1)).
Proof.
  intros W HW w timeout. split.
  - intros p message messageSize waitUntilWritten. apply write_slept.
  - intros fuel this. apply (win_read_blocking_outcomes fuel this timeout w).
Qed.

(** X21: for a pipe name that is not empty, the Windows create hands
    the full pipe name to CreateNamedPipe, once, and either raises PipeException "Create" with the
    last error or returns a valid object that keeps the handle; destroy on
    that object gives exactly this handle to CloseHandle, once, and leaves an
    invalid object; after a move construction destroy on the moved-from
    object closes nothing. *)
Theorem windows_create_destroy_cycle :
  forall (W : Type) (HW : WinIO.Api W) (p : path) (w : W),
    path_empty (WinIO.full_name p) = false ->
    let c := WinIO.create p w in
    let made := WinIO.CreateNamedPipe (WinIO.full_name p) w in
    WinIO.wtrace c = [WinIO.CreateNamedPipe_ev (WinIO.full_name p) made.1] /\
    (made.1 = WinIO.INVALID_HANDLE_VALUE ->
     WinIO.wresult c = Throws (PipeException (WinIO.GetLastError made.2) "Create")) /\
    (made.1 <> WinIO.INVALID_HANDLE_VALUE ->
     exists pipe,
       WinIO.wresult c = Returns pipe /\
       Windows.m_handle pipe = made.1 /\ Windows.getPath pipe = WinIO.full_name p /\
       Windows.isValid pipe = true /\
       forall w' : W,
         (exists ok diagnostics,
            trace (@Windows.destroy W (win32_of_api HW) pipe w')
              = EvStoreBreak true :: EvCloseHandle made.1 ok :: diagnostics /\
            count is_os_action diagnostics = O) /\
         result (@Windows.destroy W (win32_of_api HW) pipe w')
           = Returns (Windows.MkNamedPipe EmptyString true Windows.INVALID_HANDLE_VALUE) /\
         count is_os_action
           (trace (@Windows.destroy W (win32_of_api HW) (Windows.move_construct pipe).2 w'))
           = O).
Proof.
  intros W HW p w Hpath c made. unfold c, WinIO.create, WinIO.wbind, WinIO.call_CreateNamedPipe,
    WinIO.last_error, WinIO.wthrow, WinIO.wret.
  cbn [WinIO.wresult WinIO.wworld WinIO.wtrace fst snd]. fold made.
  destruct (Z.eqb_spec made.1 WinIO.INVALID_HANDLE_VALUE) as [Einv|Evalid];
    cbn [WinIO.wresult WinIO.wworld WinIO.wtrace app].
  - split; [reflexivity|]. split; [reflexivity|]. intros Hd. contradiction.
  - split; [reflexivity|]. split; [intros Hd; contradiction|]. intros _.
    exists (Windows.MkNamedPipe (WinIO.full_name p) false made.1).
    assert (Hvalid : Windows.isValid (Windows.MkNamedPipe (WinIO.full_name p) false made.1)
                     = true).
    { unfold Windows.isValid. cbn [Windows.m_pipePath]. rewrite Hpath. reflexivity. }
    split; [reflexivity|]. split; [reflexivity|]. split; [reflexivity|].
    split; [exact Hvalid|]. intros w'.
    destruct (Windows_destroy_releases_once W (win32_of_api HW)
                (Windows.MkNamedPipe (WinIO.full_name p) false made.1) w')
      as (Hres & Htrace & Hinert).
    rewrite Hvalid in Hres. split; [|split; [exact Hres|]].
    + destruct (Htrace Hvalid) as (diagnostics & Htr & Hquiet).
      eexists _, diagnostics. split; [exact Htr|exact Hquiet].
    + unfold Windows.move_construct. cbn [snd Windows.m_pipePath Windows.m_break path_clear].
      unfold Windows.destroy, bind, store_event, ret. reflexivity.
Qed.

Lemma windows_create_destroy_cycle_witness :
  WinIO.wtrace (WinIO.create "testPipe" (Script.MkScript [Script.Ok 3 [] EmptyString] 0))
  = [WinIO.CreateNamedPipe_ev "\\.\pipe\testPipe" 3].
Proof.
  pose proof (windows_create_destroy_cycle Script.script _ "testPipe"
                (Script.MkScript [Script.Ok 3 [] EmptyString] 0)) as Hcycle.
  cbv zeta in Hcycle. destruct Hcycle as [Htrace _]; [reflexivity|].
  exact Htrace.
Defined.

Section WinListening.
Import WinIO.
Context {W : Type} `{Api W}.
Local Open Scope win_scope.
Variable Inv : W -> Prop.
Variable h : Z.
Hypothesis Hread :
forall w : W, Inv w ->
  (ReadFile h PIPE_BUFFER_SIZE w).1.1.1 = false /\
  GetLastError (ReadFile h PIPE_BUFFER_SIZE w).2 = ERROR_PIPE_LISTENING /\
  Inv (sleep_for PIPE_WAIT_INTERVAL (ReadFile h PIPE_BUFFER_SIZE w).2).

Lemma read_loop_listening fuel timeout (w : W) :
Inv w ->
(attempts timeout <= fuel)%nat ->
let r := read_loop fuel h timeout [] w in
wresult r = Throws TimeoutException /\
wcount is_ReadFile (wtrace r) = attempts timeout /\
slept (wtrace r) = Z.of_nat (attempts timeout) - 1 /\
handles_closed (wtrace r) = [] /\ handles_guarded (wtrace r) = [] /\
wcount is_DisconnectNamedPipe (wtrace r) = O.
Proof.
revert timeout w. induction fuel as [|fuel IH]; intros timeout w Hinv Hfuel.
{ pose proof (attempts_pos timeout). lia. }
destruct (Hread w Hinv) as (Hfail & Hcode & Hnext).
cbv zeta. rewrite read_loop_unfold, read_chunk_unfold. cbv zeta.
rewrite Hfail, Hcode.
change (ERROR_PIPE_LISTENING =? ERROR_IO_PENDING) with false.
cbn [negb andb wresult wworld wtrace length Nat.ltb Nat.leb].
rewrite Hfail, Hcode. cbn [negb andb].
change (ERROR_PIPE_LISTENING =? ERROR_BROKEN_PIPE) with false.
change (ERROR_PIPE_LISTENING =? ERROR_PIPE_LISTENING) with true.
cbn [wret wresult wworld wtrace app]. unfold PIPE_WAIT_INTERVAL in *.
destruct (Z.gtb_spec timeout 1) as [Hgt|Hle].
- rewrite (attempts_step timeout Hgt) in *.
  destruct (IH (timeout - 1) _ Hnext) as (R1 & R2 & R3 & R4 & R5 & R6); [lia|].
  cbn [wresult wtrace wcount is_ReadFile is_DisconnectNamedPipe slept handles_closed
         handles_guarded app].
  rewrite R1, R2, R3, R4, R5, R6. split_all; try reflexivity. lia.
- rewrite (attempts_last timeout Hle). simpl. split_all; reflexivity.
Qed.

Lemma read_blocking_listening fuel (this : Windows.NamedPipe) timeout (w : W) :
Windows.m_handle this = h ->
(ConnectNamedPipe h (CreateEvent w).2).1 = true ->
Inv (ConnectNamedPipe h (CreateEvent w).2).2 ->
(attempts timeout <= fuel)%nat ->
let r := read_blocking fuel this timeout w in
wresult r = Throws TimeoutException /\
wcount is_ReadFile (wtrace r) = attempts timeout /\
slept (wtrace r) = Z.of_nat (attempts timeout) - 1 /\
wcount is_DisconnectNamedPipe (wtrace r) = O /\
handles_closed (wtrace r) = handles_guarded (wtrace r).
Proof.
intros Hh Hconn Hinv Hfuel. cbv zeta.
rewrite win_read_blocking_unfold. cbv zeta. rewrite Hh.
rewrite disconnectAndReconnect_unfold. cbv zeta. cbn [fst snd app].
rewrite Hconn. cbn [wresult wworld wtrace].
destruct (read_loop_listening fuel timeout _ Hinv Hfuel) as (R1 & R2 & R3 & R4 & R5 & R6).
rewrite R1. cbn [wresult wtrace]. rewrite handle_dtor_run.
cbn [wcount is_ReadFile is_DisconnectNamedPipe slept handles_closed handles_guarded app].
destruct ((CreateEvent w).1 =? INVALID_HANDLE_VALUE); cbv zeta;
  rewrite !wcount_app, !slept_app, !handles_closed_app, !handles_guarded_app,
    R2, R3, R4, R5, R6;
  [simpl; split_all; try reflexivity; lia|].
destruct (CloseHandle _ _).1; simpl; split_all; try reflexivity; lia.
Qed.
End WinListening.

(** X23: a Windows pipe no client connects to.  When the connect
    succeeds and every ReadFile on the pipe fails with ERROR_PIPE_LISTENING,
    read_blocking raises TimeoutException after exactly max(1, timeout)
    reads with a sleep of 1 ms between two of them; it leaves without
    calling DisconnectNamedPipe, and the event handle is closed. *)
Theorem windows_read_times_out_listening :
  forall (W : Type) (HW : WinIO.Api W) (Inv : W -> Prop) (fuel : nat)
         (this : Windows.NamedPipe) (timeout : Z) (w : W),
    (forall w' : W, Inv w' ->
       (WinIO.ReadFile (Windows.m_handle this) PIPE_BUFFER_SIZE w').1.1.1 = false /\
       WinIO.GetLastError (WinIO.ReadFile (Windows.m_handle this) PIPE_BUFFER_SIZE w').2
         = WinIO.ERROR_PIPE_LISTENING /\
       Inv (WinIO.sleep_for PIPE_WAIT_INTERVAL
              (WinIO.ReadFile (Windows.m_handle this) PIPE_BUFFER_SIZE w').2)) ->
    (WinIO.ConnectNamedPipe (Windows.m_handle this) (WinIO.CreateEvent w).2).1 = true ->
    Inv (WinIO.ConnectNamedPipe (Windows.m_handle this) (WinIO.CreateEvent w).2).2 ->
    (attempts timeout <= fuel)%nat ->
    let r := WinIO.read_blocking fuel this timeout w in
    WinIO.wresult r = Throws TimeoutException /\
    wcount is_ReadFile (WinIO.wtrace r) = attempts timeout /\
    slept (WinIO.wtrace r) = Z.of_nat (attempts timeout) - 1 /\
    wcount is_DisconnectNamedPipe (WinIO.wtrace r) = O /\
    handles_closed (WinIO.wtrace r) = handles_guarded (WinIO.wtrace r).
Proof.
  intros W HW Inv fuel this timeout w Hread Hconn Hinv Hfuel.
  exact (read_blocking_listening Inv (Windows.m_handle this) Hread fuel this timeout w
           eq_refl Hconn Hinv Hfuel).
Qed.

Lemma windows_read_times_out_listening_witness :
  WinIO.wresult (@WinIO.read_blocking unit Idle.api 100
                   (Windows.MkNamedPipe "\\.\pipe\testPipe" false 3) 100 tt)
  = Throws TimeoutException.
Proof.
  apply (windows_read_times_out_listening unit Idle.api (fun _ => True) 100
           (Windows.MkNamedPipe "\\.\pipe\testPipe" false 3) 100 tt).
  - intros w' _. split; [reflexivity|]. split; [reflexivity|exact I].
  - reflexivity.
  - exact I.
  - vm_compute. lia.
Defined.
